(** * Treasure Hunt: a shallow embedding of [treasure-hunt-game.py]

    The Python class [TreasureHuntGame] and the module-level functions
    [check_high_scores] and [display_high_scores] are translated into
    state-passing Rocq functions.  A method runs on a pair of the object
    ([Game], the fields of [self]) and of the environment ([World]: files,
    the random generator, the clock and the console); a module-level
    function runs on the [World] alone.  Python exceptions are explicit
    ([Raise]), and the rejection sampling of [_place_random_items], a
    [while] loop without bound, takes fuel ([Loop] when it runs out).

    The libraries are modelled by what the program uses of them: a path
    holds the JSON text of a document, a text that is not JSON or bytes that
    are no text, and every path can be written; [json.dump] and [json.load]
    write and read a document ([json]),
    [list.sort] is a stable sort, [datetime.now()] and [random.randint]
    read the next value of a sequence held by the environment.  The command
    loop [play_game], which reads a command and calls one method, is
    represented by [perform]; [generate_game_report], which formats a
    floating-point ratio, is not modelled. *)

From Stdlib Require Import ZArith Lia Ascii String.
From stdpp Require Import base decidable option list gmap strings pretty.

Set Warnings "-register-all".

Local Open Scope Z_scope.
Local Open Scope string_scope.
Local Open Scope list_scope.

(** ** Outcomes of a Python computation *)

Inductive exn : Type :=
| FileNotFoundError
| JSONDecodeError
| KeyError (key : string)
| IndexError
| TypeError
| ValueError
| AttributeError
| UnicodeDecodeError.

(** [Ret a s]: normal return of [a] in state [s]; [Raise e s]: exception [e]
    propagates, the mutations made so far are kept in [s]; [Loop]: the fuel
    of a [while] loop ran out; [Dynamic]: the computation met a JSON document
    whose fields do not have the types of the program's own files, which the
    typed state cannot hold (what Python does from there is not modelled). *)
Inductive outcome (S A : Type) : Type :=
| Ret (a : A) (s : S)
| Raise (e : exn) (s : S)
| Loop
| Dynamic.

Arguments Ret {S A} a s.
Arguments Raise {S A} e s.
Arguments Loop {S A}.
Arguments Dynamic {S A}.

Definition M (S A : Type) : Type := S -> outcome S A.

Definition ret {S A} (a : A) : M S A := fun s => Ret a s.

Definition raise {S A} (e : exn) : M S A := fun s => Raise e s.

Definition bind {S A B} (m : M S A) (k : A -> M S B) : M S B :=
  fun s => match m s with
           | Ret a s' => k a s'
           | Raise e s' => Raise e s'
           | Loop => Loop
           | Dynamic => Dynamic
           end.

Notation "x <- m ;; k" := (bind m (fun x => k))
  (at level 100, m at next level, right associativity).
Notation "m ;;; k" := (bind m (fun _ => k))
  (at level 100, right associativity).

Definition modify {S} (f : S -> S) : M S unit := fun s => Ret tt (f s).

(** [o] is the result of an indexing or of a key lookup: [None] raises [e]. *)
Definition or_raise {S A} (e : exn) (o : option A) : M S A :=
  match o with
  | Some a => ret a
  | None => raise e
  end.

(** The state an outcome ends in, when it ends. *)
Definition final_state {S A} (o : outcome S A) : option S :=
  match o with
  | Ret _ s => Some s
  | Raise _ s => Some s
  | Loop | Dynamic => None
  end.

(** [try: m except (e1, e2, ...): handler], [handled] telling the
    exceptions of the [except] clause. *)
Definition try_except {S A} (m : M S A) (handled : exn -> bool)
    (handler : M S A) : M S A :=
  fun s => match m s with
           | Raise e s' => if handled e then handler s' else Raise e s'
           | o => o
           end.

(** A field of a JSON document decoded at its type. *)
Definition typed {S A} (o : option A) : M S A :=
  match o with
  | Some a => ret a
  | None => fun _ => Dynamic
  end.

(** ** Python lists: indexing with negative indices and [IndexError] *)

Definition py_index {A} (l : list A) (i : Z) : option nat :=
  let n := Z.of_nat (length l) in
  if bool_decide (0 <= i < n) then Some (Z.to_nat i)
  else if bool_decide (- n <= i < 0) then Some (Z.to_nat (n + i))
  else None.

(** [l[i]] *)
Definition py_get {A} (l : list A) (i : Z) : option A :=
  match py_index l i with
  | Some k => l !! k
  | None => None
  end.

(** [l[i] = x] *)
Definition py_set {A} (l : list A) (i : Z) (x : A) : option (list A) :=
  match py_index l i with
  | Some k => Some (<[k := x]> l)
  | None => None
  end.

(** [range(n)] *)
Definition range (n : Z) : list Z := seqZ 0 n.

(** ** JSON documents, as [json.dump] writes and [json.load] reads them *)

Inductive json : Type :=
| JNull
| JBool (b : bool)
| JInt (z : Z)
| JStr (s : string)
| JArr (l : list json)
| JObj (fields : list (string * json)).

(** [d[k]] of a dict read from JSON (first binding of the key). *)
Fixpoint assoc (k : string) (fields : list (string * json)) : option json :=
  match fields with
  | [] => None
  | (k', v) :: rest => if String.eqb k k' then Some v else assoc k rest
  end.

(** ** The environment *)

(** A reading of [datetime.now()], with the two renderings the program
    takes of it: [strftime("%H:%M:%S")] and [strftime("%Y-%m-%d %H:%M:%S")]. *)
Record datetime : Type := {
  micros : Z;                (* microseconds since the epoch *)
  hms : string;
  ymd_hms : string
}.

(** [(t1 - t0).seconds]: the seconds field of the normalised [timedelta],
    days and microseconds apart. *)
Definition delta_seconds (t1 t0 : datetime) : Z :=
  ((micros t1 - micros t0) / 1000000) mod 86400.

Inductive event : Type :=
| Print (line : string)
| ClearScreen
| Sleep (secs : Z).

(** What a path holds: a text that is the JSON of a document, a text that
    is not JSON, or bytes that are not a text in the encoding [open] reads
    with.  A missing file is a path without binding. *)
Inductive file : Type :=
| Json (doc : json)
| NotJson
| NotText.

Record World : Type := {
  files : gmap string file;
  rng : nat -> nat;          (* the draws of the random generator *)
  rng_pos : nat;             (* how many were consumed *)
  clock : nat -> datetime;   (* the successive readings of the clock *)
  clock_pos : nat;
  console : list event
}.

Definition set_files (w : World) (fs : gmap string file) : World :=
  {| files := fs; rng := rng w; rng_pos := rng_pos w;
     clock := clock w; clock_pos := clock_pos w; console := console w |}.

Definition next_draw (w : World) : World :=
  {| files := files w; rng := rng w; rng_pos := S (rng_pos w);
     clock := clock w; clock_pos := clock_pos w; console := console w |}.

Definition next_tick (w : World) : World :=
  {| files := files w; rng := rng w; rng_pos := rng_pos w;
     clock := clock w; clock_pos := S (clock_pos w); console := console w |}.

Definition emit (e : event) (w : World) : World :=
  {| files := files w; rng := rng w; rng_pos := rng_pos w;
     clock := clock w; clock_pos := clock_pos w;
     console := console w ++ [e] |}.

(** ** The object *)

Record Inventory : Type := {
  keys : Z;
  shields : Z;
  maps : Z;
  used_map : option bool     (* the key "used_map", absent until [use_map] *)
}.

Record Game : Type := {
  player_name : string;
  grid_size : Z;
  score : Z;
  moves : Z;
  game_over : bool;
  start_time : datetime;
  grid : list (list string);
  player_pos : Z * Z;        (* the list [row, col] *)
  inventory : Inventory;
  game_log : list string
}.

Definition set_score (v : Z) (g : Game) : Game :=
  {| player_name := player_name g; grid_size := grid_size g; score := v;
     moves := moves g; game_over := game_over g; start_time := start_time g;
     grid := grid g; player_pos := player_pos g; inventory := inventory g;
     game_log := game_log g |}.

Definition set_moves (v : Z) (g : Game) : Game :=
  {| player_name := player_name g; grid_size := grid_size g; score := score g;
     moves := v; game_over := game_over g; start_time := start_time g;
     grid := grid g; player_pos := player_pos g; inventory := inventory g;
     game_log := game_log g |}.

Definition set_game_over (v : bool) (g : Game) : Game :=
  {| player_name := player_name g; grid_size := grid_size g; score := score g;
     moves := moves g; game_over := v; start_time := start_time g;
     grid := grid g; player_pos := player_pos g; inventory := inventory g;
     game_log := game_log g |}.

Definition set_start_time (v : datetime) (g : Game) : Game :=
  {| player_name := player_name g; grid_size := grid_size g; score := score g;
     moves := moves g; game_over := game_over g; start_time := v;
     grid := grid g; player_pos := player_pos g; inventory := inventory g;
     game_log := game_log g |}.

Definition set_grid (v : list (list string)) (g : Game) : Game :=
  {| player_name := player_name g; grid_size := grid_size g; score := score g;
     moves := moves g; game_over := game_over g; start_time := start_time g;
     grid := v; player_pos := player_pos g; inventory := inventory g;
     game_log := game_log g |}.

Definition set_player_pos (v : Z * Z) (g : Game) : Game :=
  {| player_name := player_name g; grid_size := grid_size g; score := score g;
     moves := moves g; game_over := game_over g; start_time := start_time g;
     grid := grid g; player_pos := v; inventory := inventory g;
     game_log := game_log g |}.

Definition set_inventory (v : Inventory) (g : Game) : Game :=
  {| player_name := player_name g; grid_size := grid_size g; score := score g;
     moves := moves g; game_over := game_over g; start_time := start_time g;
     grid := grid g; player_pos := player_pos g; inventory := v;
     game_log := game_log g |}.

Definition set_game_log (v : list string) (g : Game) : Game :=
  {| player_name := player_name g; grid_size := grid_size g; score := score g;
     moves := moves g; game_over := game_over g; start_time := start_time g;
     grid := grid g; player_pos := player_pos g; inventory := inventory g;
     game_log := v |}.

Definition set_keys (v : Z) (i : Inventory) : Inventory :=
  {| keys := v; shields := shields i; maps := maps i; used_map := used_map i |}.

Definition set_shields (v : Z) (i : Inventory) : Inventory :=
  {| keys := keys i; shields := v; maps := maps i; used_map := used_map i |}.

Definition set_maps (v : Z) (i : Inventory) : Inventory :=
  {| keys := keys i; shields := shields i; maps := v; used_map := used_map i |}.

Definition set_used_map (v : bool) (i : Inventory) : Inventory :=
  {| keys := keys i; shields := shields i; maps := maps i; used_map := Some v |}.

(** ** Methods run on the object and the environment *)

Definition Method (A : Type) : Type := M (Game * World) A.

Definition self : Method Game := fun s => Ret (fst s) s.

Definition update (f : Game -> Game) : Method unit :=
  modify (fun s => (f (fst s), snd s)).

Definition print (line : string) : Method unit :=
  modify (fun s => (fst s, emit (Print line) (snd s))).

(** [datetime.now()] *)
Definition now_w : M World datetime :=
  fun w => Ret (clock w (clock_pos w)) (next_tick w).

Definition now : Method datetime :=
  fun s => Ret (clock (snd s) (clock_pos (snd s))) (fst s, next_tick (snd s)).

(** [random.randint(a, b)]: [ValueError] on an empty range. *)
Definition randint (a b : Z) : M World Z :=
  fun w => if bool_decide (a <= b)
           then Ret (a + Z.of_nat (rng w (rng_pos w)) mod (b - a + 1)) (next_draw w)
           else Raise ValueError w.

(** Runs a function of the environment inside a method. *)
Definition lift {A} (m : M World A) : Method A :=
  fun s => match m (snd s) with
           | Ret a w => Ret a (fst s, w)
           | Raise e w => Raise e (fst s, w)
           | Loop => Loop
           | Dynamic => Dynamic
           end.

(** ** [TreasureHuntGame]: logging, moving, interacting *)

(** [_log_event(event)] *)
Definition _log_event (ev : string) : Method unit :=
  t <- now ;;
  update (fun g => set_game_log (game_log g ++ ["[" +:+ hms t +:+ "] " +:+ ev]) g).

(** [f"({position[0]}, {position[1]})"] *)
Definition show_pos (p : Z * Z) : string :=
  "(" +:+ pretty (fst p) +:+ ", " +:+ pretty (snd p) +:+ ")".

(** [self.grid[r][c]] *)
Definition grid_get (gr : list (list string)) (p : Z * Z) : option string :=
  match py_get gr (fst p) with
  | Some row => py_get row (snd p)
  | None => None
  end.

(** [self.grid[r][c] = v]: the row object is updated in place. *)
Definition grid_set (gr : list (list string)) (p : Z * Z) (v : string)
  : option (list (list string)) :=
  match py_index gr (fst p) with
  | Some k =>
      match gr !! k with
      | Some row =>
          match py_set row (snd p) v with
          | Some row' => Some (<[k := row']> gr)
          | None => None
          end
      | None => None
      end
  | None => None
  end.

(** [self.grid[position[0]][position[1]] = ' '] *)
Definition clear_cell (position : Z * Z) : Method unit :=
  g <- self ;;
  gr <- or_raise IndexError (grid_set (grid g) position " ") ;;
  update (set_grid gr).

(** [_handle_item_interaction(item, position)] *)
Definition _handle_item_interaction (item : string) (position : Z * Z)
  : Method unit :=
  if String.eqb item "T" then
    update (fun g => set_score (score g + 100) g) ;;;
    print "You found a treasure! +100 points" ;;;
    _log_event ("Found treasure at " +:+ show_pos position) ;;;
    clear_cell position
  else if String.eqb item "X" then
    g <- self ;;
    (if bool_decide (shields (inventory g) > 0) then
       update (fun g => set_inventory
                 (set_shields (shields (inventory g) - 1) (inventory g)) g) ;;;
       print "You triggered a trap, but your shield protected you!" ;;;
       _log_event ("Shield used against trap at " +:+ show_pos position)
     else
       update (fun g => set_score (score g - 50) g) ;;;
       print "Oh no! You triggered a trap! -50 points" ;;;
       _log_event ("Hit by trap at " +:+ show_pos position)) ;;;
    clear_cell position
  else if String.eqb item "K" then
    update (fun g => set_inventory
              (set_keys (keys (inventory g) + 1) (inventory g)) g) ;;;
    print "You found a key! It might be useful later." ;;;
    _log_event ("Found key at " +:+ show_pos position) ;;;
    clear_cell position
  else if String.eqb item "S" then
    update (fun g => set_inventory
              (set_shields (shields (inventory g) + 1) (inventory g)) g) ;;;
    print "You found a shield! This will protect you from one trap." ;;;
    _log_event ("Found shield at " +:+ show_pos position) ;;;
    clear_cell position
  else if String.eqb item "M" then
    update (fun g => set_inventory
              (set_maps (maps (inventory g) + 1) (inventory g)) g) ;;;
    print "You found a map! Use it to reveal the entire grid." ;;;
    _log_event ("Found map at " +:+ show_pos position) ;;;
    clear_cell position
  else if String.eqb item "E" then
    g <- self ;;
    if bool_decide (keys (inventory g) >= 1) then
      update (fun g => set_score (score g + 200) g) ;;;
      print "You've reached the exit and have a key! +200 points" ;;;
      _log_event "Reached exit with key - Victory!" ;;;
      update (set_game_over true)
    else
      print "You've found the exit, but you need a key to unlock it!" ;;;
      _log_event "Found exit but no key"
  else ret tt.

(** The first four branches of [move_player]: the new position, when the
    direction is one of the four and its guard holds. *)
Definition step (direction : string) (gs : Z) (pos : Z * Z) : option (Z * Z) :=
  if String.eqb direction "up" && bool_decide (fst pos > 0)
  then Some (fst pos - 1, snd pos)
  else if String.eqb direction "down" && bool_decide (fst pos < gs - 1)
  then Some (fst pos + 1, snd pos)
  else if String.eqb direction "left" && bool_decide (snd pos > 0)
  then Some (fst pos, snd pos - 1)
  else if String.eqb direction "right" && bool_decide (snd pos < gs - 1)
  then Some (fst pos, snd pos + 1)
  else None.

(** [move_player(direction)] *)
Definition move_player (direction : string) : Method bool :=
  g <- self ;;
  match step direction (grid_size g) (player_pos g) with
  | None =>
      print "You can't move in that direction!" ;;;
      _log_event ("Invalid move: " +:+ direction) ;;;
      ret false
  | Some new_pos =>
      update (fun g => set_moves (moves g + 1) g) ;;;
      g <- self ;;
      item <- or_raise IndexError (grid_get (grid g) new_pos) ;;
      _handle_item_interaction item new_pos ;;;
      update (set_player_pos new_pos) ;;;
      _log_event ("Moved " +:+ direction +:+ " to position " +:+ show_pos new_pos) ;;;
      ret true
  end.

(** ** Rendering and the map *)

Fixpoint for_each {S A} (l : list A) (body : A -> M S unit) : M S unit :=
  match l with
  | [] => ret tt
  | x :: l' => body x ;;; for_each l' body
  end.

Fixpoint fold_each {S A B} (l : list A) (body : B -> A -> M S B) (acc : B)
  : M S B :=
  match l with
  | [] => ret acc
  | x :: l' => acc' <- body acc x ;; fold_each l' body acc'
  end.

Definition newline : string := String "010"%char "".

(** One cell of a row of [display_grid]. *)
Definition render_cell (reveal_all : bool) (i : Z) (row : string) (j : Z)
  : Method string :=
  g <- self ;;
  if bool_decide ((i, j) = player_pos g) then ret (row +:+ "P ")
  else if reveal_all then
    c <- or_raise IndexError (grid_get (grid g) (i, j)) ;;
    ret (row +:+ c +:+ " ")
  else
    let is_adjacent :=
      bool_decide (Z.abs (i - fst (player_pos g)) <= 1)
      && bool_decide (Z.abs (j - snd (player_pos g)) <= 1) in
    if is_adjacent || default false (used_map (inventory g)) then
      c <- or_raise IndexError (grid_get (grid g) (i, j)) ;;
      ret (row +:+ c +:+ " ")
    else ret (row +:+ "? ").

(** [display_grid(reveal_all)] *)
Definition display_grid (reveal_all : bool) : Method unit :=
  modify (fun s => (fst s, emit ClearScreen (snd s))) ;;;
  g <- self ;;
  print (newline +:+ player_name g +:+ "'s Treasure Hunt Adventure") ;;;
  print ("Score: " +:+ pretty (score g) +:+ " | Moves: " +:+ pretty (moves g)) ;;;
  print ("Inventory: Keys: " +:+ pretty (keys (inventory g))
         +:+ " | Shields: " +:+ pretty (shields (inventory g))
         +:+ " | Maps: " +:+ pretty (maps (inventory g))) ;;;
  print ("  " +:+ String.concat " " (pretty <$> range (grid_size g))) ;;;
  for_each (range (grid_size g)) (fun i =>
    row <- fold_each (range (grid_size g)) (render_cell reveal_all i)
             (pretty i +:+ " ") ;;
    print row).

(** [time.sleep(secs)] *)
Definition sleep (secs : Z) : Method unit :=
  modify (fun s => (fst s, emit (Sleep secs) (snd s))).

(** [use_map()] *)
Definition use_map : Method bool :=
  g <- self ;;
  if bool_decide (maps (inventory g) > 0) then
    update (fun g => set_inventory
              (set_maps (maps (inventory g) - 1) (inventory g)) g) ;;;
    update (fun g => set_inventory (set_used_map true (inventory g)) g) ;;;
    print "You used a map! The entire grid is revealed for this turn." ;;;
    _log_event "Used map item" ;;;
    display_grid true ;;;
    sleep 5 ;;;
    update (fun g => set_inventory (set_used_map false (inventory g)) g) ;;;
    ret true
  else
    print "You don't have any maps to use!" ;;;
    ret false.

(** The dictionary [get_status()] returns. *)
Record Status : Type := {
  st_player_name : string;
  st_score : Z;
  st_moves : Z;
  st_inventory : Inventory;
  st_elapsed_time : Z;
  st_game_over : bool
}.

(** [get_status()] *)
Definition get_status : Method Status :=
  t <- now ;;
  g <- self ;;
  ret {| st_player_name := player_name g; st_score := score g;
         st_moves := moves g; st_inventory := inventory g;
         st_elapsed_time := delta_seconds t (start_time g);
         st_game_over := game_over g |}.

(** ** Construction *)

(** One [while] loop of [_place_random_items(item_symbol, count)], [placed]
    items being placed already. *)
Fixpoint place_loop (fuel : nat) (item_symbol : string) (count placed : Z)
  : Method unit :=
  if bool_decide (placed < count) then
    match fuel with
    | O => fun _ => Loop
    | S fuel' =>
        g <- self ;;
        x <- lift (randint 0 (grid_size g - 1)) ;;
        y <- lift (randint 0 (grid_size g - 1)) ;;
        c <- or_raise IndexError (grid_get (grid g) (y, x)) ;;
        if String.eqb c " " && negb (bool_decide ((y, x) = player_pos g)) then
          gr <- or_raise IndexError (grid_set (grid g) (y, x) item_symbol) ;;
          update (set_grid gr) ;;;
          place_loop fuel' item_symbol count (placed + 1)
        else place_loop fuel' item_symbol count placed
    end
  else ret tt.

(** [_place_random_items(item_symbol, count)] *)
Definition _place_random_items (fuel : nat) (item_symbol : string) (count : Z)
  : Method unit :=
  place_loop fuel item_symbol count 0.

(** [_place_items()] *)
Definition _place_items (fuel : nat) : Method unit :=
  _place_random_items fuel "T" 3 ;;;
  _place_random_items fuel "X" 4 ;;;
  _place_random_items fuel "K" 2 ;;;
  _place_random_items fuel "S" 2 ;;;
  _place_random_items fuel "M" 1 ;;;
  _place_random_items fuel "E" 1.

(** Runs a method on an object [g] from a function of the environment. *)
Definition on {A} (g : Game) (m : Method A) : M World (A * Game) :=
  fun w => match m (g, w) with
           | Ret a s => Ret (a, fst s) (snd s)
           | Raise e s => Raise e (snd s)
           | Loop => Loop
           | Dynamic => Dynamic
           end.

Definition empty_inventory : Inventory :=
  {| keys := 0; shields := 0; maps := 0; used_map := None |}.

(** [TreasureHuntGame(player_name, grid_size)] *)
Definition __init__ (fuel : nat) (name : string) (gs : Z) : M World Game :=
  t <- now_w ;;
  let gr := replicate (Z.to_nat gs) (replicate (Z.to_nat gs) " ") in
  r <- randint 0 (gs - 1) ;;
  c <- randint 0 (gs - 1) ;;
  ag <- on {| player_name := name; grid_size := gs; score := 0; moves := 0;
              game_over := false; start_time := t; grid := gr;
              player_pos := (r, c); inventory := empty_inventory;
              game_log := [] |}
          (_place_items fuel ;;; _log_event "Game started") ;;
  ret (snd ag).

(** ** Saved games *)

Definition enc_pos (p : Z * Z) : json := JArr [JInt (fst p); JInt (snd p)].

Definition enc_grid (gr : list (list string)) : json :=
  JArr ((fun row => JArr (JStr <$> row)) <$> gr).

Definition enc_inventory (i : Inventory) : json :=
  JObj ([("keys", JInt (keys i)); ("shields", JInt (shields i));
         ("maps", JInt (maps i))]
        ++ match used_map i with
           | Some b => [("used_map", JBool b)]
           | None => []
           end).

(** The dictionary [game_data] of [save_game], [t] being the time of saving. *)
Definition enc_game (g : Game) (t : datetime) : json :=
  JObj [("player_name", JStr (player_name g));
        ("grid_size", JInt (grid_size g));
        ("score", JInt (score g));
        ("moves", JInt (moves g));
        ("player_pos", enc_pos (player_pos g));
        ("grid", enc_grid (grid g));
        ("inventory", enc_inventory (inventory g));
        ("game_log", JArr (JStr <$> game_log g));
        ("saved_at", JStr (ymd_hms t))].

(** [with open(filename, 'w') as f: json.dump(doc, f, indent=4)], on a
    path that can be opened for writing: a path that cannot (a directory
    that does not exist, a read-only place) is not represented. *)
Definition write_json (filename : string) (doc : json) : M World unit :=
  modify (fun w => set_files w (<[filename := Json doc]> (files w))).

(** [with open(filename, 'r') as f: json.load(f)]: [open] raises
    [FileNotFoundError] on a missing file; [json.load] reads the text, which
    raises [UnicodeDecodeError] on bytes that are none, and parses it, which
    raises [JSONDecodeError] on a text that is not JSON. *)
Definition read_json (filename : string) : M World json :=
  fun w => match files w !! filename with
           | None => Raise FileNotFoundError w
           | Some NotText => Raise UnicodeDecodeError w
           | Some NotJson => Raise JSONDecodeError w
           | Some (Json doc) => Ret doc w
           end.

(** [save_game(filename)] *)
Definition save_game (filename : string) : Method bool :=
  g <- self ;;
  t <- now ;;
  lift (write_json filename (enc_game g t)) ;;;
  print ("Game saved to " +:+ filename) ;;;
  ret true.

(** [doc[k]] *)
Definition getitem {S} (doc : json) (k : string) : M S json :=
  match doc with
  | JObj fields => or_raise (KeyError k) (assoc k fields)
  | _ => raise TypeError
  end.

Definition as_str (j : json) : option string :=
  match j with JStr s => Some s | _ => None end.

Definition as_int (j : json) : option Z :=
  match j with JInt z => Some z | _ => None end.

Definition as_bool (j : json) : option bool :=
  match j with JBool b => Some b | _ => None end.

Definition as_list {A} (elt : json -> option A) (j : json) : option (list A) :=
  match j with JArr l => mapM elt l | _ => None end.

Definition as_pos (j : json) : option (Z * Z) :=
  match j with
  | JArr [JInt r; JInt c] => Some (r, c)
  | _ => None
  end.

Definition inventory_keys : list string := ["keys"; "shields"; "maps"; "used_map"].

Definition as_inventory (j : json) : option Inventory :=
  match j with
  | JObj fields =>
      if forallb (fun kv => bool_decide (fst kv ∈ inventory_keys)) fields then
        k ← assoc "keys" fields ≫= as_int;
        s ← assoc "shields" fields ≫= as_int;
        m ← assoc "maps" fields ≫= as_int;
        u ← match assoc "used_map" fields with
            | Some v => Some <$> as_bool v
            | None => Some None
            end;
        Some {| keys := k; shields := s; maps := m; used_map := u |}
      else None
  | _ => None
  end.

Definition load_handled (e : exn) : bool :=
  match e with
  | FileNotFoundError | JSONDecodeError => true
  | _ => false
  end.

(** [TreasureHuntGame.load_game(filename)] *)
Definition load_game (fuel : nat) (filename : string) : M World (option Game) :=
  try_except
    (game_data <- read_json filename ;;
     name <- (j <- getitem game_data "player_name" ;; typed (as_str j)) ;;
     gs <- (j <- getitem game_data "grid_size" ;; typed (as_int j)) ;;
     game <- __init__ fuel name gs ;;
     sc <- (j <- getitem game_data "score" ;; typed (as_int j)) ;;
     let game := set_score sc game in
     mv <- (j <- getitem game_data "moves" ;; typed (as_int j)) ;;
     let game := set_moves mv game in
     pos <- (j <- getitem game_data "player_pos" ;; typed (as_pos j)) ;;
     let game := set_player_pos pos game in
     gr <- (j <- getitem game_data "grid" ;; typed (as_list (as_list as_str) j)) ;;
     let game := set_grid gr game in
     inv <- (j <- getitem game_data "inventory" ;; typed (as_inventory j)) ;;
     let game := set_inventory inv game in
     lg <- (j <- getitem game_data "game_log" ;; typed (as_list as_str j)) ;;
     let game := set_game_log lg game in
     ug <- on game (_log_event ("Game loaded from " +:+ filename) ;;;
                    print ("Game loaded from " +:+ filename)) ;;
     ret (Some (snd ug)))
    load_handled
    (modify (emit (Print ("Could not load game from " +:+ filename))) ;;;
     ret None).

(** ** High scores *)

(** An entry [{"player": ..., "score": ..., "date": ...}] of the leaderboard. *)
Record Entry : Type := {
  player : string;
  points : Z;                (* the key "score" *)
  date : string
}.

Definition enc_entry (e : Entry) : json :=
  JObj [("player", JStr (player e)); ("score", JInt (points e));
        ("date", JStr (date e))].

Definition as_entry (j : json) : option Entry :=
  match j with
  | JObj fields =>
      p ← assoc "player" fields ≫= as_str;
      s ← assoc "score" fields ≫= as_int;
      d ← assoc "date" fields ≫= as_str;
      Some {| player := p; points := s; date := d |}
  | _ => None
  end.

(** [list.sort(key=..., reverse=True)] is a stable sort: elements with equal
    keys keep their order.  [insert_desc] puts [x], which comes before the
    elements of [l] in the list being sorted, in front of the first element
    whose key is not greater. *)
Fixpoint insert_desc {A} (key : A -> Z) (x : A) (l : list A) : list A :=
  match l with
  | [] => [x]
  | y :: l' => if bool_decide (key y > key x) then y :: insert_desc key x l'
               else x :: y :: l'
  end.

Definition sort_desc {A} (key : A -> Z) (l : list A) : list A :=
  foldr (insert_desc key) [] l.

Definition scores_handled (e : exn) : bool :=
  match e with
  | FileNotFoundError | JSONDecodeError => true
  | _ => false
  end.

(** The first statement of [display_high_scores]'s [try]: the leaderboard
    read from the file. *)
Definition read_scores (filename : string) : M World (list Entry) :=
  doc <- read_json filename ;;
  typed (as_list as_entry doc).

(** [[x[k] for x in l]]: the subscripts are taken in the order of the list,
    the first that fails raises. *)
Fixpoint each_item {S} (l : list json) (k : string) : M S (list json) :=
  match l with
  | [] => ret []
  | x :: rest =>
      v <- getitem x k ;;
      vs <- each_item rest k ;;
      ret (v :: vs)
  end.

(** [l.sort(key=lambda x: x["score"], reverse=True)]: the keys of all the
    elements are computed first, in order, then the elements are sorted on
    them.  Keys that are not all integers are compared by Python in ways
    that are not modelled. *)
Definition sort_by_score {S} (l : list json) : M S (list json) :=
  keys <- each_item l "score" ;;
  ks <- typed (mapM as_int keys) ;;
  ret (snd <$> sort_desc fst (zip ks l)).

(** [v == s] for a string [s] *)
Definition eq_str (v : json) (s : string) : bool :=
  match v with
  | JStr s' => String.eqb s' s
  | _ => false
  end.

(** [v == n] for an integer [n]; [True] and [False] are 1 and 0. *)
Definition eq_int (v : json) (n : Z) : bool :=
  match v with
  | JInt z => bool_decide (z = n)
  | JBool b => bool_decide ((if b then 1 else 0) = n)
  | _ => false
  end.

(** [any(e["player"] == player_name and e["score"] == score for e in l)] *)
Fixpoint any_entry {S} (player_name : string) (score : Z) (l : list json)
  : M S bool :=
  match l with
  | [] => ret false
  | score_entry :: rest =>
      p <- getitem score_entry "player" ;;
      hit <- (if eq_str p player_name
              then s <- getitem score_entry "score" ;; ret (eq_int s score)
              else ret false) ;;
      if hit then ret true else any_entry player_name score rest
  end.

(** [check_high_scores(player_name, score, filename)]: [high_scores] is
    what [json.load] returned, of whatever shape; [append] is looked up on
    it, which raises [AttributeError] on anything but a list, before the
    clock is read. *)
Definition check_high_scores (player_name : string) (score : Z)
    (filename : string) : M World bool :=
  high_scores <- try_except (read_json filename) scores_handled
                   (ret (JArr [])) ;;
  match high_scores with
  | JArr high_scores =>
      t <- now_w ;;
      let high_scores :=
        (high_scores ++ [enc_entry {| player := player_name; points := score;
                                      date := ymd_hms t |}])%list in
      high_scores <- sort_by_score high_scores ;;
      let high_scores := take 5 high_scores in
      write_json filename (JArr high_scores) ;;;
      any_entry player_name score high_scores
  | _ => raise AttributeError
  end.

(** [display_high_scores(filename)] *)
Definition display_high_scores (filename : string) : M World unit :=
  try_except
    (high_scores <- read_scores filename ;;
     modify (emit (Print (newline +:+ "===== HIGH SCORES ====="))) ;;;
     for_each (imap (fun i e => (Z.of_nat i + 1, e)) high_scores) (fun ie =>
       modify (emit (Print (pretty (fst ie) +:+ ". " +:+ player (snd ie) +:+ ": "
                            +:+ pretty (points (snd ie)) +:+ " points ("
                            +:+ date (snd ie) +:+ ")")))))
    scores_handled
    (modify (emit (Print (newline +:+ "No high scores yet!")))).

(** The leaderboard a path holds, for the statements about it: none when the
    file is missing, is not JSON or is not a list of entries. *)
Definition leaderboard (filename : string) (w : World) : option (list Entry) :=
  match files w !! filename with
  | Some (Json doc) => as_list as_entry doc
  | _ => None
  end.

(** ** The operations of a game in play *)

Inductive action : Type :=
| Move (direction : string)
| UseMap
| Display (reveal_all : bool)
| Save (filename : string)
| GetStatus.

Definition perform (a : action) : Method unit :=
  match a with
  | Move direction => move_player direction ;;; ret tt
  | UseMap => use_map ;;; ret tt
  | Display reveal_all => display_grid reveal_all
  | Save filename => save_game filename ;;; ret tt
  | GetStatus => get_status ;;; ret tt
  end.

(** Performs the actions of a list in order, as the game loop does with the
    commands of the player. *)
Definition perform_all (acts : list action) : Method unit :=
  for_each acts perform.

(** ** Vocabulary of the statements *)

(** The square next to [pos] in a direction. *)
Definition target (direction : string) (pos : Z * Z) : option (Z * Z) :=
  if String.eqb direction "up" then Some (fst pos - 1, snd pos)
  else if String.eqb direction "down" then Some (fst pos + 1, snd pos)
  else if String.eqb direction "left" then Some (fst pos, snd pos - 1)
  else if String.eqb direction "right" then Some (fst pos, snd pos + 1)
  else None.

Definition in_bounds (gs : Z) (p : Z * Z) : Prop :=
  0 <= fst p < gs /\ 0 <= snd p < gs.

(** The grid has [gs] rows of [gs] cells. *)
Definition square (gs : Z) (gr : list (list string)) : Prop :=
  Z.of_nat (length gr) = gs /\ Forall (fun row => Z.of_nat (length row) = gs) gr.

(** The invariant of the data model: a square grid of the size of the game
    and a player on it. *)
Definition wf (g : Game) : Prop :=
  square (grid_size g) (grid g) /\ in_bounds (grid_size g) (player_pos g).

(** Sorted by score, highest first. *)
Definition sorted_desc (l : list Entry) : Prop :=
  forall (i j : nat) (a b : Entry),
    (i < j)%nat -> l !! i = Some a -> l !! j = Some b -> points a >= points b.

(** The path holds a leaderboard, or holds none (missing or not JSON), which
    [check_high_scores] takes as the empty one. *)
Definition leaderboard_file (filename : string) (w : World) : Prop :=
  files w !! filename = None \/ files w !! filename = Some NotJson
  \/ is_Some (leaderboard filename w).

(** The leaderboard [check_high_scores] starts from. *)
Definition initial_scores (filename : string) (w : World) : list Entry :=
  default [] (leaderboard filename w).

(** Whether the entry appended to [old] is itself among the five kept: the
    entries are tagged, [true] for the new one, and sorted and cut as
    [check_high_scores] does. *)
Definition new_entry_survives (old : list Entry) (new : Entry) : bool :=
  existsb snd
    (take 5 (sort_desc (fun te => points (fst te))
               (((fun e => (e, false)) <$> old) ++ [(new, true)]))).

(** Successive calls of [check_high_scores] on one file. *)
Fixpoint check_all (filename : string) (calls : list (string * Z))
  : M World (list bool) :=
  match calls with
  | [] => ret []
  | (name, sc) :: rest =>
      b <- check_high_scores name sc filename ;;
      bs <- check_all filename rest ;;
      ret (b :: bs)
  end.

(** What every interaction leaves alone. *)
Definition same_frame (g g' : Game) : Prop :=
  player_name g' = player_name g /\ grid_size g' = grid_size g
  /\ moves g' = moves g /\ start_time g' = start_time g
  /\ player_pos g' = player_pos g.

(** The score and the game-over flag a list of actions ends with. *)
Definition score_after (acts : list action) (g : Game) (w : World)
  : option (Z * bool) :=
  (fun s : Game * World => (score s.1, game_over s.1))
    <$> final_state (perform_all acts (g, w)).

(** The entry [check_high_scores] appends, dated by the clock. *)
Definition new_entry (name : string) (sc : Z) (w : World) : Entry :=
  {| player := name; points := sc; date := ymd_hms (clock w (clock_pos w)) |}.

(** The leaderboard [check_high_scores] writes back. *)
Definition kept_scores (old : list Entry) (new : Entry) : list Entry :=
  take 5 (sort_desc points (old ++ [new])).

(** The test [check_high_scores] returns: some kept entry has the name and
    the score of the call. *)
Definition listed (name : string) (sc : Z) (l : list Entry) : bool :=
  existsb (fun e => String.eqb (player e) name && bool_decide (points e = sc)) l.

(** What [load_game] does after the constructor: the fields of the file
    replace those of the fresh game, and the loading is logged. *)
Definition loaded (filename : string) (sc mv : Z) (pos : Z * Z)
    (gr : list (list string)) (inv : Inventory) (lg : list string)
    (t : datetime) (fresh : Game) : Game :=
  set_game_log (lg ++ ["[" +:+ hms t +:+ "] Game loaded from " +:+ filename])
    (set_inventory inv
       (set_grid gr (set_player_pos pos (set_moves mv (set_score sc fresh))))).

(** Every element is at least as high as those after it. *)
Definition descending {A} (key : A -> Z) (l : list A) : Prop :=
  forall (i j : nat) (a b : A),
    (i < j)%nat -> l !! i = Some a -> l !! j = Some b -> key a >= key b.

(** A method that ends, normally or by an exception, with the object it
    started from. *)
Definition keeps_game {A} (m : Method A) : Prop :=
  forall (g : Game) (w : World),
    exists s, final_state (m (g, w)) = Some s /\ s.1 = g.

(** A blank cell of [g] is blank in [g']. *)
Definition keeps_blanks (g g' : Game) : Prop :=
  forall p, grid_get (grid g) p = Some " " -> grid_get (grid g') p = Some " ".

(** The [j]-th pair of draws to come, reduced to the grid as
    [randint(0, gs - 1)] does: [x] is drawn first, then [y]. *)
Definition pair_at (gs : Z) (w : World) (j : nat) : Z * Z :=
  (Z.of_nat (rng w (rng_pos w + 2 * j)%nat) mod gs,
   Z.of_nat (rng w (rng_pos w + 2 * j + 1)%nat) mod gs).

(** The random generator is fair on a grid: every square keeps coming up
    in the pairs of draws. *)
Definition fair (gs : Z) (w : World) : Prop :=
  forall (j : nat) (x y : Z), 0 <= x < gs -> 0 <= y < gs ->
    exists d : nat, pair_at gs w (j + d) = (x, y).

(** While items are placed: a well-formed game of size [gs] whose squares
    are blank except, at most, those of [filled]. *)
Definition placing (gs : Z) (filled : list (Z * Z)) (g : Game) : Prop :=
  grid_size g = gs /\ wf g
  /\ forall p, in_bounds gs p -> p ∉ filled -> grid_get (grid g) p = Some " ".

(** The squares of a grid of size [n]. *)
Definition squares (n : Z) : list (Z * Z) :=
  y ← seqZ 0 n; x ← seqZ 0 n; [(y, x)].

(** The sixteen squares in the corner of a grid of size 4 or more. *)
Definition corner : list (Z * Z) := squares 4.

(** While items are placed, seen from the squares that hold one: distinct
    squares of the grid, none the player's, none blank. *)
Definition holding (gs : Z) (filled : list (Z * Z)) (g : Game) : Prop :=
  NoDup filled
  /\ forall q, q ∈ filled ->
       in_bounds gs q /\ q <> player_pos g
       /\ exists c, grid_get (grid g) q = Some c /\ c <> " ".

(** Where [save_game] leaves the files. *)
Definition files_after_save (filename : string) (g : Game) (w : World)
  : option (gmap string file) :=
  (fun s : Game * World => files s.2) <$> final_state (save_game filename (g, w)).

(** ** Sample data *)

Definition sample_clock (n : nat) : datetime :=
  {| micros := Z.of_nat n * 1000000; hms := "12:00:00";
     ymd_hms := "2025-01-01 12:00:00" |}.

(** Draws that walk through the squares of a 5 x 5 grid row by row. *)
Definition sample_rng (n : nat) : nat :=
  if Nat.even n then ((n / 2) mod 5)%nat else ((n / 2 / 5) mod 5)%nat.

Definition sample_world : World :=
  {| files := ∅; rng := sample_rng; rng_pos := 0; clock := sample_clock;
     clock_pos := 0; console := [] |}.

Definition sample_grid : list (list string) :=
  [[" "; "X"; "X"; "T"; " "];
   ["K"; " "; " "; " "; "E"];
   [" "; " "; " "; " "; " "];
   [" "; " "; " "; " "; " "];
   [" "; " "; " "; " "; " "]].

(** A player in the corner with one shield and no key. *)
Definition sample_game : Game :=
  {| player_name := "Ann"; grid_size := 5; score := 0; moves := 0;
     game_over := false; start_time := sample_clock 0; grid := sample_grid;
     player_pos := (0, 0);
     inventory := {| keys := 0; shields := 1; maps := 0; used_map := None |};
     game_log := [] |}.

(** The same game with the player next to the exit. *)
Definition at_exit (k : Z) : Game :=
  set_inventory (set_keys k (inventory sample_game))
    (set_player_pos (1, 3) sample_game).

(** The same game with the player next to the treasure. *)
Definition near_treasure : Game := set_player_pos (0, 2) sample_game.

(** A finished game saved in the sample world. *)
Definition saved_world : World :=
  match save_game "saved_game.json" (set_game_over true sample_game, sample_world) with
  | Ret _ s => s.2
  | _ => sample_world
  end.

(** The game and the world after loading that file. *)
Definition reloaded : Game :=
  match load_game 20 "saved_game.json" saved_world with
  | Ret (Some g) _ => g
  | _ => sample_game
  end.

Definition reloaded_world : World :=
  match load_game 20 "saved_game.json" saved_world with
  | Ret _ w => w
  | _ => saved_world
  end.

Definition sample_board : list Entry :=
  [{| player := "Bob"; points := 500; date := "2024-12-01 10:00:00" |};
   {| player := "Cid"; points := 400; date := "2024-12-02 10:00:00" |};
   {| player := "Dee"; points := 300; date := "2024-12-03 10:00:00" |};
   {| player := "Eve"; points := 200; date := "2024-12-04 10:00:00" |};
   {| player := "Ann"; points := 100; date := "2024-12-05 10:00:00" |}].

Definition scores_world : World :=
  set_files sample_world
    {[ "high_scores.json" := Json (JArr (enc_entry <$> sample_board)) ]}.

(** A leaderboard edited by hand: six entries out of order, then an object
    without score. *)
Definition corrupt_board : list json :=
  [enc_entry {| player := "Fay"; points := 50; date := "2024-12-06 10:00:00" |}]
  ++ (enc_entry <$> sample_board) ++ [JObj [("player", JStr "Zed")]].

Definition corrupt_world : World :=
  set_files sample_world
    {[ "high_scores.json" := Json (JArr corrupt_board) ]}.

(** A saved game and a leaderboard overwritten with bytes that are no text. *)
Definition binary_world : World :=
  set_files sample_world
    {[ "saved_game.json" := NotText; "high_scores.json" := NotText ]}.

(** ** Vocabulary of the further statements *)

(** A method that ends, normally or by an exception, with an object related
    by [R] to the one it started from. *)
Definition ends_with (R : Game -> Game -> Prop) {A} (m : Method A) : Prop :=
  forall (g : Game) (w : World),
    exists s, final_state (m (g, w)) = Some s /\ R g s.1.

(** What the operations of a game never undo: its name, size and start time
    stay; a finished game stays finished; keys and moves do not decrease;
    the log only grows at its end. *)
Definition advances (g g' : Game) : Prop :=
  player_name g' = player_name g /\ grid_size g' = grid_size g
  /\ start_time g' = start_time g
  /\ (game_over g = true -> game_over g' = true)
  /\ keys (inventory g) <= keys (inventory g')
  /\ moves g <= moves g'
  /\ game_log g `prefix_of` game_log g'.

(** The direction that undoes a move. *)
Definition opposite (direction : string) : string :=
  if String.eqb direction "up" then "down"
  else if String.eqb direction "down" then "up"
  else if String.eqb direction "left" then "right"
  else if String.eqb direction "right" then "left"
  else direction.

(** Successive calls of [move_player], with their results. *)
Fixpoint move_all (directions : list string) : Method (list bool) :=
  match directions with
  | [] => ret []
  | d :: rest =>
      b <- move_player d ;;
      bs <- move_all rest ;;
      ret (b :: bs)
  end.

(** How many calls succeeded. *)
Definition successes (bs : list bool) : Z :=
  Z.of_nat (length (filter (fun b => b = true) bs)).

(** Exactly [n] squares of the grid of [g] hold the symbol [sym]: [l] lists
    them, each once, and nothing else. *)
Definition holds_exactly (g : Game) (sym : string) (n : nat) : Prop :=
  exists l : list (Z * Z),
    NoDup l /\ length l = n
    /\ forall p, p ∈ l <->
         in_bounds (grid_size g) p /\ grid_get (grid g) p = Some sym.

(** While items are placed, seen from the items: [items] lists the squares
    that hold one, with what they hold; the other squares are blank. *)
Definition stocked (gs : Z) (items : list ((Z * Z) * string)) (g : Game)
  : Prop :=
  NoDup (items.*1)
  /\ (forall q s, (q, s) ∈ items ->
       in_bounds gs q /\ q <> player_pos g
       /\ grid_get (grid g) q = Some s /\ s <> " ")
  /\ (forall p, in_bounds gs p -> p ∉ items.*1 ->
       grid_get (grid g) p = Some " ").

(** The game and the world the constructor returns in the sample world. *)
Definition built : Game :=
  match __init__ 20 "Ann" 5 sample_world with
  | Ret g _ => g
  | _ => sample_game
  end.

Definition built_world : World :=
  match __init__ 20 "Ann" 5 sample_world with
  | Ret _ w => w
  | _ => sample_world
  end.

(** An outcome of the construction that is no exception: a well-formed
    game of size [gs], or a loop still running. *)
Definition builds {A} (gs : Z) (o : outcome (Game * World) A) : Prop :=
  match o with
  | Ret _ s => wf s.1 /\ grid_size s.1 = gs
  | Loop => True
  | _ => False
  end.

(** The line [display_high_scores] prints for the entry of a rank. *)
Definition score_line (rank : Z) (e : Entry) : string :=
  pretty rank +:+ ". " +:+ player e +:+ ": " +:+ pretty (points e)
  +:+ " points (" +:+ date e +:+ ")".

(** An outcome on the environment, put back on the object [g]: what a
    method that leaves [g] alone ends with. *)
Definition with_game {A} (g : Game) (o : outcome World A)
  : outcome (Game * World) A :=
  match o with
  | Ret a w => Ret a (g, w)
  | Raise e w => Raise e (g, w)
  | Loop => Loop
  | Dynamic => Dynamic
  end.

(** [m1] run on [g1] and [m2] run on [g2] leave their object alone and do
    the same to the environment, whatever it is. *)
Definition shows_same (g1 g2 : Game) {A} (m1 m2 : Method A) : Prop :=
  forall w, exists o : outcome World A,
    m1 (g1, w) = with_game g1 o /\ m2 (g2, w) = with_game g2 o.

(** The squares of the grid at most one row and one column away from
    [pos]. *)
Definition adjacent (gs : Z) (pos p : Z * Z) : Prop :=
  in_bounds gs p
  /\ Z.abs (fst p - fst pos) <= 1 /\ Z.abs (snd p - snd pos) <= 1.

(** Two games that differ at most in the cells away from the player, in the
    log, in the start time and in the game-over flag. *)
Definition same_view (g1 g2 : Game) : Prop :=
  player_name g1 = player_name g2 /\ grid_size g1 = grid_size g2
  /\ score g1 = score g2 /\ moves g1 = moves g2
  /\ inventory g1 = inventory g2 /\ player_pos g1 = player_pos g2
  /\ forall p, adjacent (grid_size g1) (player_pos g1) p ->
       grid_get (grid g1) p = grid_get (grid g2) p.

(** The object while [use_map] shows the grid: a map less, the flag
    "used_map" raised, the use logged at time [t]. *)
Definition using_map (g : Game) (t : datetime) : Game :=
  set_game_log (game_log g ++ ["[" +:+ hms t +:+ "] Used map item"])
    (set_inventory
       (set_used_map true (set_maps (maps (inventory g) - 1) (inventory g)))
       g).

(** The sample game with one map. *)
Definition mapped_game : Game :=
  set_inventory (set_maps 1 (inventory sample_game)) sample_game.

(** An action that writes a file. *)
Definition writes_file (a : action) : bool :=
  match a with
  | Save _ => true
  | _ => false
  end.

(** The sample game, finished, with other items away from the player. *)
Definition other_game : Game :=
  set_game_over true
    (set_grid [[" "; "X"; " "; "M"; "E"];
               ["K"; " "; "T"; "T"; "X"];
               ["S"; "X"; " "; "K"; " "];
               [" "; " "; "S"; " "; "X"];
               ["T"; " "; " "; " "; " "]] sample_game).

(** A game whose grid has no row, as a damaged file gives, with one map. *)
Definition torn_game : Game :=
  set_grid [] (set_inventory (set_maps 1 (inventory sample_game)) sample_game).

(** The state [use_map] leaves that game in. *)
Definition interrupted : Game * World :=
  match use_map (torn_game, sample_world) with
  | Raise _ s => s
  | _ => (torn_game, sample_world)
  end.

(** * Properties *)

(** ** Python indexing *)

Lemma py_index_lt {A} (l : list A) (i : Z) (k : nat) :
  py_index l i = Some k -> (k < length l)%nat.
Proof.
  unfold py_index. intros H. repeat case_bool_decide; simplify_eq; lia.
Qed.

Lemma py_index_same_length {A} (l l' : list A) (i : Z) :
  length l = length l' -> py_index l i = py_index l' i.
Proof. unfold py_index. intros ->. reflexivity. Qed.

Lemma py_index_in_range {A} (l : list A) (i : Z) :
  0 <= i < Z.of_nat (length l) -> py_index l i = Some (Z.to_nat i).
Proof. unfold py_index. intros H. rewrite bool_decide_eq_true_2; done. Qed.

Lemma py_get_is_Some {A} (l : list A) (i : Z) (x : A) :
  py_get l i = Some x -> exists k, py_index l i = Some k /\ l !! k = Some x.
Proof.
  unfold py_get. destruct (py_index l i) as [k|]; [|done]. eauto.
Qed.

Lemma py_set_get {A} (l l' : list A) (i : Z) (x : A) :
  py_set l i x = Some l' -> py_get l' i = Some x /\ length l' = length l.
Proof.
  unfold py_set, py_get. destruct (py_index l i) as [k|] eqn:Hk; [|done].
  intros [= <-]. rewrite length_insert. split; [|done].
  rewrite (py_index_same_length _ l) by apply length_insert.
  rewrite Hk. apply list_lookup_insert_eq. eapply py_index_lt, Hk.
Qed.

(** Writing a blank keeps the blanks of a row. *)
Lemma py_set_keeps_blank (row row' : list string) (i j : Z) :
  py_set row i " " = Some row' -> py_get row j = Some " " ->
  py_get row' j = Some " ".
Proof.
  unfold py_set, py_get. destruct (py_index row i) as [k|] eqn:Hk; [|done].
  intros [= <-]. rewrite (py_index_same_length (<[k:=" "]> row) row)
    by apply length_insert.
  destruct (py_index row j) as [k'|] eqn:Hk'; [|done]. intros Hj.
  destruct (decide (k = k')) as [->|Hne].
  - apply list_lookup_insert_eq. eapply py_index_lt, Hk'.
  - rewrite list_lookup_insert_ne; done.
Qed.

(** ** The grid *)

Lemma grid_get_set (gr : list (list string)) (p : Z * Z) (c v : string) :
  grid_get gr p = Some c -> is_Some (grid_set gr p v).
Proof.
  unfold grid_get, grid_set. intros H.
  destruct (py_get gr p.1) as [row|] eqn:Hrow; [|done].
  apply py_get_is_Some in Hrow as (k & -> & ->).
  apply py_get_is_Some in H as (k' & Hk' & _).
  unfold py_set. rewrite Hk'. eauto.
Qed.

Lemma grid_set_length (gr gr' : list (list string)) (p : Z * Z) (v : string) :
  grid_set gr p v = Some gr' -> length gr' = length gr.
Proof.
  unfold grid_set. intros H.
  destruct (py_index gr p.1) as [k|]; [|done].
  destruct (gr !! k) as [row|]; [|done].
  destruct (py_set row p.2 v) as [row'|]; [|done].
  injection H as <-. apply length_insert.
Qed.

Lemma grid_set_get (gr gr' : list (list string)) (p : Z * Z) (v : string) :
  grid_set gr p v = Some gr' -> grid_get gr' p = Some v.
Proof.
  intros H. pose proof (grid_set_length _ _ _ _ H) as Hlen.
  unfold grid_set in H. unfold grid_get, py_get at 1.
  rewrite (py_index_same_length gr' gr) by done.
  destruct (py_index gr p.1) as [k|] eqn:Hk; [|done].
  destruct (gr !! k) as [row|] eqn:Hrow; [|done].
  destruct (py_set row p.2 v) as [row'|] eqn:Hset; [|done].
  injection H as <-.
  rewrite list_lookup_insert_eq by (eapply py_index_lt, Hk).
  eapply py_set_get, Hset.
Qed.

(** Clearing a cell keeps every blank cell blank. *)
Lemma grid_set_keeps_blank (gr gr' : list (list string)) (p q : Z * Z) :
  grid_set gr q " " = Some gr' -> grid_get gr p = Some " " ->
  grid_get gr' p = Some " ".
Proof.
  intros H. pose proof (grid_set_length _ _ _ _ H) as Hlen.
  unfold grid_set in H. unfold grid_get, py_get at 1 3.
  rewrite (py_index_same_length gr' gr) by done.
  destruct (py_index gr q.1) as [k|] eqn:Hk; [|done].
  destruct (gr !! k) as [row|] eqn:Hrow; [|done].
  destruct (py_set row q.2 " ") as [row'|] eqn:Hset; [|done].
  injection H as <-.
  destruct (py_index gr p.1) as [k'|] eqn:Hk'; [|done].
  destruct (decide (k = k')) as [<-|Hne].
  - rewrite list_lookup_insert_eq by (eapply py_index_lt, Hk).
    rewrite Hrow. eapply py_set_keeps_blank, Hset.
  - rewrite list_lookup_insert_ne; done.
Qed.

Lemma grid_set_square (gs : Z) (gr gr' : list (list string)) (p : Z * Z)
    (v : string) :
  square gs gr -> grid_set gr p v = Some gr' -> square gs gr'.
Proof.
  intros [Hlen Hrows] H. split.
  - rewrite (grid_set_length _ _ _ _ H). done.
  - unfold grid_set in H.
    destruct (py_index gr p.1) as [k|] eqn:Hk; [|done].
    destruct (gr !! k) as [row|] eqn:Hrow; [|done].
    destruct (py_set row p.2 v) as [row'|] eqn:Hset; [|done].
    injection H as <-. apply Forall_insert; [done|]. simpl.
    apply py_set_get in Hset as [_ ->].
    apply (Forall_lookup_1 _ _ _ _ Hrows Hrow).
Qed.

Lemma square_get (gs : Z) (gr : list (list string)) (p : Z * Z) :
  square gs gr -> in_bounds gs p -> is_Some (grid_get gr p).
Proof.
  intros [Hlen Hrows] [Hr Hc]. unfold grid_get, py_get.
  rewrite py_index_in_range by lia.
  destruct (lookup_lt_is_Some_2 gr (Z.to_nat p.1)) as [row Hrow]; [lia|].
  rewrite Hrow. pose proof (Forall_lookup_1 _ _ _ _ Hrows Hrow) as Hl.
  simpl in Hl. rewrite py_index_in_range by lia.
  apply lookup_lt_is_Some_2. lia.
Qed.

(** ** Item interaction *)

Ltac run_method :=
  unfold _handle_item_interaction, clear_cell, _log_event, update, print,
    sleep, now, self, modify, bind, or_raise, ret, raise; simpl.

(** An interaction on a cell that exists returns; the grid is as before or
    has that cell cleared. *)
Lemma handle_returns (item : string) (p : Z * Z) (g : Game) (w : World) :
  is_Some (grid_set (grid g) p " ") ->
  exists g' w', _handle_item_interaction item p (g, w) = Ret tt (g', w')
    /\ same_frame g g'
    /\ (grid g' = grid g \/ grid_set (grid g) p " " = Some (grid g')).
Proof.
  intros [gr Hgr]. unfold same_frame. run_method.
  repeat (match goal with
          | |- context [String.eqb item ?s] => destruct (String.eqb item s)
          | |- context [bool_decide ?P] => destruct (bool_decide P)
          end; simpl);
    rewrite ?Hgr; simpl; eauto 20.
Qed.

Lemma handle_treasure (p : Z * Z) (g : Game) (w : World) :
  is_Some (grid_set (grid g) p " ") ->
  exists g' w', _handle_item_interaction "T" p (g, w) = Ret tt (g', w')
    /\ score g' = score g + 100 /\ inventory g' = inventory g
    /\ game_over g' = game_over g
    /\ grid_set (grid g) p " " = Some (grid g').
Proof. intros [gr Hgr]. run_method. rewrite Hgr. simpl. eauto 10. Qed.

Lemma handle_trap_shielded (p : Z * Z) (g : Game) (w : World) :
  is_Some (grid_set (grid g) p " ") -> shields (inventory g) >= 1 ->
  exists g' w', _handle_item_interaction "X" p (g, w) = Ret tt (g', w')
    /\ score g' = score g
    /\ inventory g' = set_shields (shields (inventory g) - 1) (inventory g)
    /\ game_over g' = game_over g
    /\ grid_set (grid g) p " " = Some (grid g').
Proof.
  intros [gr Hgr] Hs. run_method.
  rewrite bool_decide_eq_true_2 by lia. simpl. rewrite Hgr. simpl. eauto 10.
Qed.

Lemma handle_trap_bare (p : Z * Z) (g : Game) (w : World) :
  is_Some (grid_set (grid g) p " ") -> shields (inventory g) <= 0 ->
  exists g' w', _handle_item_interaction "X" p (g, w) = Ret tt (g', w')
    /\ score g' = score g - 50 /\ inventory g' = inventory g
    /\ game_over g' = game_over g
    /\ grid_set (grid g) p " " = Some (grid g').
Proof.
  intros [gr Hgr] Hs. run_method.
  rewrite bool_decide_eq_false_2 by lia. simpl. rewrite Hgr. simpl. eauto 10.
Qed.

Lemma handle_exit_locked (p : Z * Z) (g : Game) (w : World) :
  keys (inventory g) < 1 ->
  exists g' w', _handle_item_interaction "E" p (g, w) = Ret tt (g', w')
    /\ score g' = score g /\ inventory g' = inventory g
    /\ game_over g' = game_over g /\ grid g' = grid g /\ same_frame g g'.
Proof.
  intros Hk. unfold same_frame. run_method.
  rewrite bool_decide_eq_false_2 by lia. simpl. eauto 15.
Qed.

Lemma handle_exit_open (p : Z * Z) (g : Game) (w : World) :
  keys (inventory g) >= 1 ->
  exists g' w', _handle_item_interaction "E" p (g, w) = Ret tt (g', w')
    /\ score g' = score g + 200 /\ inventory g' = inventory g
    /\ game_over g' = true /\ grid g' = grid g /\ same_frame g g'.
Proof.
  intros Hk. unfold same_frame. run_method.
  rewrite bool_decide_eq_true_2 by lia. simpl. eauto 15.
Qed.

Lemma handle_blank (p : Z * Z) (g : Game) (w : World) :
  _handle_item_interaction " " p (g, w) = Ret tt (g, w).
Proof. reflexivity. Qed.

(** ** Moving *)

(** A move whose guard holds, onto a cell that exists: the interaction runs on
    the object with one more move, then the position and the log follow. *)
Lemma move_player_steps (d : string) (g : Game) (w : World) (p : Z * Z)
    (item : string) :
  step d (grid_size g) (player_pos g) = Some p ->
  grid_get (grid g) p = Some item ->
  move_player d (g, w)
  = match _handle_item_interaction item p (set_moves (moves g + 1) g, w) with
    | Ret _ s =>
        Ret true
          (set_game_log
             (game_log s.1 ++
              ["[" +:+ hms (clock s.2 (clock_pos s.2)) +:+ "] Moved " +:+ d
               +:+ " to position " +:+ show_pos p])
             (set_player_pos p s.1),
           next_tick s.2)
    | Raise e s => Raise e s
    | Loop => Loop
    | Dynamic => Dynamic
    end.
Proof.
  intros Hstep Hitem. unfold move_player, bind at 1, self at 1. simpl.
  rewrite Hstep. unfold bind at 1, update at 1, modify, bind at 1, self at 1.
  simpl. unfold bind at 1. simpl. rewrite Hitem. simpl.
  unfold bind at 1.
  destruct (_handle_item_interaction item p (set_moves (moves g + 1) g, w))
    as [[] [g1 w1]|e s| |]; reflexivity.
Qed.

Lemma move_player_invalid (d : string) (g : Game) (w : World) :
  step d (grid_size g) (player_pos g) = None ->
  move_player d (g, w)
  = Ret false
      (set_game_log
         (game_log g ++
          ["[" +:+ hms (clock w (clock_pos w)) +:+ "] Invalid move: " +:+ d]) g,
       next_tick (emit (Print "You can't move in that direction!") w)).
Proof.
  intros H. unfold move_player, bind, self. simpl. rewrite H. reflexivity.
Qed.

(** On the grid, the guards of [move_player] are the bounds of the grid. *)
Lemma step_target (d : string) (gs : Z) (pos : Z * Z) :
  in_bounds gs pos ->
  step d gs pos
  = match target d pos with
    | Some p => if bool_decide (in_bounds gs p) then Some p else None
    | None => None
    end.
Proof.
  intros [Hr Hc]. unfold step, target, in_bounds.
  destruct (String.eqb_spec d "up") as [->|_]; simpl.
  { repeat case_bool_decide; simpl in *; try done; exfalso; lia. }
  destruct (String.eqb_spec d "down") as [->|_]; simpl.
  { repeat case_bool_decide; simpl in *; try done; exfalso; lia. }
  destruct (String.eqb_spec d "left") as [->|_]; simpl.
  { repeat case_bool_decide; simpl in *; try done; exfalso; lia. }
  destruct (String.eqb_spec d "right") as [->|_]; simpl; [|done].
  repeat case_bool_decide; simpl in *; try done; exfalso; lia.
Qed.

Lemma step_in_bounds (d : string) (gs : Z) (pos p : Z * Z) :
  in_bounds gs pos -> step d gs pos = Some p -> in_bounds gs p.
Proof.
  intros Hpos. rewrite step_target by done.
  destruct (target d pos) as [q|]; [|done].
  case_bool_decide; [|done]. by intros [= <-].
Qed.

(** A move onto a cell that exists returns [True], counts one move and puts
    the player there; the rest is what the interaction did. *)
Lemma move_player_returns (d : string) (g : Game) (w : World) (p : Z * Z)
    (item : string) (g1 : Game) (w1 : World) :
  step d (grid_size g) (player_pos g) = Some p ->
  grid_get (grid g) p = Some item ->
  _handle_item_interaction item p (set_moves (moves g + 1) g, w)
  = Ret tt (g1, w1) ->
  same_frame (set_moves (moves g + 1) g) g1 ->
  exists g' w', move_player d (g, w) = Ret true (g', w')
    /\ player_pos g' = p /\ moves g' = moves g + 1
    /\ score g' = score g1 /\ inventory g' = inventory g1
    /\ game_over g' = game_over g1 /\ grid g' = grid g1
    /\ grid_size g' = grid_size g.
Proof.
  intros Hstep Hitem Hrun (_ & Hgs & Hmv & _ & _).
  rewrite (move_player_steps d g w p item Hstep Hitem), Hrun. simpl in *.
  eauto 12.
Qed.

(** One step onto a trap. *)
Lemma move_onto_trap (d : string) (g : Game) (w : World) (p : Z * Z) :
  step d (grid_size g) (player_pos g) = Some p ->
  grid_get (grid g) p = Some "X" ->
  exists g' w', move_player d (g, w) = Ret true (g', w')
    /\ grid_get (grid g') p = Some " "
    /\ grid_size g' = grid_size g /\ player_pos g' = p
    /\ (shields (inventory g) >= 1 ->
        shields (inventory g') = shields (inventory g) - 1
        /\ score g' = score g)
    /\ (shields (inventory g) = 0 ->
        shields (inventory g') = 0 /\ score g' = score g - 50).
Proof.
  intros Hstep Hitem.
  pose proof (grid_get_set _ _ _ " " Hitem) as Hset.
  destruct (decide (shields (inventory g) >= 1)) as [Hs|Hs].
  - destruct (handle_trap_shielded p (set_moves (moves g + 1) g) w Hset Hs)
      as (g1 & w1 & Hrun & Hsc & Hinv & _ & Hgr).
    destruct (handle_returns "X" p (set_moves (moves g + 1) g) w Hset)
      as (g1' & w1' & Hrun' & Hframe & _).
    rewrite Hrun in Hrun'. injection Hrun' as <- <-.
    destruct (move_player_returns d g w p "X" g1 w1 Hstep Hitem Hrun Hframe)
      as (g' & w' & Hmove & Hpos & _ & Hsc' & Hinv' & _ & Hgr' & Hgs').
    exists g', w'. split; [done|]. rewrite Hgr', Hsc', Hinv', Hsc, Hinv.
    simpl in *. repeat split; try done; try lia.
    eapply grid_set_get, Hgr.
  - destruct (handle_trap_bare p (set_moves (moves g + 1) g) w Hset)
      as (g1 & w1 & Hrun & Hsc & Hinv & _ & Hgr); [simpl; lia|].
    destruct (handle_returns "X" p (set_moves (moves g + 1) g) w Hset)
      as (g1' & w1' & Hrun' & Hframe & _).
    rewrite Hrun in Hrun'. injection Hrun' as <- <-.
    destruct (move_player_returns d g w p "X" g1 w1 Hstep Hitem Hrun Hframe)
      as (g' & w' & Hmove & Hpos & _ & Hsc' & Hinv' & _ & Hgr' & Hgs').
    exists g', w'. split; [done|]. rewrite Hgr', Hsc', Hinv', Hsc, Hinv.
    simpl in *. repeat split; try done; try lia.
    eapply grid_set_get, Hgr.
Qed.

(** ** The claims on moves *)

(** C2: a move whose target square lies outside the grid returns [False] and
    leaves the position, the score, the moves counter, the grid and the
    inventory (and the game-over flag) as they were; the event log gains
    exactly one entry. *)
Theorem move_out_of_bounds (d : string) (g : Game) (w : World) (p : Z * Z) :
  in_bounds (grid_size g) (player_pos g) ->
  target d (player_pos g) = Some p ->
  ~ in_bounds (grid_size g) p ->
  exists g' w' entry,
    move_player d (g, w) = Ret false (g', w')
    /\ player_pos g' = player_pos g /\ score g' = score g
    /\ moves g' = moves g /\ grid g' = grid g
    /\ inventory g' = inventory g /\ game_over g' = game_over g
    /\ game_log g' = (game_log g ++ [entry])%list.
Proof.
  intros Hpos Htarget Hout.
  rewrite move_player_invalid.
  - do 3 eexists. repeat split; reflexivity.
  - rewrite step_target, Htarget by done.
    rewrite bool_decide_eq_false_2; done.
Qed.

Lemma move_out_of_bounds_witness :
  exists g' w' entry,
    move_player "up" (sample_game, sample_world) = Ret false (g', w')
    /\ player_pos g' = player_pos sample_game /\ score g' = score sample_game
    /\ moves g' = moves sample_game /\ grid g' = grid sample_game
    /\ inventory g' = inventory sample_game
    /\ game_over g' = game_over sample_game
    /\ game_log g' = (game_log sample_game ++ [entry])%list.
Proof.
  apply (move_out_of_bounds "up" sample_game sample_world (-1, 0)).
  - unfold in_bounds. simpl. lia.
  - reflexivity.
  - unfold in_bounds. simpl. lia.
Defined.

(** C3: a step onto a trap with at least one shield takes one shield and
    leaves the score; with no shield it takes 50 points; the trap cell is
    blank afterwards in both cases.  With one shield, a first trap costs
    nothing and leaves no shield, and a second trap then costs 50 points. *)
Theorem trap_hit (d : string) (g : Game) (w : World) (p : Z * Z) :
  step d (grid_size g) (player_pos g) = Some p ->
  grid_get (grid g) p = Some "X" ->
  exists g' w', move_player d (g, w) = Ret true (g', w')
    /\ grid_get (grid g') p = Some " "
    /\ (shields (inventory g) >= 1 ->
        shields (inventory g') = shields (inventory g) - 1
        /\ score g' = score g)
    /\ (shields (inventory g) = 0 -> score g' = score g - 50)
    /\ (shields (inventory g) = 1 ->
        shields (inventory g') = 0 /\ score g' = score g
        /\ forall (d2 : string) (p2 : Z * Z),
             step d2 (grid_size g') (player_pos g') = Some p2 ->
             grid_get (grid g') p2 = Some "X" ->
             exists g'' w'', move_player d2 (g', w') = Ret true (g'', w'')
               /\ grid_get (grid g'') p2 = Some " "
               /\ score g'' = score g - 50).
Proof.
  intros Hstep Hitem.
  destruct (move_onto_trap d g w p Hstep Hitem)
    as (g' & w' & Hmove & Hblank & _ & _ & Hshield & Hbare).
  exists g', w'. split; [done|]. split; [done|]. split; [exact Hshield|].
  split; [intros H0; apply Hbare, H0|].
  intros H1. destruct Hshield as [Hs Hsc]; [lia|].
  split; [lia|]. split; [done|].
  intros d2 p2 Hstep2 Hitem2.
  destruct (move_onto_trap d2 g' w' p2 Hstep2 Hitem2)
    as (g'' & w'' & Hmove2 & Hblank2 & _ & _ & _ & Hbare2).
  exists g'', w''. split; [done|]. split; [done|].
  destruct Hbare2 as [_ ->]; lia.
Qed.

Lemma trap_hit_witness :
  exists g' w', move_player "right" (sample_game, sample_world) = Ret true (g', w')
    /\ grid_get (grid g') (0, 1) = Some " "
    /\ (shields (inventory sample_game) >= 1 ->
        shields (inventory g') = shields (inventory sample_game) - 1
        /\ score g' = score sample_game)
    /\ (shields (inventory sample_game) = 0 -> score g' = score sample_game - 50)
    /\ (shields (inventory sample_game) = 1 ->
        shields (inventory g') = 0 /\ score g' = score sample_game
        /\ forall (d2 : string) (p2 : Z * Z),
             step d2 (grid_size g') (player_pos g') = Some p2 ->
             grid_get (grid g') p2 = Some "X" ->
             exists g'' w'', move_player d2 (g', w') = Ret true (g'', w'')
               /\ grid_get (grid g'') p2 = Some " "
               /\ score g'' = score sample_game - 50).
Proof.
  apply (trap_hit "right" sample_game sample_world (0, 1)); reflexivity.
Defined.

(** C1, as the code has it: a step onto the Exit cell succeeds, counts one
    move, puts the player on the cell and leaves the cell in place; with no
    key the score and the game-over flag stay as they were; with a key the
    flag is set and 200 points are added, at every such step: neither the
    flag nor an earlier visit is consulted. *)
Theorem exit_step (d : string) (g : Game) (w : World) (p : Z * Z) :
  step d (grid_size g) (player_pos g) = Some p ->
  grid_get (grid g) p = Some "E" ->
  exists g' w', move_player d (g, w) = Ret true (g', w')
    /\ player_pos g' = p /\ moves g' = moves g + 1
    /\ grid_get (grid g') p = Some "E"
    /\ inventory g' = inventory g
    /\ (keys (inventory g) = 0 ->
        game_over g' = game_over g /\ score g' = score g)
    /\ (keys (inventory g) >= 1 ->
        game_over g' = true /\ score g' = score g + 200).
Proof.
  intros Hstep Hitem.
  destruct (decide (keys (inventory g) >= 1)) as [Hk|Hk].
  - destruct (handle_exit_open p (set_moves (moves g + 1) g) w Hk)
      as (g1 & w1 & Hrun & Hsc & Hinv & Hover & Hgr & Hframe).
    destruct (move_player_returns d g w p "E" g1 w1 Hstep Hitem Hrun Hframe)
      as (g' & w' & Hmove & Hpos & Hmv & Hsc' & Hinv' & Hover' & Hgr' & _).
    exists g', w'. rewrite Hgr', Hgr, Hinv', Hinv, Hsc', Hsc, Hover', Hover.
    simpl. repeat split; try done; lia.
  - destruct (handle_exit_locked p (set_moves (moves g + 1) g) w)
      as (g1 & w1 & Hrun & Hsc & Hinv & Hover & Hgr & Hframe); [simpl; lia|].
    destruct (move_player_returns d g w p "E" g1 w1 Hstep Hitem Hrun Hframe)
      as (g' & w' & Hmove & Hpos & Hmv & Hsc' & Hinv' & Hover' & Hgr' & _).
    exists g', w'. rewrite Hgr', Hgr, Hinv', Hinv, Hsc', Hsc, Hover', Hover.
    simpl. repeat split; try done; lia.
Qed.

Lemma exit_step_witness :
  exists g' w', move_player "right" (at_exit 1, sample_world) = Ret true (g', w')
    /\ player_pos g' = (1, 4) /\ moves g' = moves (at_exit 1) + 1
    /\ grid_get (grid g') (1, 4) = Some "E"
    /\ inventory g' = inventory (at_exit 1)
    /\ (keys (inventory (at_exit 1)) = 0 ->
        game_over g' = game_over (at_exit 1) /\ score g' = score (at_exit 1))
    /\ (keys (inventory (at_exit 1)) >= 1 ->
        game_over g' = true /\ score g' = score (at_exit 1) + 200).
Proof.
  apply (exit_step "right" (at_exit 1) sample_world (1, 4)); reflexivity.
Defined.

(** C1 as stated fails: with a key, the player steps onto the Exit (200
    points, game over), steps back and steps onto it again, and the score is
    400. *)
Lemma exit_pays_twice :
  score_after [Move "right"] (at_exit 1) sample_world = Some (200, true)
  /\ score_after [Move "right"; Move "left"; Move "right"] (at_exit 1)
       sample_world = Some (400, true).
Proof. split; vm_compute; reflexivity. Qed.

(** ** Rendering *)

Lemma keeps_game_ret {A} (a : A) : keeps_game (ret a).
Proof. intros g w. exists (g, w). done. Qed.

Lemma keeps_game_bind {A B} (m : Method A) (k : A -> Method B) :
  keeps_game m -> (forall a, keeps_game (k a)) -> keeps_game (bind m k).
Proof.
  intros Hm Hk g w. unfold bind.
  destruct (Hm g w) as ([g1 w1] & Hfin & Hg).
  destruct (m (g, w)) as [a s|e s| |]; simpl in *; simplify_eq.
  - apply Hk.
  - eauto.
Qed.

Lemma keeps_game_self : keeps_game self.
Proof. intros g w. exists (g, w). done. Qed.

Lemma keeps_game_print (line : string) : keeps_game (print line).
Proof. intros g w. eexists. split; [reflexivity|done]. Qed.

Lemma keeps_game_or_raise {A} (e : exn) (o : option A) :
  keeps_game (or_raise e o).
Proof. intros g w. exists (g, w). destruct o; done. Qed.

Lemma keeps_game_for_each {A} (l : list A) (body : A -> Method unit) :
  (forall x, keeps_game (body x)) -> keeps_game (for_each l body).
Proof.
  intros Hbody. induction l as [|x l IH]; simpl.
  - apply keeps_game_ret.
  - apply keeps_game_bind; [apply Hbody|]. intros _. apply IH.
Qed.

Lemma keeps_game_fold_each {A B} (l : list A) (body : B -> A -> Method B)
    (acc : B) :
  (forall b x, keeps_game (body b x)) -> keeps_game (fold_each l body acc).
Proof.
  intros Hbody. revert acc. induction l as [|x l IH]; intros acc; simpl.
  - apply keeps_game_ret.
  - apply keeps_game_bind; [apply Hbody|]. intros acc'. apply IH.
Qed.

Lemma keeps_game_render_cell (reveal_all : bool) (i : Z) (row : string) (j : Z) :
  keeps_game (render_cell reveal_all i row j).
Proof.
  unfold render_cell. apply keeps_game_bind; [apply keeps_game_self|].
  intros g.
  repeat match goal with
         | |- keeps_game (if ?b then _ else _) => destruct b
         | |- keeps_game (bind _ _) => apply keeps_game_bind; [|intros ?]
         | |- keeps_game (or_raise _ _) => apply keeps_game_or_raise
         | |- keeps_game (ret _) => apply keeps_game_ret
         end.
Qed.

Lemma keeps_game_display_grid (reveal_all : bool) :
  keeps_game (display_grid reveal_all).
Proof.
  unfold display_grid.
  apply keeps_game_bind; [intros g w; eexists; split; [reflexivity|done]|].
  intros _. apply keeps_game_bind; [apply keeps_game_self|]. intros g.
  do 4 (apply keeps_game_bind; [apply keeps_game_print|]; intros _).
  apply keeps_game_for_each. intros i.
  apply keeps_game_bind; [|intros row; apply keeps_game_print].
  apply keeps_game_fold_each. intros row j. apply keeps_game_render_cell.
Qed.

(** C9: whatever the reveal-all flag, rendering ends with the very object it
    started from: grid, position, score, moves, inventory, log and game-over
    flag are those of before (only the console changes). *)
Theorem display_grid_frame (reveal_all : bool) (g : Game) (w : World) :
  exists g' w',
    final_state (display_grid reveal_all (g, w)) = Some (g', w')
    /\ grid g' = grid g /\ player_pos g' = player_pos g
    /\ score g' = score g /\ moves g' = moves g
    /\ inventory g' = inventory g /\ game_log g' = game_log g
    /\ game_over g' = game_over g /\ g' = g.
Proof.
  destruct (keeps_game_display_grid reveal_all g w) as ([g' w'] & Hfin & Hg).
  simpl in Hg. subst g'. exists g, w'. repeat split; done.
Qed.

(** On a well-formed game every cell of the rendering exists: rendering
    returns. *)
Lemma fold_each_returns {A B} (l : list A) (body : B -> A -> Method B)
    (acc : B) (g : Game) (w : World) :
  (forall b x w1, x ∈ l -> exists b' w2, body b x (g, w1) = Ret b' (g, w2)) ->
  exists acc' w', fold_each l body acc (g, w) = Ret acc' (g, w').
Proof.
  revert acc w. induction l as [|x l IH]; intros acc w Hbody; simpl.
  - eexists _, _. reflexivity.
  - unfold bind. destruct (Hbody acc x w) as (b' & w2 & ->); [left|].
    apply IH. intros b y w1 Hy. apply Hbody. by right.
Qed.

Lemma for_each_returns {A} (l : list A) (body : A -> Method unit)
    (g : Game) (w : World) :
  (forall x w1, x ∈ l -> exists w2, body x (g, w1) = Ret tt (g, w2)) ->
  exists w', for_each l body (g, w) = Ret tt (g, w').
Proof.
  revert w. induction l as [|x l IH]; intros w Hbody; simpl.
  - eexists. reflexivity.
  - unfold bind. destruct (Hbody x w) as (w2 & ->); [left|].
    apply IH. intros y w1 Hy. apply Hbody. by right.
Qed.

Lemma render_cell_returns (reveal_all : bool) (i j : Z) (row : string)
    (g : Game) (w : World) :
  is_Some (grid_get (grid g) (i, j)) ->
  exists row', render_cell reveal_all i row j (g, w) = Ret row' (g, w).
Proof.
  intros [c Hc]. unfold render_cell, bind, self. simpl.
  repeat match goal with
         | |- context [if ?b then _ else _] => destruct b
         end; rewrite ?Hc; simpl; eauto.
Qed.

Lemma display_grid_returns (reveal_all : bool) (g : Game) (w : World) :
  wf g -> exists w', display_grid reveal_all (g, w) = Ret tt (g, w').
Proof.
  intros [Hsq Hpos]. unfold display_grid.
  unfold bind at 1, modify at 1. simpl.
  unfold bind at 1, self at 1. simpl.
  do 4 (unfold bind at 1, print at 1, modify at 1; simpl).
  apply for_each_returns. intros i w1 Hi.
  apply elem_of_seqZ in Hi. unfold bind at 1.
  destruct (fold_each_returns (range (grid_size g)) (render_cell reveal_all i)
              (pretty i +:+ " ") g w1) as (row & w2 & ->).
  - intros b j w3 Hj. apply elem_of_seqZ in Hj.
    destruct (render_cell_returns reveal_all i j b g w3) as (row' & ->).
    + apply (square_get (grid_size g)); [done|]. unfold in_bounds. simpl. lia.
    + eauto.
  - eexists. reflexivity.
Qed.

(** ** A game in play *)

Lemma move_player_total (d : string) (g : Game) (w : World) :
  wf g ->
  exists b g' w', move_player d (g, w) = Ret b (g', w')
    /\ wf g' /\ grid_size g' = grid_size g /\ keeps_blanks g g'.
Proof.
  intros [Hsq Hpos].
  destruct (step d (grid_size g) (player_pos g)) as [p|] eqn:Hstep.
  - pose proof (step_in_bounds _ _ _ _ Hpos Hstep) as Hp.
    destruct (square_get _ _ _ Hsq Hp) as [item Hitem].
    pose proof (grid_get_set _ _ _ " " Hitem) as Hset.
    destruct (handle_returns item p (set_moves (moves g + 1) g) w Hset)
      as (g1 & w1 & Hrun & Hframe & Hgrid).
    destruct (move_player_returns d g w p item g1 w1 Hstep Hitem Hrun Hframe)
      as (g' & w' & Hmove & Hpos' & _ & _ & _ & _ & Hgr' & Hgs').
    exists true, g', w'. split; [done|]. simpl in Hgrid.
    unfold wf, keeps_blanks. rewrite Hgr', Hgs', Hpos'.
    destruct Hgrid as [->| Hcleared]; [done|].
    split; [split; [|done]|split; [done|]].
    + eapply grid_set_square; eauto.
    + intros q. eapply grid_set_keeps_blank, Hcleared.
  - rewrite move_player_invalid by done.
    eexists _, _, _. split; [reflexivity|].
    split; [split; [exact Hsq|exact Hpos]|]. split; [done|].
    intros q Hq. exact Hq.
Qed.

Lemma use_map_total (g : Game) (w : World) :
  wf g ->
  exists b g' w', use_map (g, w) = Ret b (g', w')
    /\ wf g' /\ grid_size g' = grid_size g /\ grid g' = grid g
    /\ score g' = score g.
Proof.
  intros Hwf. unfold use_map. unfold bind at 1, self at 1. simpl.
  case_bool_decide.
  - do 2 (unfold bind at 1, update at 1, modify at 1; simpl).
    unfold bind at 1, print at 1, modify at 1. simpl.
    unfold bind at 1, _log_event, bind at 1, now, update, modify. simpl.
    unfold bind at 1.
    match goal with
    | |- context [display_grid true (?g1, ?w1)] =>
        destruct (display_grid_returns true g1 w1) as [w2 ->]; [exact Hwf|]
    end.
    eexists _, _, _. split; [reflexivity|].
    split; [exact Hwf|]. done.
  - eexists _, _, _. split; [reflexivity|].
    split; [exact Hwf|]. done.
Qed.

Lemma keeps_blanks_refl (g g' : Game) : grid g' = grid g -> keeps_blanks g g'.
Proof. intros Hgr p. rewrite Hgr. done. Qed.

Lemma perform_total (a : action) (g : Game) (w : World) :
  wf g ->
  exists g' w', perform a (g, w) = Ret tt (g', w')
    /\ wf g' /\ grid_size g' = grid_size g /\ keeps_blanks g g'.
Proof.
  intros Hwf. destruct a as [d| |reveal_all|filename|]; simpl.
  - destruct (move_player_total d g w Hwf) as (b & g' & w' & Hmove & ?).
    unfold bind. rewrite Hmove. eauto.
  - destruct (use_map_total g w Hwf)
      as (b & g' & w' & Hrun & ? & ? & Hgr & _).
    unfold bind. rewrite Hrun. eexists _, _. split; [reflexivity|].
    split; [done|]. split; [done|]. by apply keeps_blanks_refl.
  - destruct (display_grid_returns reveal_all g w Hwf) as [w' ->].
    eexists _, _. split; [reflexivity|].
    split; [done|]. split; [done|]. by apply keeps_blanks_refl.
  - eexists _, _. split; [reflexivity|].
    split; [exact Hwf|]. split; [done|]. by apply keeps_blanks_refl.
  - eexists _, _. split; [reflexivity|].
    split; [exact Hwf|]. split; [done|]. by apply keeps_blanks_refl.
Qed.

Lemma perform_all_total (acts : list action) (g : Game) (w : World) :
  wf g ->
  exists g' w', perform_all acts (g, w) = Ret tt (g', w')
    /\ wf g' /\ grid_size g' = grid_size g /\ keeps_blanks g g'.
Proof.
  revert g w. induction acts as [|a acts IH]; intros g w Hwf.
  - eexists _, _. split; [reflexivity|].
    split; [exact Hwf|]. split; [done|]. by apply keeps_blanks_refl.
  - destruct (perform_total a g w Hwf) as (g1 & w1 & Hrun & Hwf1 & Hgs1 & Hb1).
    destruct (IH g1 w1 Hwf1) as (g2 & w2 & Hrun2 & Hwf2 & Hgs2 & Hb2).
    exists g2, w2. unfold perform_all in *. simpl. unfold bind at 1.
    rewrite Hrun. split; [done|]. split; [done|]. split; [congruence|].
    intros p Hp. apply Hb2, Hb1, Hp.
Qed.

(** A step onto a blank cell changes neither the score nor the inventory. *)
Lemma move_onto_blank (d : string) (g : Game) (w : World) (p : Z * Z) :
  step d (grid_size g) (player_pos g) = Some p ->
  grid_get (grid g) p = Some " " ->
  exists g' w', move_player d (g, w) = Ret true (g', w')
    /\ score g' = score g /\ inventory g' = inventory g
    /\ grid g' = grid g /\ game_over g' = game_over g.
Proof.
  intros Hstep Hitem.
  rewrite (move_player_steps d g w p " " Hstep Hitem), handle_blank.
  eexists _, _. split; [reflexivity|]. done.
Qed.

(** C4: a successful move onto a Treasure cell adds exactly 100 points and
    blanks the cell, for good: whatever the game does next (moves, map,
    rendering, saving, status), the cell is still blank, and a later move
    onto it changes neither the score nor the inventory. *)
Theorem treasure_once (d : string) (g : Game) (w : World) (p : Z * Z) :
  wf g ->
  step d (grid_size g) (player_pos g) = Some p ->
  grid_get (grid g) p = Some "T" ->
  exists g1 w1, move_player d (g, w) = Ret true (g1, w1)
    /\ score g1 = score g + 100
    /\ grid_get (grid g1) p = Some " "
    /\ forall acts : list action,
         exists g2 w2, perform_all acts (g1, w1) = Ret tt (g2, w2)
           /\ grid_get (grid g2) p = Some " "
           /\ forall d' : string,
                step d' (grid_size g2) (player_pos g2) = Some p ->
                exists g3 w3, move_player d' (g2, w2) = Ret true (g3, w3)
                  /\ score g3 = score g2 /\ inventory g3 = inventory g2.
Proof.
  intros Hwf Hstep Hitem.
  pose proof (grid_get_set _ _ _ " " Hitem) as Hset.
  destruct (handle_treasure p (set_moves (moves g + 1) g) w Hset)
    as (h & wh & Hrun & Hsc & _ & _ & Hgr).
  destruct (handle_returns "T" p (set_moves (moves g + 1) g) w Hset)
    as (h' & wh' & Hrun' & Hframe & _).
  rewrite Hrun in Hrun'. injection Hrun' as <- <-.
  destruct (move_player_returns d g w p "T" h wh Hstep Hitem Hrun Hframe)
    as (g1 & w1 & Hmove & _ & _ & Hsc1 & _ & _ & Hgr1 & _).
  assert (Hblank : grid_get (grid g1) p = Some " ").
  { rewrite Hgr1. eapply grid_set_get, Hgr. }
  destruct (move_player_total d g w Hwf) as (b & g1' & w1' & Hmove' & Hwf1 & _).
  rewrite Hmove in Hmove'. injection Hmove' as <- <- <-.
  exists g1, w1. split; [done|]. split; [rewrite Hsc1, Hsc; done|].
  split; [done|]. intros acts.
  destruct (perform_all_total acts g1 w1 Hwf1)
    as (g2 & w2 & Hrun2 & _ & _ & Hkeeps).
  exists g2, w2. split; [done|]. split; [apply Hkeeps, Hblank|].
  intros d' Hstep'.
  destruct (move_onto_blank d' g2 w2 p Hstep' (Hkeeps p Hblank))
    as (g3 & w3 & Hmove3 & Hsc3 & Hinv3 & _).
  eauto.
Qed.

Lemma wf_sample_game : wf sample_game.
Proof.
  split; [split; [reflexivity|]|].
  - repeat constructor.
  - unfold in_bounds. simpl. lia.
Qed.

Lemma treasure_once_witness :
  exists g1 w1, move_player "right" (near_treasure, sample_world) = Ret true (g1, w1)
    /\ score g1 = score near_treasure + 100
    /\ grid_get (grid g1) (0, 3) = Some " "
    /\ forall acts : list action,
         exists g2 w2, perform_all acts (g1, w1) = Ret tt (g2, w2)
           /\ grid_get (grid g2) (0, 3) = Some " "
           /\ forall d' : string,
                step d' (grid_size g2) (player_pos g2) = Some (0, 3) ->
                exists g3 w3, move_player d' (g2, w2) = Ret true (g3, w3)
                  /\ score g3 = score g2 /\ inventory g3 = inventory g2.
Proof.
  apply (treasure_once "right" near_treasure sample_world (0, 3)).
  - split; [split; [reflexivity|]|].
    + repeat constructor.
    + unfold in_bounds. simpl. lia.
  - reflexivity.
  - reflexivity.
Defined.

(** ** Sorting the leaderboard *)

Section Sorting.
Context {A : Type} (key : A -> Z).

Lemma descending_nil : descending key [].
Proof. intros i j a b _ Hi. done. Qed.

Lemma descending_cons (x : A) (l : list A) :
  descending key (x :: l) <->
  Forall (fun y => key x >= key y) l /\ descending key l.
Proof.
  split.
  - intros H. split.
    + apply Forall_lookup_2. intros i y Hy.
      apply (H 0%nat (S i) x y); [lia|done|done].
    + intros i j a b Hij Ha Hb. apply (H (S i) (S j) a b); [lia|done|done].
  - intros [Hx Hl] i j a b Hij Ha Hb.
    destruct j as [|j]; [lia|]. simpl in Hb.
    destruct i as [|i]; simpl in Ha.
    + injection Ha as <-. apply (Forall_lookup_1 _ _ _ _ Hx Hb).
    + apply (Hl i j a b); [lia|done|done].
Qed.

Lemma insert_desc_Forall (P : A -> Prop) (x : A) (l : list A) :
  P x -> Forall P l -> Forall P (insert_desc key x l).
Proof.
  intros Hx Hl. induction Hl as [|y l Hy Hl IH]; simpl.
  - by constructor.
  - case_bool_decide; constructor; try done. by constructor.
Qed.

Lemma insert_desc_descending (x : A) (l : list A) :
  descending key l -> descending key (insert_desc key x l).
Proof.
  induction l as [|y l IH]; simpl; intros Hl.
  - apply descending_cons. split; [constructor|apply descending_nil].
  - apply descending_cons in Hl as [Hy Hl]. case_bool_decide as Hgt.
    + apply descending_cons. split; [|by apply IH].
      apply insert_desc_Forall; [lia|done].
    + apply descending_cons. split.
      * constructor; [lia|]. eapply Forall_impl; [exact Hy|].
        simpl. intros z Hz. lia.
      * apply descending_cons. done.
Qed.

Lemma sort_desc_descending (l : list A) : descending key (sort_desc key l).
Proof.
  induction l as [|x l IH]; simpl.
  - apply descending_nil.
  - by apply insert_desc_descending.
Qed.

Lemma descending_take (n : nat) (l : list A) :
  descending key l -> descending key (take n l).
Proof.
  intros Hl i j a b Hij Ha Hb.
  apply lookup_take_Some in Ha as [Ha _].
  apply lookup_take_Some in Hb as [Hb _].
  by apply (Hl i j a b).
Qed.

Lemma insert_desc_Permutation (x : A) (l : list A) :
  insert_desc key x l ≡ₚ x :: l.
Proof.
  induction l as [|y l IH]; simpl; [done|].
  case_bool_decide; [|done]. rewrite IH. apply Permutation_swap.
Qed.

Lemma sort_desc_Permutation (l : list A) : sort_desc key l ≡ₚ l.
Proof.
  induction l as [|x l IH]; simpl; [done|].
  rewrite insert_desc_Permutation. by rewrite IH.
Qed.
End Sorting.

(** Sorting tagged entries and forgetting the tags is sorting the entries. *)
Lemma insert_desc_fmap {A B} (f : A -> B) (key : B -> Z) (x : A) (l : list A) :
  f <$> insert_desc (fun a => key (f a)) x l = insert_desc key (f x) (f <$> l).
Proof.
  induction l as [|y l IH]; csimpl; [done|].
  case_bool_decide; csimpl; [by rewrite IH|done].
Qed.

Lemma sort_desc_fmap {A B} (f : A -> B) (key : B -> Z) (l : list A) :
  f <$> sort_desc (fun a => key (f a)) l = sort_desc key (f <$> l).
Proof.
  induction l as [|x l IH]; csimpl; [done|].
  by rewrite insert_desc_fmap, IH.
Qed.

Lemma sorted_desc_descending (l : list Entry) :
  sorted_desc l <-> descending points l.
Proof. done. Qed.

(** ** The leaderboard file *)

Lemma as_entry_enc (e : Entry) : as_entry (enc_entry e) = Some e.
Proof. by destruct e. Qed.

Lemma as_entries_enc (l : list Entry) :
  as_list as_entry (JArr (enc_entry <$> l)) = Some l.
Proof. simpl. apply mapM_fmap_Some. intros e. apply as_entry_enc. Qed.

(** On the elements that are entries, the subscripts, the sort and the
    search of [check_high_scores] are those of the entries. *)
Lemma as_entry_items {S} (x : json) (e : Entry) (s : S) :
  as_entry x = Some e ->
  getitem x "player" s = Ret (JStr (player e)) s
  /\ getitem x "score" s = Ret (JInt (points e)) s.
Proof.
  destruct x as [| | | | |fields]; try done. simpl. unfold getitem.
  destruct (assoc "player" fields) as [[| | |p| |]|]; try done.
  destruct (assoc "score" fields) as [[| |z| | |]|]; try done.
  destruct (assoc "date" fields) as [[| | |d| |]|]; try done.
  by intros [= <-].
Qed.

Lemma each_item_score {S} (l : list json) (es : list Entry) (s : S) :
  mapM as_entry l = Some es ->
  each_item l "score" s = Ret (JInt <$> (points <$> es)) s.
Proof.
  rewrite mapM_Some. induction 1 as [|x e l es Hx _ IH]; [done|].
  simpl. unfold bind at 1.
  rewrite (proj2 (as_entry_items x e s Hx)).
  unfold bind at 1. rewrite IH. reflexivity.
Qed.

Lemma insert_desc_Forall2 {A B} (R : A -> B -> Prop) (k1 : A -> Z)
    (k2 : B -> Z) (x : A) (y : B) (l1 : list A) (l2 : list B) :
  (forall a b, R a b -> k1 a = k2 b) -> R x y -> Forall2 R l1 l2 ->
  Forall2 R (insert_desc k1 x l1) (insert_desc k2 y l2).
Proof.
  intros Hkey Hxy. induction 1 as [|a b l1 l2 Hab Hl IH]; simpl.
  - by constructor.
  - rewrite (Hkey a b Hab), (Hkey x y Hxy).
    case_bool_decide; by repeat constructor.
Qed.

Lemma sort_desc_Forall2 {A B} (R : A -> B -> Prop) (k1 : A -> Z)
    (k2 : B -> Z) (l1 : list A) (l2 : list B) :
  (forall a b, R a b -> k1 a = k2 b) -> Forall2 R l1 l2 ->
  Forall2 R (sort_desc k1 l1) (sort_desc k2 l2).
Proof.
  intros Hkey. induction 1 as [|a b l1 l2 Hab Hl IH]; simpl.
  - constructor.
  - by apply insert_desc_Forall2.
Qed.

Lemma sort_by_score_entries {S} (l : list json) (es : list Entry) (s : S) :
  mapM as_entry l = Some es ->
  exists l', sort_by_score l s = Ret l' s
    /\ mapM as_entry l' = Some (sort_desc points es).
Proof.
  intros Hl. unfold sort_by_score, bind at 1.
  rewrite (each_item_score l es s Hl). unfold bind at 1.
  rewrite (mapM_fmap_Some as_int JInt) by done.
  eexists. split; [reflexivity|].
  apply mapM_Some, Forall2_fmap_l.
  apply (Forall2_impl
           (fun (kx : Z * json) e => kx.1 = points e /\ as_entry kx.2 = Some e));
    [|by intros [k x] e [_ Hx]].
  apply sort_desc_Forall2.
  - by intros [k x] e [Hk _].
  - apply mapM_Some in Hl. clear s.
    induction Hl as [|x e l es Hx _ IH]; csimpl; by constructor.
Qed.

Lemma any_entry_listed {S} (name : string) (sc : Z) (l : list json)
    (es : list Entry) (s : S) :
  mapM as_entry l = Some es ->
  any_entry name sc l s = Ret (listed name sc es) s.
Proof.
  rewrite mapM_Some. induction 1 as [|x e l es Hx _ IH]; [done|].
  destruct (as_entry_items x e s Hx) as [Hp Hs].
  simpl. unfold bind at 1. rewrite Hp. unfold bind at 1. simpl.
  destruct (String.eqb (player e) name); simpl.
  - unfold bind at 1. rewrite Hs. simpl.
    case_bool_decide; [done|]. exact IH.
  - exact IH.
Qed.

(** What [check_high_scores] starts from, on a leaderboard file. *)
Lemma read_leaderboard (filename : string) (w : World) :
  leaderboard_file filename w ->
  exists l, try_except (read_json filename) scores_handled (ret (JArr [])) w
            = Ret (JArr l) w
    /\ mapM as_entry l = Some (initial_scores filename w).
Proof.
  unfold initial_scores, leaderboard, try_except, read_json.
  intros [Hf|[Hf|[es Hf]]].
  - rewrite Hf. by exists [].
  - rewrite Hf. by exists [].
  - unfold leaderboard in Hf.
    destruct (files w !! filename) as [[doc| |]|]; try done.
    destruct doc as [| | | |l|]; try done. exists l. by rewrite Hf.
Qed.

Lemma check_high_scores_run (name : string) (sc : Z) (filename : string)
    (w : World) :
  leaderboard_file filename w ->
  let kept := kept_scores (initial_scores filename w) (new_entry name sc w) in
  exists doc,
    check_high_scores name sc filename w
    = Ret (listed name sc kept)
        (set_files (next_tick w) (<[filename := Json doc]> (files w)))
    /\ as_list as_entry doc = Some kept.
Proof.
  intros Hfile kept.
  destruct (read_leaderboard filename w Hfile) as (l & Hread & Hl).
  assert (Hall : mapM as_entry (l ++ [enc_entry (new_entry name sc w)])
                 = Some (initial_scores filename w ++ [new_entry name sc w])).
  { apply mapM_Some, Forall2_app; [by apply mapM_Some|].
    constructor; [apply as_entry_enc|constructor]. }
  destruct (sort_by_score_entries _ _ (next_tick w) Hall) as (l' & Hsort & Hl').
  assert (Hkept : mapM as_entry (take 5 l') = Some kept).
  { apply mapM_Some, Forall2_take. by apply mapM_Some. }
  exists (JArr (take 5 l')). split; [|exact Hkept].
  unfold check_high_scores, bind at 1. rewrite Hread.
  unfold bind at 1, now_w. unfold new_entry in Hsort.
  unfold bind at 1. rewrite Hsort.
  unfold bind at 1, write_json, modify.
  apply (any_entry_listed name sc _ _ _ Hkept).
Qed.

Lemma leaderboard_insert (filename : string) (w : World) (doc : json)
    (l : list Entry) :
  as_list as_entry doc = Some l ->
  leaderboard filename (set_files w (<[filename := Json doc]> (files w)))
  = Some l.
Proof.
  intros Hdoc. unfold leaderboard. simpl. by rewrite lookup_insert_eq.
Qed.

Lemma leaderboard_written (filename : string) (w : World) (l : list Entry) :
  leaderboard filename
    (set_files w (<[filename := Json (JArr (enc_entry <$> l))]> (files w)))
  = Some l.
Proof.
  unfold leaderboard. simpl. rewrite lookup_insert_eq. apply as_entries_enc.
Qed.

Lemma kept_scores_length (old : list Entry) (new : Entry) :
  (length (kept_scores old new) <= 5)%nat.
Proof. unfold kept_scores. rewrite length_take. lia. Qed.

Lemma kept_scores_sorted (old : list Entry) (new : Entry) :
  sorted_desc (kept_scores old new).
Proof.
  apply sorted_desc_descending, descending_take, sort_desc_descending.
Qed.

(** One call leaves a leaderboard of at most five entries, sorted. *)
Lemma check_high_scores_board (name : string) (sc : Z) (filename : string)
    (w : World) :
  leaderboard_file filename w ->
  exists b w' l, check_high_scores name sc filename w = Ret b w'
    /\ leaderboard filename w' = Some l
    /\ (length l <= 5)%nat /\ sorted_desc l.
Proof.
  intros Hfile.
  destruct (check_high_scores_run name sc filename w Hfile) as (doc & -> & Hdoc).
  eexists _, _, _. split; [reflexivity|].
  split; [by apply (leaderboard_insert filename (next_tick w))|].
  split; [apply kept_scores_length|apply kept_scores_sorted].
Qed.

(** C6, as the code has it: from a file that is missing or is not JSON
    (both taken as the empty leaderboard) or that holds a list of entries,
    and after any non-empty sequence of calls of [check_high_scores], every
    call returns and the file holds a leaderboard of at most 5 entries
    sorted by descending score. *)
Theorem leaderboard_invariant (filename : string) (calls : list (string * Z))
    (w : World) :
  leaderboard_file filename w -> calls <> [] ->
  exists bs w' l, check_all filename calls w = Ret bs w'
    /\ leaderboard filename w' = Some l
    /\ (length l <= 5)%nat /\ sorted_desc l.
Proof.
  revert w. induction calls as [|[name sc] rest IH]; intros w Hfile Hne.
  - done.
  - destruct (check_high_scores_board name sc filename w Hfile)
      as (b & w1 & l1 & Hrun & Hboard & Hlen & Hsorted).
    simpl. unfold bind at 1. rewrite Hrun.
    destruct rest as [|call rest].
    + exists [b], w1, l1. done.
    + destruct (IH w1) as (bs & w' & l & Hrest & Hfinal); [|done|].
      { right. right. rewrite Hboard. eauto. }
      unfold bind at 1. rewrite Hrest. eauto.
Qed.

Lemma leaderboard_invariant_witness :
  exists bs w' l,
    check_all "high_scores.json" [("Ann", 250); ("Bob", 90)] sample_world
    = Ret bs w'
    /\ leaderboard "high_scores.json" w' = Some l
    /\ (length l <= 5)%nat /\ sorted_desc l.
Proof.
  apply (leaderboard_invariant "high_scores.json"
           [("Ann", 250); ("Bob", 90)] sample_world).
  - left. reflexivity.
  - discriminate.
Defined.

(** C6 as stated fails on a file that is JSON but no leaderboard, and on a
    file that is no text: such a file is not taken as the empty
    leaderboard.  On seven elements of which the last has no score, the
    sort raises [KeyError] once the clock is read; nothing is written, and
    the file still holds its seven elements, out of order.  On bytes that
    are no text the reading raises [UnicodeDecodeError], which the [except]
    clause does not name. *)
Lemma leaderboard_corrupt_kept :
  check_high_scores "Ann" 250 "high_scores.json" corrupt_world
  = Raise (KeyError "score") (next_tick corrupt_world)
  /\ files (next_tick corrupt_world) !! "high_scores.json"
     = Some (Json (JArr corrupt_board))
  /\ length corrupt_board = 7%nat
  /\ ~ (exists bs w' l,
          check_all "high_scores.json" [("Ann", 250)] corrupt_world = Ret bs w'
          /\ leaderboard "high_scores.json" w' = Some l
          /\ (length l <= 5)%nat /\ sorted_desc l)
  /\ check_high_scores "Ann" 250 "high_scores.json" binary_world
     = Raise UnicodeDecodeError binary_world.
Proof.
  assert (Hrun : check_high_scores "Ann" 250 "high_scores.json" corrupt_world
                 = Raise (KeyError "score") (next_tick corrupt_world))
    by reflexivity.
  split; [exact Hrun|]. split; [reflexivity|]. split; [reflexivity|].
  split; [|reflexivity].
  intros (bs & w' & l & Hcalls & _). simpl in Hcalls.
  unfold bind at 1 in Hcalls. rewrite Hrun in Hcalls. discriminate.
Qed.

(** ** The answer of [check_high_scores] *)

Lemma listed_true (name : string) (sc : Z) (l : list Entry) :
  listed name sc l = true <->
  exists e, e ∈ l /\ player e = name /\ points e = sc.
Proof.
  unfold listed. induction l as [|x l IH]; simpl.
  - split; [done|]. intros (e & He & _). by apply elem_of_nil in He.
  - rewrite orb_true_iff, IH, andb_true_iff, bool_decide_eq_true.
    rewrite String.eqb_eq. split.
    + intros [[Hp Hs]|(e & He & Hp & Hs)].
      * exists x. split; [left|done].
      * exists e. split; [by right|done].
    + intros (e & He & Hp & Hs). apply elem_of_cons in He as [->|He].
      * by left.
      * right. eauto.
Qed.

Lemma existsb_snd_true {A} (l : list (A * bool)) :
  existsb snd l = true -> exists a, (a, true) ∈ l.
Proof.
  induction l as [|[a b] l IH]; simpl; [done|].
  intros [Hb|Hl]%orb_true_iff.
  - simpl in Hb. subst b. exists a. left.
  - destruct (IH Hl) as [a' Ha']. exists a'. by right.
Qed.

Lemma untag_entries (old : list Entry) (new : Entry) :
  fst <$> (((fun e => (e, false)) <$> old) ++ [(new, true)]) = old ++ [new].
Proof.
  rewrite fmap_app, <- list_fmap_compose. simpl. f_equal.
  induction old as [|e old IH]; csimpl; [done|]. by rewrite IH.
Qed.

(** The new entry, when it survives, is among the kept ones. *)
Lemma survivor_kept (old : list Entry) (new : Entry) :
  new_entry_survives old new = true -> new ∈ kept_scores old new.
Proof.
  unfold new_entry_survives, kept_scores. intros H.
  apply existsb_snd_true in H as [e He].
  assert (e = new) as ->.
  { apply elem_of_take in He as (i & He & _).
    apply list_elem_of_lookup_2 in He.
    rewrite sort_desc_Permutation in He.
    apply elem_of_app in He as [Hold|Hnew].
    - apply list_elem_of_fmap in Hold as (e' & [= _] & _).
    - apply list_elem_of_singleton in Hnew. by injection Hnew. }
  rewrite <- untag_entries, <- (sort_desc_fmap fst points), <- fmap_take.
  apply (list_elem_of_fmap_2 fst) in He. exact He.
Qed.

(** C7, as the code has it: the call returns [True] exactly when some entry
    of the leaderboard it writes back has the name and the score of the call,
    be it the new entry or an older one; this is the case whenever the new
    entry itself is among the five kept. *)
Theorem high_score_answer (name : string) (sc : Z) (filename : string)
    (w : World) :
  leaderboard_file filename w ->
  exists b w' l, check_high_scores name sc filename w = Ret b w'
    /\ leaderboard filename w' = Some l
    /\ (b = true <-> exists e, e ∈ l /\ player e = name /\ points e = sc)
    /\ (new_entry_survives (initial_scores filename w) (new_entry name sc w)
        = true -> b = true).
Proof.
  intros Hfile.
  destruct (check_high_scores_run name sc filename w Hfile) as (doc & -> & Hdoc).
  eexists _, _, _. split; [reflexivity|].
  split; [by apply (leaderboard_insert filename (next_tick w))|].
  split; [apply listed_true|].
  intros Hnew. apply listed_true. exists (new_entry name sc w).
  split; [by apply survivor_kept|done].
Qed.

Lemma high_score_answer_witness :
  exists b w' l,
    check_high_scores "Zoe" 600 "high_scores.json" scores_world = Ret b w'
    /\ leaderboard "high_scores.json" w' = Some l
    /\ (b = true <-> exists e, e ∈ l /\ player e = "Zoe" /\ points e = 600)
    /\ (new_entry_survives (initial_scores "high_scores.json" scores_world)
          (new_entry "Zoe" 600 scores_world) = true -> b = true).
Proof.
  apply (high_score_answer "Zoe" 600 "high_scores.json" scores_world).
  right. right. exists sample_board. reflexivity.
Defined.

(** C7 as stated fails: the board is full, its last entry is Ann's with 100
    points; Ann scores 100 again.  The new entry is sorted after the old one
    and cut, the file holds the same five entries as before, and the call
    returns [True]. *)
Lemma high_score_without_entry :
  new_entry_survives (initial_scores "high_scores.json" scores_world)
    (new_entry "Ann" 100 scores_world) = false
  /\ exists w',
       check_high_scores "Ann" 100 "high_scores.json" scores_world = Ret true w'
       /\ leaderboard "high_scores.json" w' = Some sample_board.
Proof.
  split; [vm_compute; reflexivity|].
  destruct (check_high_scores_run "Ann" 100 "high_scores.json" scores_world)
    as (doc & -> & Hdoc); [right; right; exists sample_board; reflexivity|].
  eexists. split.
  - apply (f_equal2 Ret); [vm_compute; reflexivity|reflexivity].
  - etrans;
      [exact (leaderboard_insert "high_scores.json" (next_tick scores_world)
                doc _ Hdoc)|].
    vm_compute. reflexivity.
Qed.

(** ** Loading *)

(** C8, as the code has it: when the file is missing or holds a text that
    is not JSON, [load_game] raises nothing: it reports on the console and
    returns [None], no game, leaving the rest of the environment as it
    was. *)
Theorem load_game_no_file (fuel : nat) (filename : string) (w : World) :
  files w !! filename = None \/ files w !! filename = Some NotJson ->
  load_game fuel filename w
  = Ret None (emit (Print ("Could not load game from " +:+ filename)) w).
Proof.
  intros Hfile. unfold load_game, try_except, bind at 1, read_json.
  destruct Hfile as [->| ->]; reflexivity.
Qed.

Lemma load_game_no_file_witness :
  load_game 0 "saved_game.json" sample_world
  = Ret None
      (emit (Print ("Could not load game from " +:+ "saved_game.json"))
         sample_world).
Proof.
  apply (load_game_no_file 0 "saved_game.json" sample_world).
  left. reflexivity.
Defined.

(** C8 as stated fails on a file that cannot be parsed because its bytes
    are no text: [load_game] does not return, the [UnicodeDecodeError] of
    the reading leaves it, and nothing is printed. *)
Lemma load_game_undecodable :
  files binary_world !! "saved_game.json" = Some NotText
  /\ load_game 20 "saved_game.json" binary_world
     = Raise UnicodeDecodeError binary_world
  /\ ~ (exists w', load_game 20 "saved_game.json" binary_world = Ret None w').
Proof.
  assert (Hrun : load_game 20 "saved_game.json" binary_world
                 = Raise UnicodeDecodeError binary_world) by reflexivity.
  split; [reflexivity|]. split; [exact Hrun|].
  intros [w' Hret]. rewrite Hrun in Hret. discriminate.
Qed.

Lemma bind_Ret {S A B} (m : M S A) (k : A -> M S B) (s s' : S) (b : B) :
  bind m k s = Ret b s' -> exists a s1, m s = Ret a s1 /\ k a s1 = Ret b s'.
Proof. unfold bind. destruct (m s) as [a s1|e s1| |]; [eauto|done..]. Qed.

Lemma lift_Ret {A} (m : M World A) (g g' : Game) (w w' : World) (a : A) :
  lift m (g, w) = Ret a (g', w') -> m w = Ret a w' /\ g' = g.
Proof.
  unfold lift. simpl. destruct (m w) as [a1 w1|e w1| |]; [|done..].
  by intros [= -> -> ->].
Qed.

Lemma randint_Ret (a b : Z) (w w' : World) (z : Z) :
  randint a b w = Ret z w' -> a <= z <= b /\ w' = next_draw w.
Proof.
  unfold randint. case_bool_decide; [|done]. intros [= <- <-].
  split; [|done]. pose proof (Z.mod_pos_bound (Z.of_nat (rng w (rng_pos w)))
                               (b - a + 1)). lia.
Qed.

(** The placement loops write the grid and nothing else of the object. *)
Lemma place_loop_frame (fuel : nat) (sym : string) (count placed : Z)
    (g g' : Game) (w w' : World) :
  place_loop fuel sym count placed (g, w) = Ret tt (g', w') ->
  g' = set_grid (grid g') g.
Proof.
  revert placed g w. induction fuel as [|fuel IH]; intros placed g w; simpl.
  - case_bool_decide as Hlt; [done|]. intros [= <- <-]. by destruct g.
  - case_bool_decide as Hlt; [|intros [= <- <-]; by destruct g].
    intros H. apply bind_Ret in H; destruct H as (g0 & [g1 w1] & Hs & H).
    injection Hs as <- <- <-.
    apply bind_Ret in H; destruct H as (x & [g1 w1] & Hx & H).
    apply lift_Ret in Hx as [_ ->].
    apply bind_Ret in H; destruct H as (y & [g2 w2] & Hy & H).
    apply lift_Ret in Hy as [_ ->].
    apply bind_Ret in H; destruct H as (c & [g3 w3] & Hc & H).
    destruct (grid_get (grid g) (y, x)) as [c'|]; [|done].
    injection Hc as <- <- <-.
    destruct (String.eqb c' " " && negb (bool_decide ((y, x) = player_pos g))).
    + apply bind_Ret in H; destruct H as (gr & [g4 w4] & Hgr & H).
      destruct (grid_set (grid g) (y, x) sym) as [gr'|]; [|done].
      injection Hgr as <- <- <-.
      apply bind_Ret in H; destruct H as ([] & [g5 w5] & Hup & H).
      injection Hup as <- <-.
      apply IH in H. rewrite H. by destruct g.
    + apply IH in H. done.
Qed.

Lemma _place_items_frame (fuel : nat) (g g' : Game) (w w' : World) :
  _place_items fuel (g, w) = Ret tt (g', w') -> g' = set_grid (grid g') g.
Proof.
  unfold _place_items, _place_random_items. intros H.
  apply bind_Ret in H; destruct H as ([] & [g1 w1] & H1 & H).
  apply bind_Ret in H; destruct H as ([] & [g2 w2] & H2 & H).
  apply bind_Ret in H; destruct H as ([] & [g3 w3] & H3 & H).
  apply bind_Ret in H; destruct H as ([] & [g4 w4] & H4 & H).
  apply bind_Ret in H; destruct H as ([] & [g5 w5] & H5 & H).
  apply place_loop_frame in H1, H2, H3, H4, H5, H.
  rewrite H, H5, H4, H3, H2, H1. reflexivity.
Qed.

(** A game, as the constructor returns it: not over, started at the first
    reading of the clock. *)
Lemma __init___fresh (fuel : nat) (name : string) (gs : Z) (w w' : World)
    (g : Game) :
  __init__ fuel name gs w = Ret g w' ->
  game_over g = false /\ start_time g = clock w (clock_pos w)
  /\ player_name g = name /\ grid_size g = gs.
Proof.
  unfold __init__. intros H.
  apply bind_Ret in H; destruct H as (t & w1 & [= <- <-] & H).
  apply bind_Ret in H; destruct H as (r & w2 & _ & H).
  apply bind_Ret in H; destruct H as (c & w3 & _ & H).
  apply bind_Ret in H; destruct H as ([[] g1] & w4 & Hon & [= <- <-]).
  unfold on in Hon.
  match type of Hon with
  | context [bind ?m ?k (?g0, _)] =>
      destruct (bind m k (g0, w3)) as [[] [g2 w5]|e s| |] eqn:Hrun; [|done..]
  end.
  injection Hon as <- <-.
  apply bind_Ret in Hrun; destruct Hrun as ([] & [g3 w6] & Hplace & Hlog).
  apply _place_items_frame in Hplace.
  unfold _log_event, bind, now, update, modify in Hlog. simpl in Hlog.
  injection Hlog as <- <-. rewrite Hplace. done.
Qed.

Lemma getitem_typed {S A} (doc : json) (k : string) (dec : json -> option A)
    (s s' : S) (a : A) :
  (j <- getitem doc k ;; typed (dec j)) s = Ret a s' ->
  s' = s /\ exists j, dec j = Some a.
Proof.
  intros H. apply bind_Ret in H; destruct H as (j & s1 & Hj & Ht).
  assert (s1 = s) as ->.
  { unfold getitem, or_raise in Hj. destruct doc; try done.
    destruct (assoc k fields); [|done]. by injection Hj. }
  unfold typed in Ht. destruct (dec j) as [a'|] eqn:Hdec; [|done].
  injection Ht as <- <-. eauto.
Qed.

Lemma load_game_Some (fuel : nat) (filename : string) (w w' : World)
    (g' : Game) :
  load_game fuel filename w = Ret (Some g') w' ->
  exists name gs fresh w0 sc mv pos gr inv lg t,
    __init__ fuel name gs w = Ret fresh w0
    /\ g' = loaded filename sc mv pos gr inv lg t fresh.
Proof.
  unfold load_game, try_except. intros H.
  match type of H with
  | match ?body w with _ => _ end = _ =>
      destruct (body w) as [a s|e s| |] eqn:Hbody;
        [|destruct (load_handled e); done|done..]
  end.
  injection H as -> ->.
  apply bind_Ret in Hbody; destruct Hbody as (doc & w1 & Hread & Hbody).
  assert (w1 = w) as ->.
  { unfold read_json in Hread.
    destruct (files w !! filename) as [[doc'| |]|]; [|done..].
    by injection Hread. }
  apply bind_Ret in Hbody; destruct Hbody as (name & w1 & Hname & Hbody).
  apply getitem_typed in Hname as [-> _].
  apply bind_Ret in Hbody; destruct Hbody as (gs & w1 & Hgs & Hbody).
  apply getitem_typed in Hgs as [-> _].
  apply bind_Ret in Hbody; destruct Hbody as (fresh & w0 & Hinit & Hbody).
  apply bind_Ret in Hbody; destruct Hbody as (sc & w1 & Hsc & Hbody).
  apply getitem_typed in Hsc as [-> _].
  apply bind_Ret in Hbody; destruct Hbody as (mv & w1 & Hmv & Hbody).
  apply getitem_typed in Hmv as [-> _].
  apply bind_Ret in Hbody; destruct Hbody as (pos & w1 & Hpos & Hbody).
  apply getitem_typed in Hpos as [-> _].
  apply bind_Ret in Hbody; destruct Hbody as (gr & w1 & Hgr & Hbody).
  apply getitem_typed in Hgr as [-> _].
  apply bind_Ret in Hbody; destruct Hbody as (inv & w1 & Hinv & Hbody).
  apply getitem_typed in Hinv as [-> _].
  apply bind_Ret in Hbody; destruct Hbody as (lg & w1 & Hlg & Hbody).
  apply getitem_typed in Hlg as [-> _].
  apply bind_Ret in Hbody; destruct Hbody as (ug & w1 & Hon & Hbody).
  injection Hbody as <- <-.
  unfold on, bind, _log_event, now, update, print, modify in Hon.
  simpl in Hon. injection Hon as <- <-.
  eexists _, _, _, _, _, _, _, _, _, _, _.
  split; [exact Hinit|reflexivity].
Qed.

(** ** Saving, then loading *)

Lemma as_strs_enc (l : list string) : as_list as_str (JArr (JStr <$> l)) = Some l.
Proof. simpl. by apply mapM_fmap_Some. Qed.

Lemma as_grid_enc (gr : list (list string)) :
  as_list (as_list as_str) (enc_grid gr) = Some gr.
Proof.
  unfold enc_grid. simpl. apply mapM_fmap_Some. intros row. apply as_strs_enc.
Qed.

Lemma as_inventory_enc (i : Inventory) : as_inventory (enc_inventory i) = Some i.
Proof. destruct i as [k s m [b|]]; reflexivity. Qed.

Lemma as_pos_enc (p : Z * Z) : as_pos (enc_pos p) = Some p.
Proof. by destruct p. Qed.

Lemma save_game_run (filename : string) (g : Game) (w : World) :
  save_game filename (g, w)
  = Ret true
      (g, emit (Print ("Game saved to " +:+ filename))
            (set_files (next_tick w)
               (<[filename := Json (enc_game g (clock w (clock_pos w)))]>
                  (files w)))).
Proof. reflexivity. Qed.

Lemma typed_step {S A B} (v : json) (dec : json -> option A) (a : A)
    (k : A -> M S B) (s : S) :
  dec v = Some a ->
  bind (bind (ret v) (fun j => typed (dec j))) k s = k a s.
Proof. intros H. unfold bind, ret, typed. rewrite H. reflexivity. Qed.

(** Loading a file that [save_game] wrote, once the constructor has
    returned a fresh game. *)
Lemma load_game_saved (fuel : nat) (filename : string) (g fresh : Game)
    (t : datetime) (w w0 : World) :
  files w !! filename = Some (Json (enc_game g t)) ->
  __init__ fuel (player_name g) (grid_size g) w = Ret fresh w0 ->
  load_game fuel filename w
  = Ret (Some (loaded filename (score g) (moves g) (player_pos g) (grid g)
                 (inventory g) (game_log g) (clock w0 (clock_pos w0)) fresh))
      (emit (Print ("Game loaded from " +:+ filename)) (next_tick w0)).
Proof.
  intros Hfile Hinit. unfold load_game, try_except.
  unfold bind at 1, read_json. rewrite Hfile.
  unfold bind at 1. simpl. unfold bind at 1. simpl.
  unfold bind at 1. rewrite Hinit.
  rewrite (typed_step (JInt (score g)) as_int (score g)) by done.
  rewrite (typed_step (JInt (moves g)) as_int (moves g)) by done.
  rewrite (typed_step _ as_pos (player_pos g)) by apply as_pos_enc.
  rewrite (typed_step _ (as_list (as_list as_str)) (grid g))
    by apply as_grid_enc.
  rewrite (typed_step _ as_inventory (inventory g)) by apply as_inventory_enc.
  rewrite (typed_step _ (as_list as_str) (game_log g)) by apply as_strs_enc.
  reflexivity.
Qed.

(** C10: the file [save_game] writes does not depend on the game-over flag
    nor on the start time of the game; and every game [load_game] returns is
    not over and has for start time the reading of the clock made by this
    very call, so that the elapsed time [get_status] reports counts from the
    loading. *)
Theorem load_game_restarts (g : Game) (over : bool) (started : datetime)
    (fuel : nat) (filename : string) (w w' : World) (g' : Game) :
  files_after_save filename (set_game_over over (set_start_time started g)) w
  = files_after_save filename g w
  /\ (load_game fuel filename w = Ret (Some g') w' ->
      game_over g' = false
      /\ start_time g' = clock w (clock_pos w)
      /\ exists st s, get_status (g', w') = Ret st s
           /\ st_game_over st = false
           /\ st_elapsed_time st
              = delta_seconds (clock w' (clock_pos w')) (clock w (clock_pos w))).
Proof.
  split; [reflexivity|]. intros Hload.
  apply load_game_Some in Hload
    as (name & gs & fresh & w0 & sc & mv & pos & gr & inv & lg & t & Hinit & ->).
  apply __init___fresh in Hinit as (Hover & Hstart & _).
  split; [exact Hover|]. split; [exact Hstart|].
  eexists _, _. split; [reflexivity|]. simpl.
  rewrite Hover, Hstart. done.
Qed.

Lemma load_game_restarts_witness :
  load_game 20 "saved_game.json" saved_world = Ret (Some reloaded) reloaded_world
  /\ files_after_save "saved_game.json"
       (set_game_over true (set_start_time (sample_clock 7) sample_game))
       saved_world
     = files_after_save "saved_game.json" sample_game saved_world
  /\ game_over reloaded = false
  /\ start_time reloaded = clock saved_world (clock_pos saved_world)
  /\ exists st s, get_status (reloaded, reloaded_world) = Ret st s
       /\ st_game_over st = false
       /\ st_elapsed_time st
          = delta_seconds (clock reloaded_world (clock_pos reloaded_world))
              (clock saved_world (clock_pos saved_world)).
Proof.
  assert (Hload : load_game 20 "saved_game.json" saved_world
                  = Ret (Some reloaded) reloaded_world)
    by (vm_compute; reflexivity).
  split; [exact Hload|].
  destruct (load_game_restarts sample_game true (sample_clock 7) 20
              "saved_game.json" saved_world reloaded_world reloaded)
    as [Hsave Hfresh].
  split; [exact Hsave|]. exact (Hfresh Hload).
Defined.

(** ** The constructor returns *)

Lemma randint_run (gs : Z) (w : World) :
  1 <= gs ->
  randint 0 (gs - 1) w
  = Ret (Z.of_nat (rng w (rng_pos w)) mod gs) (next_draw w).
Proof.
  intros Hgs. unfold randint. rewrite bool_decide_eq_true_2 by lia.
  do 2 f_equal. replace (gs - 1 - 0 + 1) with gs by lia. lia.
Qed.

Lemma pair_at_next (gs : Z) (w : World) (j : nat) :
  pair_at gs (next_draw (next_draw w)) j = pair_at gs w (S j).
Proof.
  unfold pair_at. cbn [rng rng_pos next_draw].
  replace (S (S (rng_pos w)) + 2 * j)%nat with (rng_pos w + 2 * S j)%nat by lia.
  reflexivity.
Qed.

Lemma fair_next (gs : Z) (w : World) :
  fair gs w -> fair gs (next_draw (next_draw w)).
Proof.
  intros Hfair j x y Hx Hy. destruct (Hfair (S j) x y Hx Hy) as [d Hd].
  exists d. rewrite pair_at_next. exact Hd.
Qed.

Lemma fair_same_draws (gs : Z) (w w' : World) :
  rng w' = rng w -> rng_pos w' = rng_pos w -> fair gs w -> fair gs w'.
Proof.
  intros Hrng Hpos Hfair j x y Hx Hy. destruct (Hfair j x y Hx Hy) as [d Hd].
  exists d. unfold pair_at in *. rewrite Hrng, Hpos. exact Hd.
Qed.

Lemma pair_at_in_bounds (gs : Z) (w : World) (j : nat) :
  1 <= gs -> in_bounds gs ((pair_at gs w j).2, (pair_at gs w j).1).
Proof.
  intros Hgs. unfold in_bounds, pair_at. simpl.
  split; apply Z.mod_pos_bound; lia.
Qed.

(** On the grid, writing a square leaves the other squares alone. *)
Lemma grid_set_get_other (gs : Z) (gr gr' : list (list string)) (p q : Z * Z)
    (v : string) :
  square gs gr -> in_bounds gs p -> in_bounds gs q -> p <> q ->
  grid_set gr q v = Some gr' -> grid_get gr' p = grid_get gr p.
Proof.
  intros [Hlen Hrows] [Hp1 Hp2] [Hq1 Hq2] Hne H.
  pose proof (grid_set_length _ _ _ _ H) as Hlen'.
  unfold grid_set in H. unfold grid_get, py_get at 1 3.
  rewrite (py_index_same_length gr' gr) by done.
  rewrite py_index_in_range in H by lia. rewrite py_index_in_range by lia.
  destruct (gr !! Z.to_nat q.1) as [row|] eqn:Hrow; [|done].
  pose proof (Forall_lookup_1 _ _ _ _ Hrows Hrow) as Hl. simpl in Hl.
  unfold py_set in H. rewrite py_index_in_range in H by lia.
  injection H as <-.
  destruct (decide (Z.to_nat q.1 = Z.to_nat p.1)) as [Heq|Hrow_ne].
  - rewrite <- Heq, list_lookup_insert_eq, Hrow by (apply lookup_lt_Some in Hrow; lia).
    unfold py_get. rewrite (py_index_same_length _ row) by apply length_insert.
    rewrite py_index_in_range by lia.
    apply list_lookup_insert_ne. intros Hcol.
    apply Hne. destruct p, q. simpl in *. f_equal; lia.
  - rewrite list_lookup_insert_ne; done.
Qed.

Lemma replicate_grid_square (gs : Z) :
  0 <= gs ->
  square gs (replicate (Z.to_nat gs) (replicate (Z.to_nat gs) " ")).
Proof.
  intros Hgs. split.
  - rewrite length_replicate. lia.
  - apply Forall_replicate. rewrite length_replicate. lia.
Qed.

Lemma replicate_grid_blank (gs : Z) (p : Z * Z) :
  in_bounds gs p ->
  grid_get (replicate (Z.to_nat gs) (replicate (Z.to_nat gs) " ")) p
  = Some " ".
Proof.
  intros [Hr Hc]. unfold grid_get, py_get.
  rewrite py_index_in_range by (rewrite length_replicate; lia).
  rewrite lookup_replicate_2 by lia.
  rewrite py_index_in_range by (rewrite length_replicate; lia).
  apply lookup_replicate_2. lia.
Qed.

Lemma corner_NoDup : NoDup corner.
Proof. apply (bool_decide_unpack _). vm_compute. exact I. Qed.

Lemma elem_of_squares (n : Z) (p : Z * Z) : p ∈ squares n <-> in_bounds n p.
Proof.
  unfold squares, in_bounds. split.
  - intros Hp. apply list_elem_of_bind in Hp as (y & Hp & Hy).
    apply list_elem_of_bind in Hp as (x & Hp & Hx).
    apply list_elem_of_singleton in Hp as ->.
    apply elem_of_seqZ in Hx, Hy. simpl. lia.
  - intros [Hy Hx]. apply list_elem_of_bind. exists p.1.
    split; [|apply elem_of_seqZ; lia].
    apply list_elem_of_bind. exists p.2.
    split; [|apply elem_of_seqZ; lia].
    apply list_elem_of_singleton. by destruct p.
Qed.

Lemma corner_in_bounds (gs : Z) (p : Z * Z) :
  4 <= gs -> p ∈ corner -> in_bounds gs p.
Proof.
  intros Hgs Hp. apply elem_of_squares in Hp as [Hy Hx].
  unfold in_bounds. lia.
Qed.

(** Fewer than sixteen squares are taken: one of the corner is not. *)
Lemma corner_spare (taken : list (Z * Z)) :
  (length taken < 16)%nat -> exists p, p ∈ corner /\ p ∉ taken.
Proof.
  intros Hlen.
  destruct (decide (Forall (fun p => p ∈ taken) corner)) as [Hall|Hnot].
  - assert (corner ⊆+ taken) as Hsub.
    { apply NoDup_submseteq; [apply corner_NoDup|].
      intros p Hp. by apply (Forall_forall (fun p => p ∈ taken) corner). }
    apply submseteq_length in Hsub. change (length corner) with 16%nat in Hsub.
    lia.
  - apply not_Forall_Exists in Hnot; [|apply _].
    apply Exists_exists in Hnot as (p & Hp & Hout). eauto.
Qed.

(** One iteration of the placement loop, on a game being built. *)
Lemma place_loop_step (fuel : nat) (sym : string) (count placed : Z)
    (g : Game) (w : World) :
  1 <= grid_size g -> placed < count ->
  let x := (pair_at (grid_size g) w 0).1 in
  let y := (pair_at (grid_size g) w 0).2 in
  let w2 := next_draw (next_draw w) in
  place_loop (S fuel) sym count placed (g, w)
  = match grid_get (grid g) (y, x) with
    | Some c =>
        if String.eqb c " " && negb (bool_decide ((y, x) = player_pos g)) then
          match grid_set (grid g) (y, x) sym with
          | Some gr => place_loop fuel sym count (placed + 1) (set_grid gr g, w2)
          | None => Raise IndexError (g, w2)
          end
        else place_loop fuel sym count placed (g, w2)
    | None => Raise IndexError (g, w2)
    end.
Proof.
  intros Hgs Hlt. simpl. rewrite bool_decide_eq_true_2 by done.
  unfold bind at 1, self at 1. simpl.
  unfold bind at 1, lift at 1. simpl. rewrite randint_run by done.
  unfold bind at 1, lift at 1. simpl. rewrite randint_run by done.
  unfold pair_at. simpl.
  replace (rng_pos w + 0)%nat with (rng_pos w) by lia.
  replace (rng_pos w + 1)%nat with (S (rng_pos w)) by lia.
  unfold bind at 1, or_raise.
  destruct (grid_get _ _) as [c|]; [|reflexivity]. simpl.
  destruct (_ && _); [|reflexivity].
  unfold bind at 1.
  destruct (grid_set _ _ _) as [gr|]; reflexivity.
Qed.

(** When the [d]-th pair of draws to come falls on a free square, the loop
    places its next item within [d + 1] iterations. *)
Lemma place_next (gs : Z) (sym : string) (count placed : Z)
    (filled : list (Z * Z)) (d : nat) (g : Game) (w : World) (q : Z * Z) :
  1 <= gs -> placed < count -> placing gs filled g -> fair gs w ->
  pair_at gs w d = (q.2, q.1) ->
  in_bounds gs q -> q ∉ filled -> q <> player_pos g ->
  exists (k : nat) (g' : Game) (w' : World) (q' : Z * Z),
    placing gs (q' :: filled) g' /\ fair gs w'
    /\ player_pos g' = player_pos g
    /\ forall f, place_loop (k + f) sym count placed (g, w)
                 = place_loop f sym count (placed + 1) (g', w').
Proof.
  intros Hgs Hlt. revert w.
  induction d as [|d IH]; intros w (Hsize & Hwf & Hblank) Hfair Hd Hq Hnew Hnp.
  - exists 1%nat. pose proof (Hblank q Hq Hnew) as Hcell.
    destruct (grid_get_set _ _ _ sym Hcell) as [gr Hgr].
    exists (set_grid gr g), (next_draw (next_draw w)), q.
    split; [|split; [by apply fair_next|split; [done|]]].
    + split; [done|]. destruct Hwf as [Hsq Hpos]. rewrite Hsize in Hsq, Hpos.
      split; [split; simpl; rewrite Hsize; [by eapply grid_set_square|done]|].
      intros p Hp Hout. simpl. apply not_elem_of_cons in Hout as [Hpq Hout].
      rewrite (grid_set_get_other gs (grid g) gr p q sym); auto.
    + intros f. simpl plus. rewrite place_loop_step by (rewrite ?Hsize; done).
      rewrite Hsize, Hd. simpl. destruct q as [qy qx]. simpl in *.
      rewrite Hcell. simpl. rewrite bool_decide_eq_false_2 by done. simpl.
      rewrite Hgr. reflexivity.
  - pose proof (pair_at_in_bounds gs w 0 Hgs) as Hp0.
    destruct Hwf as [Hsq Hpos]. rewrite Hsize in Hsq, Hpos.
    destruct (square_get _ _ _ Hsq Hp0) as [c Hc].
    set (p0 := ((pair_at gs w 0).2, (pair_at gs w 0).1)) in *.
    destruct (String.eqb c " " && negb (bool_decide (p0 = player_pos g)))
      eqn:Htest.
    + exists 1%nat. destruct (grid_get_set _ _ _ sym Hc) as [gr Hgr].
      exists (set_grid gr g), (next_draw (next_draw w)), p0.
      split; [|split; [by apply fair_next|split; [done|]]].
      * split; [done|].
        split; [split; simpl; rewrite Hsize; [by eapply grid_set_square|done]|].
        intros p Hp Hout. simpl. apply not_elem_of_cons in Hout as [Hpq Hout].
        rewrite (grid_set_get_other gs (grid g) gr p p0 sym); auto.
      * intros f. simpl plus.
        rewrite place_loop_step by (rewrite ?Hsize; done).
        rewrite Hsize. fold p0. rewrite Hc, Htest, Hgr. reflexivity.
    + destruct (IH (next_draw (next_draw w))) as (k & g' & w' & q' & H);
        [by rewrite <- Hsize in Hsq, Hpos|by apply fair_next
        |by rewrite pair_at_next|done..|].
      exists (S k), g', w', q'. destruct H as (Hpl & Hf & Hpp & Hrun).
      split; [done|]. split; [done|]. split; [done|].
      intros f. simpl plus.
      rewrite place_loop_step by (rewrite ?Hsize; done).
      rewrite Hsize. fold p0. rewrite Hc, Htest. apply Hrun.
Qed.

(** On a grid of size 4 or more with fewer than fifteen squares filled, a
    square is free: on the grid, not filled, not the player's. *)
Lemma free_square (gs : Z) (filled : list (Z * Z)) (player : Z * Z) :
  4 <= gs -> (length filled < 15)%nat ->
  exists q, in_bounds gs q /\ (q ∉ filled) /\ q <> player.
Proof.
  intros Hgs Hlen.
  destruct (corner_spare (player :: filled)) as (q & Hq & Hout);
    [simpl; lia|].
  apply not_elem_of_cons in Hout as [Hne Hout].
  exists q. split; [by apply corner_in_bounds|done].
Qed.

(** With a fair generator, a placement loop that has room for its items
    returns, given enough fuel. *)
Lemma place_loop_returns (gs : Z) (sym : string) (count : Z) (n : nat) :
  forall (placed : Z) (filled : list (Z * Z)) (g : Game) (w : World),
    4 <= gs -> Z.to_nat (count - placed) = n ->
    placing gs filled g -> fair gs w -> (length filled + n < 16)%nat ->
    exists (fuel : nat) (g' : Game) (w' : World) (filled' : list (Z * Z)),
      placing gs filled' g' /\ fair gs w'
      /\ length filled' = (length filled + n)%nat
      /\ forall f, place_loop (fuel + f) sym count placed (g, w)
                   = Ret tt (g', w').
Proof.
  induction n as [|n IH]; intros placed filled g w Hgs Hn Hpl Hfair Hroom.
  - exists 0%nat, g, w, filled. split; [done|]. split; [done|].
    split; [lia|]. intros f.
    destruct f; simpl; rewrite bool_decide_eq_false_2 by lia; reflexivity.
  - destruct (free_square gs filled (player_pos g)) as (q & Hq & Hnew & Hnp);
      [done|lia|].
    destruct Hq as [Hq1 Hq2].
    destruct (Hfair 0%nat q.2 q.1) as [d Hd]; [done..|].
    destruct (place_next gs sym count placed filled d g w q)
      as (k & g1 & w1 & q' & Hpl1 & Hfair1 & _ & Hrun1);
      [lia|lia|done|done|done|done|done|done|].
    destruct (IH (placed + 1) (q' :: filled) g1 w1)
      as (fuel & g' & w' & filled' & Hpl' & Hfair' & Hlen' & Hrun');
      [done|lia|done|done|simpl; lia|].
    exists (k + fuel)%nat, g', w', filled'.
    split; [done|]. split; [done|]. split; [simpl in Hlen'; lia|].
    intros f. rewrite <- Nat.add_assoc, Hrun1. apply Hrun'.
Qed.

Lemma _place_items_returns (gs : Z) (g : Game) (w : World) :
  4 <= gs -> placing gs [] g -> fair gs w ->
  exists (fuel : nat) (g' : Game) (w' : World),
    forall f, _place_items (fuel + f) (g, w) = Ret tt (g', w').
Proof.
  intros Hgs Hpl Hfair. unfold _place_items, _place_random_items.
  destruct (place_loop_returns gs "T" 3 3 0 [] g w)
    as (f1 & g1 & w1 & l1 & Hpl1 & Hfair1 & Hlen1 & Hrun1);
    [done|done|done|done|simpl; lia|].
  destruct (place_loop_returns gs "X" 4 4 0 l1 g1 w1)
    as (f2 & g2 & w2 & l2 & Hpl2 & Hfair2 & Hlen2 & Hrun2);
    [done|done|done|done|simpl in *; lia|].
  destruct (place_loop_returns gs "K" 2 2 0 l2 g2 w2)
    as (f3 & g3 & w3 & l3 & Hpl3 & Hfair3 & Hlen3 & Hrun3);
    [done|done|done|done|simpl in *; lia|].
  destruct (place_loop_returns gs "S" 2 2 0 l3 g3 w3)
    as (f4 & g4 & w4 & l4 & Hpl4 & Hfair4 & Hlen4 & Hrun4);
    [done|done|done|done|simpl in *; lia|].
  destruct (place_loop_returns gs "M" 1 1 0 l4 g4 w4)
    as (f5 & g5 & w5 & l5 & Hpl5 & Hfair5 & Hlen5 & Hrun5);
    [done|done|done|done|simpl in *; lia|].
  destruct (place_loop_returns gs "E" 1 1 0 l5 g5 w5)
    as (f6 & g6 & w6 & l6 & Hpl6 & Hfair6 & Hlen6 & Hrun6);
    [done|done|done|done|simpl in *; lia|].
  exists (f1 + f2 + f3 + f4 + f5 + f6)%nat, g6, w6. intros f.
  unfold bind.
  replace (f1 + f2 + f3 + f4 + f5 + f6 + f)%nat
    with (f1 + (f2 + f3 + f4 + f5 + f6 + f))%nat at 1 by lia.
  rewrite Hrun1.
  replace (f1 + f2 + f3 + f4 + f5 + f6 + f)%nat
    with (f2 + (f1 + f3 + f4 + f5 + f6 + f))%nat at 1 by lia.
  rewrite Hrun2.
  replace (f1 + f2 + f3 + f4 + f5 + f6 + f)%nat
    with (f3 + (f1 + f2 + f4 + f5 + f6 + f))%nat at 1 by lia.
  rewrite Hrun3.
  replace (f1 + f2 + f3 + f4 + f5 + f6 + f)%nat
    with (f4 + (f1 + f2 + f3 + f5 + f6 + f))%nat at 1 by lia.
  rewrite Hrun4.
  replace (f1 + f2 + f3 + f4 + f5 + f6 + f)%nat
    with (f5 + (f1 + f2 + f3 + f4 + f6 + f))%nat at 1 by lia.
  rewrite Hrun5.
  replace (f1 + f2 + f3 + f4 + f5 + f6 + f)%nat
    with (f6 + (f1 + f2 + f3 + f4 + f5 + f))%nat at 1 by lia.
  rewrite Hrun6. reflexivity.
Qed.

(** With a fair random generator the constructor returns on every grid of
    size 4 or more, given enough fuel. *)
Lemma __init___returns (name : string) (gs : Z) (w : World) :
  4 <= gs -> fair gs w ->
  exists (fuel : nat) (g : Game) (w' : World),
    forall f, __init__ (fuel + f) name gs w = Ret g w'.
Proof.
  intros Hgs Hfair. unfold __init__.
  unfold bind at 1, now_w. unfold bind at 1. rewrite randint_run by lia.
  unfold bind at 1. rewrite randint_run by lia.
  set (w2 := next_draw (next_draw (next_tick w))).
  set (r := Z.of_nat (rng (next_tick w) (rng_pos (next_tick w))) mod gs).
  set (c := Z.of_nat (rng (next_draw (next_tick w))
                        (rng_pos (next_draw (next_tick w)))) mod gs).
  set (g0 := {| player_name := name; grid_size := gs; score := 0; moves := 0;
                game_over := false; start_time := clock w (clock_pos w);
                grid := replicate (Z.to_nat gs) (replicate (Z.to_nat gs) " ");
                player_pos := (r, c); inventory := empty_inventory;
                game_log := [] |}).
  destruct (_place_items_returns gs g0 w2) as (fuel & g1 & w3 & Hrun).
  - done.
  - split; [done|]. split.
    + split; simpl; [apply replicate_grid_square; lia|].
      unfold in_bounds, r, c. simpl. split; apply Z.mod_pos_bound; lia.
    + intros p Hp _. simpl. by apply replicate_grid_blank.
  - apply fair_next. by apply (fair_same_draws gs w).
  - exists fuel. eexists _, _. intros f.
    unfold bind at 1, on, bind at 1. rewrite Hrun. reflexivity.
Qed.

(** C5: for every game on a grid of size 4 or more (the constructor exists
    for no other) and every fair random generator, [save_game] returns and
    [load_game] of the file then returns, given enough fuel, a game with the
    score, the moves counter, the player position, the inventory and the
    grid of the game saved (and its name and grid size). *)
Theorem save_load_roundtrip (g : Game) (filename : string) (w : World) :
  4 <= grid_size g -> fair (grid_size g) w ->
  exists w1, save_game filename (g, w) = Ret true (g, w1)
    /\ exists (fuel : nat) (g' : Game) (w' : World),
         (forall f, load_game (fuel + f) filename w1 = Ret (Some g') w')
         /\ score g' = score g /\ moves g' = moves g
         /\ player_pos g' = player_pos g /\ inventory g' = inventory g
         /\ grid g' = grid g
         /\ player_name g' = player_name g /\ grid_size g' = grid_size g.
Proof.
  intros Hgs Hfair. rewrite save_game_run. eexists. split; [reflexivity|].
  match goal with
  | |- context [load_game _ _ ?w1] => set (saved := w1)
  end.
  destruct (__init___returns (player_name g) (grid_size g) saved Hgs)
    as (fuel & fresh & w0 & Hinit).
  { by apply (fair_same_draws _ w). }
  pose proof (__init___fresh _ _ _ _ _ _ (Hinit 0%nat)) as (_ & _ & Hname & Hsize).
  eexists fuel, _, _. split.
  - intros f. apply (load_game_saved _ _ g fresh (clock w (clock_pos w))).
    + unfold saved. simpl. apply lookup_insert_eq.
    + apply Hinit.
  - simpl. done.
Qed.

Lemma sample_rng_even (j : nat) : sample_rng (2 * j) = (j mod 5)%nat.
Proof.
  unfold sample_rng. rewrite Nat.even_even.
  replace (2 * j / 2)%nat with j; [done|].
  apply (Nat.div_unique _ _ _ 0); lia.
Qed.

Lemma sample_rng_odd (j : nat) : sample_rng (2 * j + 1) = (j / 5 mod 5)%nat.
Proof.
  unfold sample_rng. rewrite Nat.even_odd.
  replace ((2 * j + 1) / 2)%nat with j; [done|].
  apply (Nat.div_unique _ _ _ 1); lia.
Qed.

(** The sample generator walks through the grid again and again. *)
Lemma fair_sample_world : fair 5 sample_world.
Proof.
  intros j x y Hx Hy.
  set (J := (5 * (5 * (j + 1) + Z.to_nat y) + Z.to_nat x)%nat).
  exists (J - j)%nat. replace (j + (J - j))%nat with J by (unfold J; lia).
  unfold pair_at. change (rng sample_world) with sample_rng.
  change (rng_pos sample_world) with 0%nat. rewrite !Nat.add_0_l.
  rewrite sample_rng_even, sample_rng_odd.
  assert (J mod 5 = Z.to_nat x)%nat as ->.
  { symmetry. apply (Nat.mod_unique _ _ (5 * (j + 1) + Z.to_nat y)); unfold J; lia. }
  assert (J / 5 = 5 * (j + 1) + Z.to_nat y)%nat as ->.
  { symmetry. apply (Nat.div_unique _ _ _ (Z.to_nat x)); unfold J; lia. }
  assert ((5 * (j + 1) + Z.to_nat y) mod 5 = Z.to_nat y)%nat as ->.
  { symmetry. apply (Nat.mod_unique _ _ (j + 1)); lia. }
  rewrite !Z2Nat.id by lia. rewrite !Z.mod_small by lia. reflexivity.
Qed.

Lemma save_load_roundtrip_witness :
  exists w1, save_game "saved_game.json" (sample_game, sample_world)
             = Ret true (sample_game, w1)
    /\ exists (fuel : nat) (g' : Game) (w' : World),
         (forall f, load_game (fuel + f) "saved_game.json" w1 = Ret (Some g') w')
         /\ score g' = score sample_game /\ moves g' = moves sample_game
         /\ player_pos g' = player_pos sample_game
         /\ inventory g' = inventory sample_game
         /\ grid g' = grid sample_game
         /\ player_name g' = player_name sample_game
         /\ grid_size g' = grid_size sample_game.
Proof.
  apply (save_load_roundtrip sample_game "saved_game.json" sample_world).
  - simpl. lia.
  - exact fair_sample_world.
Defined.

(** ** Constructed games *)

(** A placement loop that returns has placed all its items, on distinct
    squares. *)
Lemma place_loop_holds (gs : Z) (sym : string) (count : Z) (fuel : nat) :
  forall (placed : Z) (filled : list (Z * Z)) (g g' : Game) (w w' : World),
    1 <= gs -> sym <> " " -> grid_size g = gs -> wf g ->
    holding gs filled g ->
    place_loop fuel sym count placed (g, w) = Ret tt (g', w') ->
    exists filled',
      grid_size g' = gs /\ wf g' /\ holding gs filled' g'
      /\ player_pos g' = player_pos g
      /\ length filled' = (length filled + Z.to_nat (count - placed))%nat.
Proof.
  induction fuel as [|fuel IH];
    intros placed filled g g' w w' Hgs Hsym Hsize Hwf Hold Hrun.
  - simpl in Hrun. case_bool_decide as Hlt; [done|].
    injection Hrun as <- <-. exists filled.
    split; [done|]. split; [done|]. split; [done|]. split; [done|]. lia.
  - destruct (decide (placed < count)) as [Hlt|Hge]; cycle 1.
    { simpl in Hrun. rewrite bool_decide_eq_false_2 in Hrun by done.
      injection Hrun as <- <-. exists filled.
      split; [done|]. split; [done|]. split; [done|]. split; [done|]. lia. }
    rewrite place_loop_step in Hrun by (rewrite ?Hsize; done).
    rewrite Hsize in Hrun.
    pose proof (pair_at_in_bounds gs w 0 Hgs) as Hp0.
    set (p0 := ((pair_at gs w 0).2, (pair_at gs w 0).1)) in *.
    destruct (grid_get (grid g) p0) as [c|] eqn:Hc; [|done].
    destruct (String.eqb c " " && negb (bool_decide (p0 = player_pos g)))
      eqn:Htest;
      [|by apply (IH placed filled g g' (next_draw (next_draw w)) w')].
    apply andb_true_iff in Htest as [Hblank Hnp].
    apply String.eqb_eq in Hblank as ->.
    apply negb_true_iff, bool_decide_eq_false in Hnp.
    destruct (grid_set (grid g) p0 sym) as [gr|] eqn:Hgr; [|done].
    destruct Hwf as [Hsq Hpos]. rewrite Hsize in Hsq, Hpos.
    destruct Hold as [Hnodup Hcells].
    assert (Hfresh : p0 ∉ filled).
    { intros Hin. destruct (Hcells p0 Hin) as (_ & _ & c & Hc' & Hne).
      congruence. }
    destruct (IH (placed + 1) (p0 :: filled) (set_grid gr g) g'
                (next_draw (next_draw w)) w')
      as (filled' & ? & ? & ? & ? & Hlen); try done.
    + split; simpl; rewrite Hsize; [by eapply grid_set_square|done].
    + split; [by constructor|]. intros q Hq. simpl.
      apply elem_of_cons in Hq as [->|Hq].
      * split; [done|]. split; [done|]. exists sym.
        split; [by eapply grid_set_get|done].
      * destruct (Hcells q Hq) as (Hqb & Hqp & c & Hqc & Hne).
        split; [done|]. split; [done|]. exists c. split; [|done].
        rewrite (grid_set_get_other gs (grid g) gr q p0 sym); try done.
        intros ->. done.
    + exists filled'.
      split; [done|]. split; [done|]. split; [done|]. split; [done|].
      simpl in Hlen. lia.
Qed.

(** The constructor, when it returns, returns a well-formed game on a grid
    of size 4 or more: the player and the thirteen items are on fourteen
    distinct squares, and a smaller grid has nine at most. *)
Lemma __init___wf (fuel : nat) (name : string) (gs : Z) (w w' : World)
    (g : Game) :
  __init__ fuel name gs w = Ret g w' -> wf g /\ 4 <= grid_size g.
Proof.
  unfold __init__. intros H.
  apply bind_Ret in H; destruct H as (t & w1 & Ht & H).
  apply bind_Ret in H; destruct H as (r & w2 & Hr & H).
  apply bind_Ret in H; destruct H as (c & w3 & Hc & H).
  apply randint_Ret in Hr as [Hr _]. apply randint_Ret in Hc as [Hc _].
  apply bind_Ret in H; destruct H as ([[] g1] & w4 & Hon & Hret).
  injection Hret as <- <-. unfold on in Hon.
  match type of Hon with
  | context [bind ?m ?k (?g0, _)] =>
      destruct (bind m k (g0, w3)) as [[] [g2 w5]|e s| |] eqn:Hrun; [|done..];
      set (start := g0) in *
  end.
  injection Hon as <- <-.
  apply bind_Ret in Hrun; destruct Hrun as ([] & [g3 w6] & Hplace & Hlog).
  unfold _log_event, bind, now, update, modify in Hlog. simpl in Hlog.
  injection Hlog as <- <-. simpl.
  assert (Hstart : wf start).
  { split; simpl; [apply replicate_grid_square; lia|]. unfold in_bounds.
    simpl. lia. }
  assert (Hnone : holding gs [] start).
  { split; [constructor|]. intros q Hq. by apply elem_of_nil in Hq. }
  unfold _place_items, _place_random_items in Hplace.
  apply bind_Ret in Hplace; destruct Hplace as ([] & [h1 v1] & H1 & Hplace).
  apply bind_Ret in Hplace; destruct Hplace as ([] & [h2 v2] & H2 & Hplace).
  apply bind_Ret in Hplace; destruct Hplace as ([] & [h3 v3] & H3 & Hplace).
  apply bind_Ret in Hplace; destruct Hplace as ([] & [h4 v4] & H4 & Hplace).
  apply bind_Ret in Hplace; destruct Hplace as ([] & [h5 v5] & H5 & H6).
  apply (place_loop_holds gs _ _ _ _ []) in H1
    as (l1 & Hs1 & Hwf1 & Hold1 & Hp1 & Hl1); [|lia|done..].
  apply (place_loop_holds gs _ _ _ _ l1) in H2
    as (l2 & Hs2 & Hwf2 & Hold2 & Hp2 & Hl2); [|lia|done..].
  apply (place_loop_holds gs _ _ _ _ l2) in H3
    as (l3 & Hs3 & Hwf3 & Hold3 & Hp3 & Hl3); [|lia|done..].
  apply (place_loop_holds gs _ _ _ _ l3) in H4
    as (l4 & Hs4 & Hwf4 & Hold4 & Hp4 & Hl4); [|lia|done..].
  apply (place_loop_holds gs _ _ _ _ l4) in H5
    as (l5 & Hs5 & Hwf5 & Hold5 & Hp5 & Hl5); [|lia|done..].
  apply (place_loop_holds gs _ _ _ _ l5) in H6
    as (l6 & Hs6 & Hwf6 & Hold6 & Hp6 & Hl6); [|lia|done..].
  split; [exact Hwf6|]. rewrite Hs6.
  destruct (decide (4 <= gs)) as [|Hsmall]; [done|]. exfalso.
  destruct Hold6 as [Hnodup Hcells].
  assert (player_pos g3 :: l6 ⊆+ squares 3) as Hsub.
  { apply NoDup_submseteq.
    - constructor; [|done]. intros Hin.
      destruct (Hcells _ Hin) as (_ & Hne & _). done.
    - intros q Hq. apply elem_of_squares.
      assert (in_bounds gs q) as [Hy Hx].
      { apply elem_of_cons in Hq as [->|Hq]; [|by apply Hcells].
        destruct Hwf6 as [_ Hpos]. by rewrite Hs6 in Hpos. }
      unfold in_bounds. lia. }
  apply submseteq_length in Hsub. change (length (squares 3)) with 9%nat in Hsub.
  simpl in *. lia.
Qed.

(** Every game the constructor or [load_game] returns is on a grid of size
    4 or more. *)
Lemma load_game_size (fuel : nat) (filename : string) (w w' : World)
    (g : Game) :
  load_game fuel filename w = Ret (Some g) w' -> 4 <= grid_size g.
Proof.
  intros H. apply load_game_Some in H
    as (name & gs & fresh & w0 & sc & mv & pos & gr & inv & lg & t & Hinit & ->).
  apply __init___wf in Hinit as [_ Hsize]. exact Hsize.
Qed.

(** A file that is JSON but lacks a field of a saved game is not handled:
    the [KeyError] leaves [load_game]. *)
Lemma load_game_incomplete (fuel : nat) (filename : string) (w : World) :
  files w !! filename = Some (Json (JObj [])) ->
  load_game fuel filename w = Raise (KeyError "player_name") w.
Proof.
  intros Hfile. unfold load_game, try_except, bind at 1, read_json.
  rewrite Hfile. reflexivity.
Qed.

(** * Further properties *)

(** ** What the operations never undo *)

Section EndsWith.
Context (R : Game -> Game -> Prop).
Context (R_refl : forall g, R g g).
Context (R_trans : forall g1 g2 g3, R g1 g2 -> R g2 g3 -> R g1 g3).

Lemma ends_with_ret {A} (a : A) : ends_with R (ret a).
Proof. intros g w. exists (g, w). split; [done|apply R_refl]. Qed.

Lemma ends_with_bind {A B} (m : Method A) (k : A -> Method B) :
  ends_with R m -> (forall a, ends_with R (k a)) -> ends_with R (bind m k).
Proof.
  intros Hm Hk g w. unfold bind.
  destruct (Hm g w) as ([g1 w1] & Hfin & Hg).
  destruct (m (g, w)) as [a s|e s| |]; simpl in *; simplify_eq.
  - destruct (Hk a g1 w1) as (s2 & Hfin2 & Hg2). exists s2.
    split; [done|]. by apply (R_trans _ g1).
  - eauto.
Qed.

Lemma ends_with_keeps {A} (m : Method A) : keeps_game m -> ends_with R m.
Proof.
  intros Hm g w. destruct (Hm g w) as (s & Hfin & Hs). exists s.
  split; [done|]. rewrite Hs. apply R_refl.
Qed.

Lemma ends_with_update (f : Game -> Game) :
  (forall g, R g (f g)) -> ends_with R (update f).
Proof. intros Hf g w. eexists. split; [reflexivity|apply Hf]. Qed.

Lemma ends_with_for_each {A} (l : list A) (body : A -> Method unit) :
  (forall x, ends_with R (body x)) -> ends_with R (for_each l body).
Proof.
  intros Hbody. induction l as [|x l IH]; simpl.
  - apply ends_with_ret.
  - apply ends_with_bind; [apply Hbody|]. intros _. apply IH.
Qed.
End EndsWith.

Lemma advances_refl (g : Game) : advances g g.
Proof. unfold advances. repeat split; try done; lia. Qed.

Lemma advances_trans (g1 g2 g3 : Game) :
  advances g1 g2 -> advances g2 g3 -> advances g1 g3.
Proof.
  intros (Hn & Hs & Ht & Ho & Hk & Hm & Hl) (Hn' & Hs' & Ht' & Ho' & Hk' & Hm' & Hl').
  unfold advances. repeat split; try congruence; try lia; [auto|].
  by transitivity (game_log g2).
Qed.

Lemma keeps_game_now : keeps_game now.
Proof. intros g w. eexists. split; [reflexivity|done]. Qed.

Lemma keeps_game_sleep (secs : Z) : keeps_game (sleep secs).
Proof. intros g w. eexists. split; [reflexivity|done]. Qed.

Lemma keeps_game_save_game (filename : string) : keeps_game (save_game filename).
Proof. intros g w. eexists. split; [reflexivity|done]. Qed.

Lemma keeps_game_get_status : keeps_game get_status.
Proof. intros g w. eexists. split; [reflexivity|done]. Qed.

Ltac advance_update :=
  apply ends_with_update; intros ?; unfold advances; simpl;
  repeat split; try done; try lia; try (by eexists).

Ltac advance :=
  repeat first
    [ apply (ends_with_ret advances advances_refl)
    | apply (ends_with_keeps advances advances_refl);
      first [ apply keeps_game_self | apply keeps_game_print
            | apply keeps_game_now | apply keeps_game_sleep
            | apply keeps_game_or_raise | apply keeps_game_display_grid
            | apply keeps_game_save_game | apply keeps_game_get_status ]
    | advance_update
    | apply (ends_with_bind advances advances_trans); [|intros ?]
    | match goal with
      | |- ends_with _ (if ?b then _ else _) => destruct b
      end ].

Lemma _log_event_advances (ev : string) : ends_with advances (_log_event ev).
Proof. unfold _log_event. advance. Qed.

Lemma clear_cell_advances (p : Z * Z) : ends_with advances (clear_cell p).
Proof. unfold clear_cell. advance. Qed.

Lemma _handle_item_interaction_advances (item : string) (p : Z * Z) :
  ends_with advances (_handle_item_interaction item p).
Proof.
  unfold _handle_item_interaction.
  repeat first
    [ apply _log_event_advances | apply clear_cell_advances | progress advance ].
Qed.

Lemma move_player_advances (d : string) : ends_with advances (move_player d).
Proof.
  unfold move_player.
  apply (ends_with_bind advances advances_trans); [advance|]. intros g.
  destruct (step d (grid_size g) (player_pos g));
    repeat first
      [ apply _log_event_advances | apply _handle_item_interaction_advances
      | progress advance ].
Qed.

Lemma use_map_advances : ends_with advances use_map.
Proof.
  unfold use_map.
  repeat first [ apply _log_event_advances | progress advance ].
Qed.

Lemma perform_advances (a : action) : ends_with advances (perform a).
Proof.
  destruct a as [d| |reveal_all|filename|]; simpl.
  - apply (ends_with_bind advances advances_trans);
      [apply move_player_advances|intros ?; advance].
  - apply (ends_with_bind advances advances_trans);
      [apply use_map_advances|intros ?; advance].
  - apply (ends_with_keeps advances advances_refl), keeps_game_display_grid.
  - apply (ends_with_bind advances advances_trans); [|intros ?; advance].
    apply (ends_with_keeps advances advances_refl), keeps_game_save_game.
  - apply (ends_with_bind advances advances_trans); [|intros ?; advance].
    apply (ends_with_keeps advances advances_refl), keeps_game_get_status.
Qed.

Lemma perform_all_advances (acts : list action) :
  ends_with advances (perform_all acts).
Proof.
  apply (ends_with_for_each advances advances_refl advances_trans).
  apply perform_advances.
Qed.

(** X1: whatever operations are performed on a game, in any state, they end
    (by a return or by an exception) with a game of the same name, grid size
    and start time; a game that was over is still over; the player holds at
    least as many keys and has made at least as many moves. *)
Theorem operations_never_undo (acts : list action) (g : Game) (w : World) :
  exists g' w', final_state (perform_all acts (g, w)) = Some (g', w')
    /\ player_name g' = player_name g /\ grid_size g' = grid_size g
    /\ start_time g' = start_time g
    /\ (game_over g = true -> game_over g' = true)
    /\ keys (inventory g) <= keys (inventory g')
    /\ moves g <= moves g'.
Proof.
  destruct (perform_all_advances acts g w)
    as ([g' w'] & Hfin & Hn & Hs & Ht & Ho & Hk & Hm & _).
  exists g', w'. done.
Qed.

(** X2: the event log is append-only: whatever operations are performed,
    the log they end with is the log before followed by new entries. *)
Theorem log_append_only (acts : list action) (g : Game) (w : World) :
  exists g' w' added,
    final_state (perform_all acts (g, w)) = Some (g', w')
    /\ game_log g' = game_log g ++ added.
Proof.
  destruct (perform_all_advances acts g w)
    as ([g' w'] & Hfin & _ & _ & _ & _ & _ & _ & [added Hlog]).
  exists g', w', added. done.
Qed.

(** ** Picking up keys, shields and maps *)

Lemma handle_pickup (item : string) (p : Z * Z) (g : Game) (w : World) :
  is_Some (grid_set (grid g) p " ") ->
  item = "K" \/ item = "S" \/ item = "M" ->
  exists g' w', _handle_item_interaction item p (g, w) = Ret tt (g', w')
    /\ score g' = score g /\ game_over g' = game_over g
    /\ grid_set (grid g) p " " = Some (grid g')
    /\ keys (inventory g')
       = keys (inventory g) + (if String.eqb item "K" then 1 else 0)
    /\ shields (inventory g')
       = shields (inventory g) + (if String.eqb item "S" then 1 else 0)
    /\ maps (inventory g')
       = maps (inventory g) + (if String.eqb item "M" then 1 else 0)
    /\ used_map (inventory g') = used_map (inventory g).
Proof.
  intros [gr Hgr] [->|[->| ->]]; run_method; rewrite Hgr; simpl;
    eexists _, _; (split; [reflexivity|]); simpl; repeat split; lia.
Qed.

(** X3: a successful move onto a key, a shield or a map adds one to that
    count of the inventory and to no other, leaves the score and the
    game-over flag as they were, and blanks the cell. *)
Theorem pickup_step (d item : string) (g : Game) (w : World) (p : Z * Z) :
  step d (grid_size g) (player_pos g) = Some p ->
  grid_get (grid g) p = Some item ->
  item = "K" \/ item = "S" \/ item = "M" ->
  exists g' w', move_player d (g, w) = Ret true (g', w')
    /\ player_pos g' = p /\ moves g' = moves g + 1
    /\ score g' = score g /\ game_over g' = game_over g
    /\ grid_get (grid g') p = Some " "
    /\ keys (inventory g')
       = keys (inventory g) + (if String.eqb item "K" then 1 else 0)
    /\ shields (inventory g')
       = shields (inventory g) + (if String.eqb item "S" then 1 else 0)
    /\ maps (inventory g')
       = maps (inventory g) + (if String.eqb item "M" then 1 else 0).
Proof.
  intros Hstep Hitem Hkind.
  pose proof (grid_get_set _ _ _ " " Hitem) as Hset.
  destruct (handle_pickup item p (set_moves (moves g + 1) g) w Hset Hkind)
    as (g1 & w1 & Hrun & Hsc & Hover & Hgr & Hk & Hs & Hm & _).
  destruct (handle_returns item p (set_moves (moves g + 1) g) w Hset)
    as (g1' & w1' & Hrun' & Hframe & _).
  rewrite Hrun in Hrun'. injection Hrun' as <- <-.
  destruct (move_player_returns d g w p item g1 w1 Hstep Hitem Hrun Hframe)
    as (g' & w' & Hmove & Hpos & Hmv & Hsc' & Hinv' & Hover' & Hgr' & _).
  exists g', w'. rewrite Hgr', Hinv', Hsc', Hover'. simpl in *.
  split; [done|]. split; [done|]. split; [done|]. split; [done|].
  split; [done|]. split; [eapply grid_set_get, Hgr|]. done.
Qed.

Lemma pickup_step_witness :
  exists g' w', move_player "down" (sample_game, sample_world) = Ret true (g', w')
    /\ player_pos g' = (1, 0) /\ moves g' = moves sample_game + 1
    /\ score g' = score sample_game /\ game_over g' = game_over sample_game
    /\ grid_get (grid g') (1, 0) = Some " "
    /\ keys (inventory g')
       = keys (inventory sample_game) + (if String.eqb "K" "K" then 1 else 0)
    /\ shields (inventory g')
       = shields (inventory sample_game) + (if String.eqb "K" "S" then 1 else 0)
    /\ maps (inventory g')
       = maps (inventory sample_game) + (if String.eqb "K" "M" then 1 else 0).
Proof.
  apply (pickup_step "down" "K" sample_game sample_world (1, 0)).
  - reflexivity.
  - reflexivity.
  - left. reflexivity.
Defined.

(** ** Moves on a well-formed game *)

Lemma handle_score_delta (item : string) (p : Z * Z) (g : Game) (w : World) :
  is_Some (grid_set (grid g) p " ") ->
  exists g' w', _handle_item_interaction item p (g, w) = Ret tt (g', w')
    /\ (score g' = score g \/ score g' = score g + 100
        \/ score g' = score g - 50 \/ score g' = score g + 200).
Proof.
  intros [gr Hgr]. run_method.
  repeat (match goal with
          | |- context [String.eqb item ?s] => destruct (String.eqb item s)
          | |- context [bool_decide ?P] => destruct (bool_decide P)
          end; simpl);
    rewrite ?Hgr; simpl; eauto 10.
Qed.

(** A move on a well-formed game: it returns, and what it returns tells
    whether the guard of the direction held. *)
Lemma move_player_wf (d : string) (g : Game) (w : World) :
  wf g ->
  exists b g' w', move_player d (g, w) = Ret b (g', w')
    /\ wf g' /\ grid_size g' = grid_size g
    /\ match step d (grid_size g) (player_pos g) with
       | Some p => b = true /\ player_pos g' = p /\ moves g' = moves g + 1
       | None => b = false /\ player_pos g' = player_pos g
                 /\ moves g' = moves g /\ score g' = score g
       end
    /\ (score g' = score g \/ score g' = score g + 100
        \/ score g' = score g - 50 \/ score g' = score g + 200).
Proof.
  intros Hwf.
  destruct (move_player_total d g w Hwf) as (b & g' & w' & Hmove & Hwf' & Hgs & _).
  exists b, g', w'. split; [done|]. split; [done|]. split; [done|].
  destruct Hwf as [Hsq Hpos].
  destruct (step d (grid_size g) (player_pos g)) as [p|] eqn:Hstep.
  - pose proof (step_in_bounds _ _ _ _ Hpos Hstep) as Hp.
    destruct (square_get _ _ _ Hsq Hp) as [item Hitem].
    pose proof (grid_get_set _ _ _ " " Hitem) as Hset.
    destruct (handle_returns item p (set_moves (moves g + 1) g) w Hset)
      as (g1 & w1 & Hrun & Hframe & _).
    destruct (handle_score_delta item p (set_moves (moves g + 1) g) w Hset)
      as (g1' & w1' & Hrun' & Hdelta).
    rewrite Hrun in Hrun'. injection Hrun' as <- <-.
    destruct (move_player_returns d g w p item g1 w1 Hstep Hitem Hrun Hframe)
      as (g2 & w2 & Hmove2 & Hpos2 & Hmv2 & Hsc2 & _).
    rewrite Hmove in Hmove2. injection Hmove2 as -> <- <-.
    rewrite Hsc2. simpl in Hdelta. done.
  - rewrite move_player_invalid in Hmove by done.
    injection Hmove as <- <- <-. simpl. split; [done|]. by left.
Qed.

(** X4: a string that is none of "up", "down", "left" and "right" is
    refused like a move off the grid, in every state: [move_player] returns
    [False], the game changes by one log entry only. *)
Theorem move_unknown_direction (d : string) (g : Game) (w : World) :
  d <> "up" -> d <> "down" -> d <> "left" -> d <> "right" ->
  exists g' w' entry,
    move_player d (g, w) = Ret false (g', w')
    /\ g' = set_game_log (game_log g ++ [entry]) g
    /\ console w' = console w ++ [Print "You can't move in that direction!"].
Proof.
  intros Hu Hd Hl Hr. rewrite move_player_invalid.
  - eexists _, _, _. split; [reflexivity|]. done.
  - unfold step. apply String.eqb_neq in Hu, Hd, Hl, Hr.
    rewrite Hu, Hd, Hl, Hr. reflexivity.
Qed.

Lemma move_unknown_direction_witness :
  exists g' w' entry,
    move_player "north" (sample_game, sample_world) = Ret false (g', w')
    /\ g' = set_game_log (game_log sample_game ++ [entry]) sample_game
    /\ console w'
       = console sample_world ++ [Print "You can't move in that direction!"].
Proof.
  apply (move_unknown_direction "north" sample_game sample_world);
    discriminate.
Defined.

(** X5: every move changes the score by 0, +100, -50 or +200 and by nothing
    else; a refused move changes neither the score, the position nor the
    moves counter, and an accepted one counts exactly one move. *)
Theorem move_score_delta (d : string) (g : Game) (w : World) :
  wf g ->
  exists b g' w', move_player d (g, w) = Ret b (g', w')
    /\ (score g' = score g \/ score g' = score g + 100
        \/ score g' = score g - 50 \/ score g' = score g + 200)
    /\ (b = false ->
        score g' = score g /\ player_pos g' = player_pos g
        /\ moves g' = moves g)
    /\ (b = true -> moves g' = moves g + 1).
Proof.
  intros Hwf.
  destruct (move_player_wf d g w Hwf)
    as (b & g' & w' & Hmove & _ & _ & Hcase & Hdelta).
  exists b, g', w'. split; [done|]. split; [done|].
  destruct (step d (grid_size g) (player_pos g)).
  - destruct Hcase as (-> & _ & Hmv). split; [done|]. done.
  - destruct Hcase as (-> & Hpos & Hmv & Hsc). split; [done|]. done.
Qed.

Lemma move_score_delta_witness :
  exists b g' w', move_player "right" (near_treasure, sample_world) = Ret b (g', w')
    /\ (score g' = score near_treasure \/ score g' = score near_treasure + 100
        \/ score g' = score near_treasure - 50
        \/ score g' = score near_treasure + 200)
    /\ (b = false ->
        score g' = score near_treasure
        /\ player_pos g' = player_pos near_treasure
        /\ moves g' = moves near_treasure)
    /\ (b = true -> moves g' = moves near_treasure + 1).
Proof.
  apply (move_score_delta "right" near_treasure sample_world).
  split; [split; [reflexivity|]|].
  - repeat constructor.
  - unfold in_bounds. simpl. lia.
Defined.

Lemma step_opposite (d : string) (gs : Z) (pos p : Z * Z) :
  in_bounds gs pos -> step d gs pos = Some p ->
  step (opposite d) gs p = Some pos.
Proof.
  intros [Hr Hc]. unfold step, opposite.
  destruct pos as [r c]. simpl in *.
  destruct (String.eqb_spec d "up") as [->|_]; simpl.
  { case_bool_decide; simpl; [|done]. intros [= <-]. simpl.
    rewrite bool_decide_eq_true_2 by lia. simpl. f_equal. f_equal. lia. }
  destruct (String.eqb_spec d "down") as [->|_]; simpl.
  { case_bool_decide; simpl; [|done]. intros [= <-]. simpl.
    rewrite bool_decide_eq_true_2 by lia. simpl. f_equal. f_equal. lia. }
  destruct (String.eqb_spec d "left") as [->|_]; simpl.
  { case_bool_decide; simpl; [|done]. intros [= <-]. simpl.
    rewrite bool_decide_eq_true_2 by lia. simpl. f_equal. f_equal. lia. }
  destruct (String.eqb_spec d "right") as [->|_]; simpl; [|done].
  case_bool_decide; simpl; [|done]. intros [= <-]. simpl.
  rewrite bool_decide_eq_true_2 by lia. simpl. f_equal. f_equal. lia.
Qed.

(** X6: on a well-formed game, an accepted move followed by the move in the
    opposite direction is accepted too and brings the player back to where
    it was, two moves later. *)
Theorem move_there_and_back (d : string) (g : Game) (w : World) (p : Z * Z) :
  wf g -> step d (grid_size g) (player_pos g) = Some p ->
  exists g1 w1 g2 w2,
    move_player d (g, w) = Ret true (g1, w1)
    /\ player_pos g1 = p
    /\ move_player (opposite d) (g1, w1) = Ret true (g2, w2)
    /\ player_pos g2 = player_pos g /\ moves g2 = moves g + 2.
Proof.
  intros Hwf Hstep.
  destruct (move_player_wf d g w Hwf)
    as (b & g1 & w1 & Hmove & Hwf1 & Hgs1 & Hcase & _).
  rewrite Hstep in Hcase. destruct Hcase as (-> & Hpos1 & Hmv1).
  destruct (move_player_wf (opposite d) g1 w1 Hwf1)
    as (b & g2 & w2 & Hmove2 & _ & _ & Hcase & _).
  rewrite Hgs1, Hpos1 in Hcase.
  rewrite (step_opposite d _ (player_pos g) p) in Hcase by (done || apply Hwf).
  destruct Hcase as (-> & Hpos2 & Hmv2).
  exists g1, w1, g2, w2. repeat split; try done. lia.
Qed.

Lemma move_there_and_back_witness :
  exists g1 w1 g2 w2,
    move_player "down" (sample_game, sample_world) = Ret true (g1, w1)
    /\ player_pos g1 = (1, 0)
    /\ move_player (opposite "down") (g1, w1) = Ret true (g2, w2)
    /\ player_pos g2 = player_pos sample_game
    /\ moves g2 = moves sample_game + 2.
Proof.
  apply (move_there_and_back "down" sample_game sample_world (1, 0)).
  - split; [split; [reflexivity|]|].
    + repeat constructor.
    + unfold in_bounds. simpl. lia.
  - reflexivity.
Defined.

(** X7: the moves counter counts the accepted moves: after any sequence of
    calls of [move_player] on a well-formed game, all of which return, it has
    grown by the number of calls that returned [True]. *)
Theorem moves_counts_successes (ds : list string) (g : Game) (w : World) :
  wf g ->
  exists bs g' w', move_all ds (g, w) = Ret bs (g', w')
    /\ length bs = length ds
    /\ moves g' = moves g + successes bs /\ wf g'.
Proof.
  revert g w. induction ds as [|d ds IH]; intros g w Hwf.
  - exists [], g, w. split; [reflexivity|]. unfold successes. simpl.
    split; [done|]. split; [lia|done].
  - destruct (move_player_wf d g w Hwf)
      as (b & g1 & w1 & Hmove & Hwf1 & _ & Hcase & _).
    destruct (IH g1 w1 Hwf1) as (bs & g' & w' & Hrest & Hlen & Hmv & Hwf').
    exists (b :: bs), g', w'. simpl. unfold bind at 1. rewrite Hmove.
    unfold bind at 1. rewrite Hrest. split; [reflexivity|].
    split; [simpl; lia|]. split; [|done]. rewrite Hmv.
    unfold successes in *. simpl.
    destruct (step d (grid_size g) (player_pos g)).
    + destruct Hcase as (-> & _ & ->). rewrite filter_cons_True by done.
      simpl. lia.
    + destruct Hcase as (-> & _ & -> & _). rewrite filter_cons_False by done.
      lia.
Qed.

Lemma moves_counts_successes_witness :
  exists bs g' w',
    move_all ["up"; "right"; "down"] (sample_game, sample_world) = Ret bs (g', w')
    /\ length bs = length ["up"; "right"; "down"]
    /\ moves g' = moves sample_game + successes bs /\ wf g'.
Proof.
  apply (moves_counts_successes ["up"; "right"; "down"] sample_game sample_world).
  split; [split; [reflexivity|]|].
  - repeat constructor.
  - unfold in_bounds. simpl. lia.
Defined.

(** ** The map *)

(** X8: on a well-formed game [use_map] returns.  Without a map it returns
    [False], prints one line and leaves the game as it was, log included.
    With one it returns [True]: it takes the map, raises the flag
    "used_map", prints its message and logs the use; then it renders the
    game in that state with every cell revealed, and that rendering returns;
    then it pauses 5 seconds and lowers the flag.  Score, grid, position,
    moves, keys and shields are untouched in both cases. *)
Theorem use_map_effect (g : Game) (w : World) :
  wf g ->
  exists b g' w', use_map (g, w) = Ret b (g', w')
    /\ score g' = score g /\ grid g' = grid g
    /\ player_pos g' = player_pos g /\ moves g' = moves g
    /\ game_over g' = game_over g
    /\ keys (inventory g') = keys (inventory g)
    /\ shields (inventory g') = shields (inventory g)
    /\ (maps (inventory g) > 0 ->
        let shown := using_map g (clock w (clock_pos w)) in
        let message :=
          Print "You used a map! The entire grid is revealed for this turn." in
        b = true /\ maps (inventory g') = maps (inventory g) - 1
        /\ used_map (inventory g') = Some false
        /\ game_log g' = game_log shown
        /\ g' = set_inventory (set_used_map false (inventory shown)) shown
        /\ exists w2,
             display_grid true (shown, next_tick (emit message w))
             = Ret tt (shown, w2)
             /\ w' = emit (Sleep 5) w2)
    /\ (maps (inventory g) <= 0 ->
        b = false /\ g' = g
        /\ w' = emit (Print "You don't have any maps to use!") w).
Proof.
  intros Hwf. unfold use_map. unfold bind at 1, self at 1. simpl.
  case_bool_decide as Hmaps.
  - do 2 (unfold bind at 1, update at 1, modify at 1; simpl).
    unfold bind at 1, print at 1, modify at 1. simpl.
    unfold bind at 1, _log_event, bind at 1, now, update, modify. simpl.
    unfold bind at 1.
    match goal with
    | |- context [display_grid true (?g1, ?w1)] =>
        destruct (display_grid_returns true g1 w1) as [w2 Hshow]; [exact Hwf|];
        rewrite Hshow
    end.
    eexists _, _, _. split; [reflexivity|]. simpl.
    do 7 (split; [done|]). split; [|intros; lia].
    intros _. do 5 (split; [done|]). exists w2. split; [exact Hshow|done].
  - eexists _, _, _. split; [reflexivity|]. simpl.
    do 7 (split; [done|]). split; [intros; lia|]. intros _. by destruct g.
Qed.

Lemma use_map_effect_witness :
  exists b g' w', use_map (mapped_game, sample_world) = Ret b (g', w')
    /\ score g' = score mapped_game /\ grid g' = grid mapped_game
    /\ player_pos g' = player_pos mapped_game /\ moves g' = moves mapped_game
    /\ game_over g' = game_over mapped_game
    /\ keys (inventory g') = keys (inventory mapped_game)
    /\ shields (inventory g') = shields (inventory mapped_game)
    /\ (maps (inventory mapped_game) > 0 ->
        let shown :=
          using_map mapped_game (clock sample_world (clock_pos sample_world)) in
        let message :=
          Print "You used a map! The entire grid is revealed for this turn." in
        b = true /\ maps (inventory g') = maps (inventory mapped_game) - 1
        /\ used_map (inventory g') = Some false
        /\ game_log g' = game_log shown
        /\ g' = set_inventory (set_used_map false (inventory shown)) shown
        /\ exists w2,
             display_grid true (shown, next_tick (emit message sample_world))
             = Ret tt (shown, w2)
             /\ w' = emit (Sleep 5) w2)
    /\ (maps (inventory mapped_game) <= 0 ->
        b = false /\ g' = mapped_game
        /\ w' = emit (Print "You don't have any maps to use!") sample_world).
Proof.
  apply (use_map_effect mapped_game sample_world).
  split; [split; [reflexivity|]|].
  - repeat constructor.
  - unfold in_bounds. simpl. lia.
Defined.

(** ** Operations on a well-formed game *)

Lemma handle_flag (item : string) (p : Z * Z) (g : Game) (w : World) :
  is_Some (grid_set (grid g) p " ") ->
  exists g' w', _handle_item_interaction item p (g, w) = Ret tt (g', w')
    /\ used_map (inventory g') = used_map (inventory g).
Proof.
  intros [gr Hgr]. run_method.
  repeat (match goal with
          | |- context [String.eqb item ?s] => destruct (String.eqb item s)
          | |- context [bool_decide ?P] => destruct (bool_decide P)
          end; simpl);
    rewrite ?Hgr; simpl; eauto.
Qed.

Lemma move_player_flag (d : string) (g : Game) (w : World) :
  wf g ->
  exists b g' w', move_player d (g, w) = Ret b (g', w')
    /\ wf g' /\ grid_size g' = grid_size g
    /\ used_map (inventory g') = used_map (inventory g).
Proof.
  intros Hwf.
  destruct (move_player_total d g w Hwf) as (b & g' & w' & Hmove & Hwf' & Hgs & _).
  exists b, g', w'. split; [done|]. split; [done|]. split; [done|].
  destruct Hwf as [Hsq Hpos].
  destruct (step d (grid_size g) (player_pos g)) as [p|] eqn:Hstep.
  - pose proof (step_in_bounds _ _ _ _ Hpos Hstep) as Hp.
    destruct (square_get _ _ _ Hsq Hp) as [item Hitem].
    pose proof (grid_get_set _ _ _ " " Hitem) as Hset.
    destruct (handle_returns item p (set_moves (moves g + 1) g) w Hset)
      as (g1 & w1 & Hrun & Hframe & _).
    destruct (handle_flag item p (set_moves (moves g + 1) g) w Hset)
      as (g1' & w1' & Hrun' & Hflag).
    rewrite Hrun in Hrun'. injection Hrun' as <- <-.
    destruct (move_player_returns d g w p item g1 w1 Hstep Hitem Hrun Hframe)
      as (g2 & w2 & Hmove2 & _ & _ & _ & Hinv2 & _).
    rewrite Hmove in Hmove2. injection Hmove2 as -> <- <-.
    rewrite Hinv2. exact Hflag.
  - rewrite move_player_invalid in Hmove by done.
    by injection Hmove as <- <- <-.
Qed.

Lemma use_map_flag (g : Game) (w : World) :
  wf g ->
  exists b g' w', use_map (g, w) = Ret b (g', w')
    /\ wf g' /\ grid_size g' = grid_size g
    /\ (used_map (inventory g') = Some false
        \/ used_map (inventory g') = used_map (inventory g)).
Proof.
  intros Hwf. unfold use_map. unfold bind at 1, self at 1. simpl.
  case_bool_decide as Hmaps.
  - do 2 (unfold bind at 1, update at 1, modify at 1; simpl).
    unfold bind at 1, print at 1, modify at 1. simpl.
    unfold bind at 1, _log_event, bind at 1, now, update, modify. simpl.
    unfold bind at 1.
    match goal with
    | |- context [display_grid true (?g1, ?w1)] =>
        destruct (display_grid_returns true g1 w1) as [w2 ->]; [exact Hwf|]
    end.
    eexists _, _, _. split; [reflexivity|]. split; [exact Hwf|].
    split; [done|]. by left.
  - eexists _, _, _. split; [reflexivity|]. split; [exact Hwf|].
    split; [done|]. by right.
Qed.

Lemma perform_flag (a : action) (g : Game) (w : World) :
  wf g -> used_map (inventory g) <> Some true ->
  exists g' w', perform a (g, w) = Ret tt (g', w')
    /\ wf g' /\ grid_size g' = grid_size g
    /\ used_map (inventory g') <> Some true.
Proof.
  intros Hwf Hflag. destruct a as [d| |reveal_all|filename|]; simpl.
  - destruct (move_player_flag d g w Hwf) as (b & g' & w' & Hmove & ? & ? & Hf).
    unfold bind. rewrite Hmove. eexists _, _. split; [reflexivity|].
    rewrite Hf. done.
  - destruct (use_map_flag g w Hwf) as (b & g' & w' & Hrun & ? & ? & Hf).
    unfold bind. rewrite Hrun. eexists _, _. split; [reflexivity|].
    split; [done|]. split; [done|]. destruct Hf as [-> | ->]; done.
  - destruct (display_grid_returns reveal_all g w Hwf) as [w' ->].
    eexists _, _. split; [reflexivity|]. done.
  - eexists _, _. split; [reflexivity|]. done.
  - eexists _, _. split; [reflexivity|]. done.
Qed.

(** X9: on a well-formed game whose flag "used_map" is not raised, no move,
    map use, rendering or status request raises an exception: every
    sequence of them returns, and leaves a well-formed game of the same size
    whose flag is not raised either, so that the reveal of a map never
    outlives [use_map].  Saving is left out: it fails when the file cannot
    be written. *)
Theorem operations_return (acts : list action) (g : Game) (w : World) :
  wf g -> used_map (inventory g) <> Some true ->
  Forall (fun a => writes_file a = false) acts ->
  exists g' w', perform_all acts (g, w) = Ret tt (g', w')
    /\ wf g' /\ grid_size g' = grid_size g
    /\ used_map (inventory g') <> Some true.
Proof.
  intros Hwf Hflag Hacts. revert g w Hwf Hflag.
  induction Hacts as [|a acts _ _ IH]; intros g w Hwf Hflag.
  - eexists _, _. split; [reflexivity|]. done.
  - destruct (perform_flag a g w Hwf Hflag)
      as (g1 & w1 & Hrun & Hwf1 & Hgs1 & Hflag1).
    destruct (IH g1 w1 Hwf1 Hflag1) as (g2 & w2 & Hrun2 & Hwf2 & Hgs2 & Hflag2).
    exists g2, w2. unfold perform_all in *. simpl. unfold bind at 1.
    rewrite Hrun. split; [done|]. split; [done|]. split; [congruence|done].
Qed.

Lemma operations_return_witness :
  exists g' w',
    perform_all [Move "right"; UseMap; Display false; Move "up"; GetStatus;
                 Move "down"; Display true] (mapped_game, sample_world)
    = Ret tt (g', w')
    /\ wf g' /\ grid_size g' = grid_size mapped_game
    /\ used_map (inventory g') <> Some true.
Proof.
  apply (operations_return
           [Move "right"; UseMap; Display false; Move "up"; GetStatus;
            Move "down"; Display true] mapped_game sample_world).
  - split; [split; [reflexivity|]|].
    + repeat constructor.
    + unfold in_bounds. simpl. lia.
  - discriminate.
  - repeat constructor.
Defined.

(** ** What the constructor builds *)

(** A placement loop that returns has put its symbol on as many fresh
    squares as it had items left to place. *)
Lemma place_loop_stocks (gs : Z) (sym : string) (count : Z) (fuel : nat) :
  forall (placed : Z) (items : list ((Z * Z) * string)) (g g' : Game)
         (w w' : World),
    1 <= gs -> sym <> " " -> grid_size g = gs -> wf g ->
    stocked gs items g ->
    place_loop fuel sym count placed (g, w) = Ret tt (g', w') ->
    exists new : list (Z * Z),
      grid_size g' = gs /\ wf g'
      /\ stocked gs (((fun q => (q, sym)) <$> new) ++ items) g'
      /\ player_pos g' = player_pos g
      /\ length new = Z.to_nat (count - placed).
Proof.
  induction fuel as [|fuel IH];
    intros placed items g g' w w' Hgs Hsym Hsize Hwf Hst Hrun.
  - simpl in Hrun. case_bool_decide as Hlt; [done|].
    injection Hrun as <- <-. exists [].
    split; [done|]. split; [done|]. split; [done|]. split; [done|].
    simpl. lia.
  - destruct (decide (placed < count)) as [Hlt|Hge]; cycle 1.
    { simpl in Hrun. rewrite bool_decide_eq_false_2 in Hrun by done.
      injection Hrun as <- <-. exists [].
      split; [done|]. split; [done|]. split; [done|]. split; [done|].
      simpl. lia. }
    rewrite place_loop_step in Hrun by (rewrite ?Hsize; done).
    rewrite Hsize in Hrun.
    pose proof (pair_at_in_bounds gs w 0 Hgs) as Hp0.
    set (p0 := ((pair_at gs w 0).2, (pair_at gs w 0).1)) in *.
    destruct (grid_get (grid g) p0) as [c|] eqn:Hc; [|done].
    destruct (String.eqb c " " && negb (bool_decide (p0 = player_pos g)))
      eqn:Htest;
      [|by apply (IH placed items g g' (next_draw (next_draw w)) w')].
    apply andb_true_iff in Htest as [Hblank Hnp].
    apply String.eqb_eq in Hblank as ->.
    apply negb_true_iff, bool_decide_eq_false in Hnp.
    destruct (grid_set (grid g) p0 sym) as [gr|] eqn:Hgr; [|done].
    destruct Hwf as [Hsq Hpos]. rewrite Hsize in Hsq, Hpos.
    destruct Hst as (Hnodup & Hcells & Hrest).
    assert (Hfresh : p0 ∉ items.*1).
    { intros Hin. apply list_elem_of_fmap in Hin as ([q s] & Hq & Hin).
      simpl in Hq. subst q.
      destruct (Hcells p0 s Hin) as (_ & _ & Hs & Hne). congruence. }
    destruct (IH (placed + 1) ((p0, sym) :: items) (set_grid gr g) g'
                (next_draw (next_draw w)) w')
      as (new & Hs' & Hwf' & Hst' & Hp' & Hlen); try done.
    + split; simpl; rewrite Hsize; [by eapply grid_set_square|done].
    + split; [|split].
      * csimpl. by constructor.
      * intros q s Hq. simpl. apply elem_of_cons in Hq as [[= -> ->]|Hq].
        -- split; [done|]. split; [done|]. split; [|done].
           by eapply grid_set_get.
        -- destruct (Hcells q s Hq) as (Hqb & Hqp & Hqc & Hne).
           split; [done|]. split; [done|]. split; [|done].
           rewrite (grid_set_get_other gs (grid g) gr q p0 sym); try done.
           intros ->. apply Hfresh. apply list_elem_of_fmap.
           exists (p0, s). done.
      * intros p Hp Hout. simpl. csimpl in Hout.
        apply not_elem_of_cons in Hout as [Hne Hout].
        rewrite (grid_set_get_other gs (grid g) gr p p0 sym); auto.
    + exists (new ++ [p0]).
      split; [done|]. split; [done|]. split; [|split; [done|]].
      * rewrite fmap_app, <- app_assoc. exact Hst'.
      * rewrite length_app. simpl. lia.
Qed.

Lemma length_filter_block (sym sym' : string) (new : list (Z * Z)) :
  length (filter (fun it : (Z * Z) * string => it.2 = sym)
            ((fun q => (q, sym')) <$> new))
  = if decide (sym' = sym) then length new else 0%nat.
Proof.
  induction new as [|q new IH]; csimpl; [by destruct (decide _)|].
  rewrite filter_cons. simpl. destruct (decide (sym' = sym)); simpl; lia.
Qed.

(** The squares that hold a symbol, read off the stock of the grid. *)
Lemma stocked_holds (gs : Z) (items : list ((Z * Z) * string)) (g : Game)
    (sym : string) :
  grid_size g = gs -> sym <> " " -> stocked gs items g ->
  holds_exactly g sym
    (length (filter (fun it : (Z * Z) * string => it.2 = sym) items)).
Proof.
  intros Hsize Hsym (Hnodup & Hcells & Hrest).
  exists ((filter (fun it : (Z * Z) * string => it.2 = sym) items).*1).
  split; [|split; [by rewrite length_fmap|]].
  - apply (sublist_NoDup _ (items.*1)); [done|].
    apply fmap_sublist, sublist_filter.
  - intros p. rewrite Hsize. split.
    + intros Hin. apply list_elem_of_fmap in Hin as ([q s] & -> & Hin).
      apply list_elem_of_filter in Hin as [Hs Hin]. simpl in *. subst s.
      by destruct (Hcells q sym Hin) as (? & _ & ? & _).
    + intros [Hp Hget]. destruct (decide (p ∈ items.*1)) as [Hin|Hout].
      * apply list_elem_of_fmap in Hin as ([q s] & -> & Hin). simpl in *.
        destruct (Hcells q s Hin) as (_ & _ & Hs & _).
        assert (s = sym) as -> by congruence.
        apply list_elem_of_fmap. exists (q, sym). split; [done|].
        apply list_elem_of_filter. done.
      * rewrite (Hrest p Hp Hout) in Hget. congruence.
Qed.

(** The number of squares that hold a symbol is determined by the grid. *)
Lemma holds_exactly_unique (g : Game) (sym : string) (n m : nat) :
  holds_exactly g sym n -> holds_exactly g sym m -> n = m.
Proof.
  intros (l & Hnd & <- & Hl) (k & Hnd' & <- & Hk).
  apply Permutation_length, NoDup_Permutation; [done..|].
  intros p. by rewrite Hl, Hk.
Qed.

Lemma _place_items_stocks (gs : Z) (fuel : nat) (g g' : Game) (w w' : World) :
  1 <= gs -> grid_size g = gs -> wf g -> stocked gs [] g ->
  _place_items fuel (g, w) = Ret tt (g', w') ->
  exists items,
    grid_size g' = gs /\ wf g' /\ stocked gs items g'
    /\ player_pos g' = player_pos g
    /\ forall sym,
         length (filter (fun it : (Z * Z) * string => it.2 = sym) items)
         = if decide (sym = "T") then 3%nat
           else if decide (sym = "X") then 4%nat
           else if decide (sym = "K") then 2%nat
           else if decide (sym = "S") then 2%nat
           else if decide (sym = "M") then 1%nat
           else if decide (sym = "E") then 1%nat
           else 0%nat.
Proof.
  intros Hgs Hsize Hwf Hst Hplace.
  unfold _place_items, _place_random_items in Hplace.
  apply bind_Ret in Hplace; destruct Hplace as ([] & [h1 v1] & H1 & Hplace).
  apply bind_Ret in Hplace; destruct Hplace as ([] & [h2 v2] & H2 & Hplace).
  apply bind_Ret in Hplace; destruct Hplace as ([] & [h3 v3] & H3 & Hplace).
  apply bind_Ret in Hplace; destruct Hplace as ([] & [h4 v4] & H4 & Hplace).
  apply bind_Ret in Hplace; destruct Hplace as ([] & [h5 v5] & H5 & H6).
  destruct (place_loop_stocks gs "T" 3 fuel 0 [] g h1 w v1
              Hgs ltac:(done) Hsize Hwf Hst H1)
    as (n1 & Hs1 & Hwf1 & Hst1 & Hp1 & Hl1).
  destruct (place_loop_stocks gs "X" 4 fuel 0 _ h1 h2 v1 v2
              Hgs ltac:(done) Hs1 Hwf1 Hst1 H2)
    as (n2 & Hs2 & Hwf2 & Hst2 & Hp2 & Hl2).
  destruct (place_loop_stocks gs "K" 2 fuel 0 _ h2 h3 v2 v3
              Hgs ltac:(done) Hs2 Hwf2 Hst2 H3)
    as (n3 & Hs3 & Hwf3 & Hst3 & Hp3 & Hl3).
  destruct (place_loop_stocks gs "S" 2 fuel 0 _ h3 h4 v3 v4
              Hgs ltac:(done) Hs3 Hwf3 Hst3 H4)
    as (n4 & Hs4 & Hwf4 & Hst4 & Hp4 & Hl4).
  destruct (place_loop_stocks gs "M" 1 fuel 0 _ h4 h5 v4 v5
              Hgs ltac:(done) Hs4 Hwf4 Hst4 H5)
    as (n5 & Hs5 & Hwf5 & Hst5 & Hp5 & Hl5).
  destruct (place_loop_stocks gs "E" 1 fuel 0 _ h5 g' v5 w'
              Hgs ltac:(done) Hs5 Hwf5 Hst5 H6)
    as (n6 & Hs6 & Hwf6 & Hst6 & Hp6 & Hl6).
  eexists. split; [done|]. split; [done|]. split; [exact Hst6|].
  split; [congruence|]. intros sym.
  rewrite !filter_app, !length_app, !length_filter_block.
  rewrite Hl1, Hl2, Hl3, Hl4, Hl5, Hl6.
  change (length (filter _ [])) with 0%nat.
  repeat case_decide; simplify_eq; reflexivity.
Qed.

(** The constructor, taken apart: the game before the placement, the
    placement, the first log entry. *)
Lemma __init___inv (fuel : nat) (name : string) (gs : Z) (w w' : World)
    (g : Game) :
  __init__ fuel name gs w = Ret g w' ->
  exists (r c : Z) (g1 : Game) (w1 : World) (t : datetime),
    0 <= r < gs /\ 0 <= c < gs
    /\ _place_items fuel
         ({| player_name := name; grid_size := gs; score := 0; moves := 0;
             game_over := false; start_time := clock w (clock_pos w);
             grid := replicate (Z.to_nat gs) (replicate (Z.to_nat gs) " ");
             player_pos := (r, c); inventory := empty_inventory;
             game_log := [] |},
          next_draw (next_draw (next_tick w)))
       = Ret tt (g1, w1)
    /\ g = set_game_log ["[" +:+ hms t +:+ "] Game started"] g1.
Proof.
  unfold __init__. intros H.
  apply bind_Ret in H; destruct H as (t & w1 & Ht & H).
  injection Ht as <- <-.
  apply bind_Ret in H; destruct H as (r & w2 & Hr & H).
  apply bind_Ret in H; destruct H as (c & w3 & Hc & H).
  apply randint_Ret in Hr as [Hr ->]. apply randint_Ret in Hc as [Hc ->].
  apply bind_Ret in H; destruct H as ([[] g1] & w4 & Hon & Hret).
  injection Hret as <- <-. unfold on in Hon.
  match type of Hon with
  | context [bind ?m ?k ?s0] =>
      destruct (bind m k s0) as [[] [g2 w5]|e s| |] eqn:Hrun; [|done..]
  end.
  injection Hon as <- <-.
  apply bind_Ret in Hrun; destruct Hrun as ([] & [g3 w6] & Hplace & Hlog).
  pose proof (_place_items_frame _ _ _ _ _ Hplace) as Hframe.
  unfold _log_event, bind, now, update, modify in Hlog. simpl in Hlog.
  injection Hlog as <- <-.
  exists r, c, g3, w6, (clock w6 (clock_pos w6)).
  split; [lia|]. split; [lia|]. split; [exact Hplace|].
  rewrite Hframe. reflexivity.
Qed.

(** X10: a game the constructor returns is well-formed, on a grid of size 4
    or more, with the name and the size asked for, a score of 0, no move, an
    empty inventory, a log of one entry, not over, started at the first
    reading of the clock; and the square of the player is blank. *)
Theorem constructor_fresh (fuel : nat) (name : string) (gs : Z) (w w' : World)
    (g : Game) :
  __init__ fuel name gs w = Ret g w' ->
  wf g /\ 4 <= gs
  /\ player_name g = name /\ grid_size g = gs
  /\ score g = 0 /\ moves g = 0 /\ game_over g = false
  /\ inventory g = empty_inventory
  /\ start_time g = clock w (clock_pos w)
  /\ (exists t, game_log g = ["[" +:+ hms t +:+ "] Game started"])
  /\ grid_get (grid g) (player_pos g) = Some " ".
Proof.
  intros Hinit. pose proof (__init___wf _ _ _ _ _ _ Hinit) as [Hwf H4].
  pose proof (__init___fresh _ _ _ _ _ _ Hinit) as (_ & _ & _ & Hsize).
  rewrite Hsize in H4.
  apply __init___inv in Hinit as (r & c & g1 & w1 & t & Hr & Hc & Hplace & ->).
  pose proof (_place_items_frame _ _ _ _ _ Hplace) as Hframe.
  match type of Hplace with
  | _place_items _ (?g0, _) = _ => set (start := g0) in *
  end.
  destruct (_place_items_stocks gs fuel start g1
              (next_draw (next_draw (next_tick w))) w1) as
      (items & _ & _ & (_ & Hcells & Hrest) & Hpos & _); try done; try lia.
  { split; simpl; [apply replicate_grid_square; lia|done]. }
  { split; [constructor|]. split.
    - intros q s Hq. by apply elem_of_nil in Hq.
    - intros p Hp _. by apply replicate_grid_blank. }
  split; [exact Hwf|]. split; [exact H4|]. simpl.
  split; [by rewrite Hframe|]. split; [by rewrite Hframe|].
  split; [by rewrite Hframe|]. split; [by rewrite Hframe|].
  split; [by rewrite Hframe|]. split; [by rewrite Hframe|].
  split; [by rewrite Hframe|]. split; [eauto|].
  apply Hrest.
  - rewrite Hpos. done.
  - intros Hin. apply list_elem_of_fmap in Hin as ([q s] & Hq & Hin).
    simpl in Hq. destruct (Hcells q s Hin) as (_ & Hne & _). congruence.
Qed.

Lemma constructor_fresh_witness :
  __init__ 20 "Ann" 5 sample_world = Ret built built_world
  /\ wf built /\ 4 <= 5
  /\ player_name built = "Ann" /\ grid_size built = 5
  /\ score built = 0 /\ moves built = 0 /\ game_over built = false
  /\ inventory built = empty_inventory
  /\ start_time built = clock sample_world (clock_pos sample_world)
  /\ (exists t, game_log built = ["[" +:+ hms t +:+ "] Game started"])
  /\ grid_get (grid built) (player_pos built) = Some " ".
Proof.
  assert (Hinit : __init__ 20 "Ann" 5 sample_world = Ret built built_world)
    by (vm_compute; reflexivity).
  split; [exact Hinit|].
  exact (constructor_fresh 20 "Ann" 5 sample_world built_world built Hinit).
Defined.

(** X11: the grid of a game the constructor returns holds exactly 3
    treasures, 4 traps, 2 keys, 2 shields, 1 map and 1 exit. *)
Theorem constructor_stock (fuel : nat) (name : string) (gs : Z) (w w' : World)
    (g : Game) :
  __init__ fuel name gs w = Ret g w' ->
  holds_exactly g "T" 3 /\ holds_exactly g "X" 4 /\ holds_exactly g "K" 2
  /\ holds_exactly g "S" 2 /\ holds_exactly g "M" 1 /\ holds_exactly g "E" 1.
Proof.
  intros Hinit.
  apply __init___inv in Hinit as (r & c & g1 & w1 & t & Hr & Hc & Hplace & ->).
  match type of Hplace with
  | _place_items _ (?g0, _) = _ => set (start := g0) in *
  end.
  destruct (_place_items_stocks gs fuel start g1
              (next_draw (next_draw (next_tick w))) w1) as
      (items & Hsize & _ & Hst & _ & Hcount); try done; try lia.
  { split; simpl; [apply replicate_grid_square; lia|done]. }
  { split; [constructor|]. split.
    - intros q s Hq. by apply elem_of_nil in Hq.
    - intros p Hp _. by apply replicate_grid_blank. }
  assert (Hholds : forall sym n, sym <> " " ->
            length (filter (fun it : (Z * Z) * string => it.2 = sym) items) = n ->
            holds_exactly (set_game_log ["[" +:+ hms t +:+ "] Game started"] g1)
              sym n).
  { intros sym n Hsym <-.
    destruct (stocked_holds gs items g1 sym Hsize Hsym Hst) as (l & Hl).
    exists l. exact Hl. }
  repeat split; apply Hholds; try done; by rewrite Hcount.
Qed.

Lemma constructor_stock_witness :
  __init__ 20 "Ann" 5 sample_world = Ret built built_world
  /\ holds_exactly built "T" 3 /\ holds_exactly built "X" 4
  /\ holds_exactly built "K" 2 /\ holds_exactly built "S" 2
  /\ holds_exactly built "M" 1 /\ holds_exactly built "E" 1.
Proof.
  assert (Hinit : __init__ 20 "Ann" 5 sample_world = Ret built built_world)
    by (vm_compute; reflexivity).
  split; [exact Hinit|].
  exact (constructor_stock 20 "Ann" 5 sample_world built_world built Hinit).
Defined.

(** X12: with a fair random generator, the constructor returns on every
    grid of size 4 or more: some amount of fuel is enough, and so is any
    larger amount, for the same game. *)
Theorem constructor_returns (name : string) (gs : Z) (w : World) :
  4 <= gs -> fair gs w ->
  exists (fuel : nat) (g : Game) (w' : World),
    forall f, __init__ (fuel + f) name gs w = Ret g w'.
Proof. intros Hgs Hfair. by apply __init___returns. Qed.

Lemma constructor_returns_witness :
  exists (fuel : nat) (g : Game) (w' : World),
    forall f, __init__ (fuel + f) "Ann" 5 sample_world = Ret g w'.
Proof.
  apply (constructor_returns "Ann" 5 sample_world).
  - lia.
  - exact fair_sample_world.
Defined.

(** ** Grids too small for the items *)

(** On a well-formed game the placement loop raises nothing: it returns a
    well-formed game of the same size, or is still running when the fuel is
    out. *)
Lemma place_loop_no_raise (sym : string) (count : Z) (fuel : nat) :
  forall (placed : Z) (g : Game) (w : World),
    1 <= grid_size g -> wf g ->
    match place_loop fuel sym count placed (g, w) with
    | Ret _ s => wf s.1 /\ grid_size s.1 = grid_size g
    | Loop => True
    | _ => False
    end.
Proof.
  induction fuel as [|fuel IH]; intros placed g w Hgs Hwf.
  - simpl. case_bool_decide; done.
  - destruct (decide (placed < count)) as [Hlt|Hge]; cycle 1.
    { simpl. rewrite bool_decide_eq_false_2 by done. done. }
    rewrite place_loop_step by done.
    pose proof (pair_at_in_bounds (grid_size g) w 0 Hgs) as Hp0.
    set (p0 := ((pair_at (grid_size g) w 0).2, (pair_at (grid_size g) w 0).1))
      in *.
    destruct Hwf as [Hsq Hpos].
    destruct (square_get _ _ _ Hsq Hp0) as [c Hc]. rewrite Hc.
    destruct (String.eqb c " " && negb (bool_decide (p0 = player_pos g)));
      [|by apply IH].
    destruct (grid_get_set _ _ _ sym Hc) as [gr Hgr]. rewrite Hgr.
    apply (IH (placed + 1) (set_grid gr g)); [done|].
    split; simpl; [by eapply grid_set_square|done].
Qed.

Lemma builds_bind {A B} (gs : Z) (m : Method A) (k : A -> Method B)
    (s : Game * World) :
  builds gs (m s) ->
  (forall a s1, wf s1.1 -> grid_size s1.1 = gs -> builds gs (k a s1)) ->
  builds gs (bind m k s).
Proof.
  intros Hm Hk. unfold bind. destruct (m s) as [a s1|e s1| |]; try done.
  destruct Hm as [Hwf Hsize]. by apply Hk.
Qed.

Lemma place_loop_builds (sym : string) (count : Z) (fuel : nat) (placed : Z)
    (s : Game * World) :
  1 <= grid_size s.1 -> wf s.1 ->
  builds (grid_size s.1) (place_loop fuel sym count placed s).
Proof.
  destruct s as [g w]. intros Hgs Hwf.
  pose proof (place_loop_no_raise sym count fuel placed g w Hgs Hwf) as H.
  unfold builds. by destruct (place_loop fuel sym count placed (g, w)).
Qed.

Lemma _place_items_builds (fuel : nat) (g : Game) (w : World) :
  1 <= grid_size g -> wf g ->
  builds (grid_size g) (_place_items fuel (g, w)).
Proof.
  intros Hgs Hwf. unfold _place_items, _place_random_items.
  apply builds_bind; [by apply (place_loop_builds _ _ _ _ (g, w))|].
  intros _ s1 Hwf1 Hs1. rewrite <- Hs1 in *.
  apply builds_bind; [by apply place_loop_builds|].
  intros _ s2 Hwf2 Hs2. rewrite <- Hs2 in *.
  apply builds_bind; [by apply place_loop_builds|].
  intros _ s3 Hwf3 Hs3. rewrite <- Hs3 in *.
  apply builds_bind; [by apply place_loop_builds|].
  intros _ s4 Hwf4 Hs4. rewrite <- Hs4 in *.
  apply builds_bind; [by apply place_loop_builds|].
  intros _ s5 Hwf5 Hs5. rewrite <- Hs5 in *.
  by apply place_loop_builds.
Qed.

Lemma __init___no_raise (fuel : nat) (name : string) (gs : Z) (w : World) :
  1 <= gs ->
  match __init__ fuel name gs w with
  | Ret _ _ | Loop => True
  | _ => False
  end.
Proof.
  intros Hpos. unfold __init__.
  unfold bind at 1, now_w. unfold bind at 1. rewrite randint_run by lia.
  unfold bind at 1. rewrite randint_run by lia.
  unfold bind at 1, on, bind at 1.
  match goal with
  | |- context [_place_items fuel (?g0, ?w0)] =>
      pose proof (_place_items_builds fuel g0 w0) as Hb;
      destruct (_place_items fuel (g0, w0)) as [[] [g1 w1]|e1 s1| |]
  end; try done.
  - simpl in Hb. apply Hb; [lia|].
    split; simpl; [apply replicate_grid_square; lia|].
    unfold in_bounds. simpl. split; apply Z.mod_pos_bound; lia.
  - simpl in Hb. apply Hb; [lia|].
    split; simpl; [apply replicate_grid_square; lia|].
    unfold in_bounds. simpl. split; apply Z.mod_pos_bound; lia.
Qed.

(** X13: on a grid too small for the player and the 13 items the
    constructor never returns a game: a size of 0 or less raises
    [ValueError] at the first random draw, and on a size of 1, 2 or 3 the
    placement is still running however much fuel it is given. *)
Theorem constructor_small_grid (fuel : nat) (name : string) (gs : Z)
    (w : World) :
  gs < 4 ->
  (gs <= 0 -> __init__ fuel name gs w = Raise ValueError (next_tick w))
  /\ (1 <= gs -> __init__ fuel name gs w = Loop).
Proof.
  intros Hsmall. split.
  - intros Hneg. unfold __init__, bind, now_w, randint.
    rewrite bool_decide_eq_false_2 by lia. reflexivity.
  - intros Hpos. pose proof (__init___no_raise fuel name gs w Hpos) as Hb.
    destruct (__init__ fuel name gs w) as [g w'|e w'| |] eqn:Hinit; try done.
    pose proof (__init___fresh _ _ _ _ _ _ Hinit) as (_ & _ & _ & Hsize).
    apply __init___wf in Hinit as [_ H4]. lia.
Qed.

Lemma constructor_small_grid_witness :
  (3 <= 0 -> __init__ 50 "Ann" 3 sample_world
             = Raise ValueError (next_tick sample_world))
  /\ (1 <= 3 -> __init__ 50 "Ann" 3 sample_world = Loop).
Proof.
  apply (constructor_small_grid 50 "Ann" 3 sample_world). lia.
Defined.

(** ** More on the leaderboard *)

Lemma sort_desc_sorted {A} (key : A -> Z) (l : list A) :
  descending key l -> sort_desc key l = l.
Proof.
  induction l as [|x l IH]; [done|]. intros Hl.
  apply descending_cons in Hl as [Hx Hl]. simpl. rewrite IH by done.
  destruct Hx as [|y l' Hy _]; simpl; [done|].
  rewrite bool_decide_eq_false_2 by lia. done.
Qed.

Lemma descending_snoc {A} (key : A -> Z) (l : list A) (x : A) :
  descending key l -> Forall (fun y => key y >= key x) l ->
  descending key (l ++ [x]).
Proof.
  induction l as [|y l IH]; simpl; intros Hl Hall.
  - apply descending_cons. split; [constructor|apply descending_nil].
  - apply descending_cons in Hl as [Hy Hl].
    apply Forall_cons in Hall as [Hyx Hall].
    apply descending_cons. split; [|by apply IH].
    apply Forall_app. split; [done|]. by constructor.
Qed.

(** X14: while the leaderboard has room (fewer than 5 entries on file, or
    no readable file at all), [check_high_scores] keeps every entry it
    found and the new one, and returns [True]. *)
Theorem scores_room (name : string) (sc : Z) (filename : string) (w : World) :
  leaderboard_file filename w ->
  (length (initial_scores filename w) < 5)%nat ->
  exists w' l, check_high_scores name sc filename w = Ret true w'
    /\ leaderboard filename w' = Some l
    /\ l ≡ₚ initial_scores filename w ++ [new_entry name sc w].
Proof.
  intros Hfile Hroom.
  destruct (check_high_scores_run name sc filename w Hfile) as (doc & -> & Hdoc).
  set (old := initial_scores filename w) in *.
  set (new := new_entry name sc w) in *.
  assert (Hkept : kept_scores old new = sort_desc points (old ++ [new])).
  { unfold kept_scores. apply take_ge.
    rewrite sort_desc_Permutation, length_app. simpl. lia. }
  exists (set_files (next_tick w) (<[filename := Json doc]> (files w))),
    (kept_scores old new).
  split; [f_equal|split].
  - apply listed_true. exists new. split; [|done].
    rewrite Hkept, sort_desc_Permutation. apply elem_of_app. right. left.
  - by apply (leaderboard_insert filename (next_tick w)).
  - rewrite Hkept. apply sort_desc_Permutation.
Qed.

Lemma scores_room_witness :
  exists w' l,
    check_high_scores "Ann" 250 "high_scores.json" sample_world = Ret true w'
    /\ leaderboard "high_scores.json" w' = Some l
    /\ l ≡ₚ initial_scores "high_scores.json" sample_world
            ++ [new_entry "Ann" 250 sample_world].
Proof.
  apply (scores_room "Ann" 250 "high_scores.json" sample_world).
  - left. reflexivity.
  - vm_compute. lia.
Defined.

(** X15: a full, sorted leaderboard is left as it is by a score that beats
    none of its entries: a tie with the last place does not displace it. *)
Theorem scores_tie_keeps_board (name : string) (sc : Z) (filename : string)
    (w : World) (board : list Entry) :
  leaderboard filename w = Some board ->
  length board = 5%nat -> sorted_desc board ->
  Forall (fun e => points e >= sc) board ->
  exists b w', check_high_scores name sc filename w = Ret b w'
    /\ leaderboard filename w' = Some board.
Proof.
  intros Hboard Hlen Hsorted Hall.
  destruct (check_high_scores_run name sc filename w) as (doc & -> & Hdoc);
    [right; right; rewrite Hboard; eauto|].
  eexists _, _. split; [reflexivity|].
  etrans; [exact (leaderboard_insert filename (next_tick w) doc _ Hdoc)|].
  f_equal. unfold initial_scores, kept_scores. rewrite Hboard. simpl.
  rewrite sort_desc_sorted.
  - rewrite take_app_length'; done.
  - apply descending_snoc; [by apply sorted_desc_descending|done].
Qed.

Lemma scores_tie_keeps_board_witness :
  exists b w',
    check_high_scores "Zed" 100 "high_scores.json" scores_world = Ret b w'
    /\ leaderboard "high_scores.json" w' = Some sample_board.
Proof.
  apply (scores_tie_keeps_board "Zed" 100 "high_scores.json" scores_world
           sample_board).
  - reflexivity.
  - reflexivity.
  - intros i j a b Hij Ha Hb.
    destruct i as [|[|[|[|[|i]]]]], j as [|[|[|[|[|j]]]]];
      simpl in *; simplify_eq; try lia; simpl; lia.
  - repeat constructor; simpl; lia.
Defined.

Lemma for_each_print {A} (l : list A) (line : A -> string) (w : World) :
  for_each l (fun x => modify (emit (Print (line x)))) w
  = Ret tt
      {| files := files w; rng := rng w; rng_pos := rng_pos w;
         clock := clock w; clock_pos := clock_pos w;
         console := console w ++ (Print <$> (line <$> l)) |}.
Proof.
  revert w. induction l as [|x l IH]; intros w; simpl.
  - rewrite app_nil_r. by destruct w.
  - unfold bind, modify. rewrite IH. simpl. by rewrite <- app_assoc.
Qed.

(** X16: [display_high_scores] never raises on a leaderboard file and never
    writes one.  On a missing or non-JSON file it prints the single line
    "No high scores yet!"; on a leaderboard it prints the title and one line
    per entry, in the order of the file, ranked from 1. *)
Theorem display_high_scores_prints (filename : string) (w : World) :
  leaderboard_file filename w ->
  exists w', display_high_scores filename w = Ret tt w'
    /\ files w' = files w
    /\ console w'
       = console w
         ++ match leaderboard filename w with
            | Some l =>
                Print (newline +:+ "===== HIGH SCORES =====")
                :: imap (fun i e => Print (score_line (Z.of_nat i + 1) e)) l
            | None => [Print (newline +:+ "No high scores yet!")]
            end.
Proof.
  intros Hfile. unfold display_high_scores, try_except, leaderboard.
  unfold bind at 1, read_scores, bind at 1, read_json.
  destruct Hfile as [Hf|[Hf|[l Hf]]].
  - rewrite Hf. eexists. split; [reflexivity|]. done.
  - rewrite Hf. eexists. split; [reflexivity|]. done.
  - unfold leaderboard in Hf.
    destruct (files w !! filename) as [[doc| |]|]; try done.
    unfold typed. rewrite Hf. unfold ret at 1.
    unfold bind at 1, modify at 1.
    rewrite (for_each_print _ (fun ie => score_line ie.1 ie.2)).
    eexists. split; [reflexivity|]. simpl. split; [done|].
    rewrite <- app_assoc. simpl. do 2 f_equal.
    rewrite fmap_imap, fmap_imap. reflexivity.
Qed.

Lemma display_high_scores_prints_witness :
  exists w', display_high_scores "high_scores.json" scores_world = Ret tt w'
    /\ files w' = files scores_world
    /\ console w'
       = console scores_world
         ++ match leaderboard "high_scores.json" scores_world with
            | Some l =>
                Print (newline +:+ "===== HIGH SCORES =====")
                :: imap (fun i e => Print (score_line (Z.of_nat i + 1) e)) l
            | None => [Print (newline +:+ "No high scores yet!")]
            end.
Proof.
  apply (display_high_scores_prints "high_scores.json" scores_world).
  right. right. exists sample_board. reflexivity.
Defined.

(** ** More on loading *)

(** X17: a file that is JSON but not a saved game is not handled by
    [load_game]: a document that is not an object raises [TypeError], an
    object without the key "player_name" raises [KeyError], and the
    exception leaves [load_game] with the environment as it was. *)
Theorem load_game_not_a_save (fuel : nat) (filename : string) (w : World)
    (doc : json) :
  files w !! filename = Some (Json doc) ->
  match doc with
  | JObj fields =>
      assoc "player_name" fields = None ->
      load_game fuel filename w = Raise (KeyError "player_name") w
  | _ => load_game fuel filename w = Raise TypeError w
  end.
Proof.
  intros Hfile.
  destruct doc as [| | | | |fields]; [| | | | |intros Hkey];
    unfold load_game, try_except, bind, read_json, getitem, or_raise;
    rewrite Hfile, ?Hkey; reflexivity.
Qed.

Lemma load_game_not_a_save_witness :
  load_game 20 "high_scores.json" scores_world = Raise TypeError scores_world.
Proof.
  apply (load_game_not_a_save 20 "high_scores.json" scores_world
           (JArr (enc_entry <$> sample_board))).
  reflexivity.
Defined.

(** X18: loading what was saved brings back the log of the saved game
    followed by one entry for the loading, and a game that is not over,
    whatever the saved game was. *)
Theorem save_load_log (g : Game) (filename : string) (w : World) :
  4 <= grid_size g -> fair (grid_size g) w ->
  exists w1, save_game filename (g, w) = Ret true (g, w1)
    /\ exists (fuel : nat) (g' : Game) (w' : World) (t : datetime),
         (forall f, load_game (fuel + f) filename w1 = Ret (Some g') w')
         /\ game_log g'
            = game_log g
              ++ ["[" +:+ hms t +:+ "] Game loaded from " +:+ filename]
         /\ game_over g' = false.
Proof.
  intros Hgs Hfair. rewrite save_game_run. eexists. split; [reflexivity|].
  match goal with
  | |- context [load_game _ _ ?w1] => set (saved := w1)
  end.
  destruct (__init___returns (player_name g) (grid_size g) saved Hgs)
    as (fuel & fresh & w0 & Hinit).
  { by apply (fair_same_draws _ w). }
  pose proof (__init___fresh _ _ _ _ _ _ (Hinit 0%nat)) as (Hover & _).
  eexists fuel, _, _, _. split.
  - intros f. apply (load_game_saved _ _ g fresh (clock w (clock_pos w))).
    + unfold saved. simpl. apply lookup_insert_eq.
    + apply Hinit.
  - simpl. done.
Qed.

Lemma save_load_log_witness :
  exists w1, save_game "saved_game.json" (at_exit 1, sample_world)
             = Ret true (at_exit 1, w1)
    /\ exists (fuel : nat) (g' : Game) (w' : World) (t : datetime),
         (forall f, load_game (fuel + f) "saved_game.json" w1 = Ret (Some g') w')
         /\ game_log g'
            = game_log (at_exit 1)
              ++ ["[" +:+ hms t +:+ "] Game loaded from " +:+ "saved_game.json"]
         /\ game_over g' = false.
Proof.
  apply (save_load_log (at_exit 1) "saved_game.json" sample_world).
  - simpl. lia.
  - exact fair_sample_world.
Defined.

(** ** What the rendering shows *)

Section ShowsSame.
Context (g1 g2 : Game).

Lemma shows_same_ret {A} (a : A) : shows_same g1 g2 (ret a) (ret a).
Proof. intros w. by exists (Ret a w). Qed.

Lemma shows_same_bind {A B} (m1 m2 : Method A) (k1 k2 : A -> Method B) :
  shows_same g1 g2 m1 m2 -> (forall a, shows_same g1 g2 (k1 a) (k2 a)) ->
  shows_same g1 g2 (bind m1 k1) (bind m2 k2).
Proof.
  intros Hm Hk w. unfold bind. destruct (Hm w) as (o & -> & ->).
  destruct o as [a w'|e w'| |]; simpl.
  - apply Hk.
  - by exists (Raise e w').
  - by exists Loop.
  - by exists Dynamic.
Qed.

Lemma shows_same_self {A} (k1 k2 : Game -> Method A) :
  shows_same g1 g2 (k1 g1) (k2 g2) ->
  shows_same g1 g2 (bind self k1) (bind self k2).
Proof. intros Hk w. exact (Hk w). Qed.

Lemma shows_same_emit (ev : event) :
  shows_same g1 g2 (modify (fun s => (fst s, emit ev (snd s))))
    (modify (fun s => (fst s, emit ev (snd s)))).
Proof. intros w. by exists (Ret tt (emit ev w)). Qed.

Lemma shows_same_or_raise {A} (e : exn) (o : option A) :
  shows_same g1 g2 (or_raise e o) (or_raise e o).
Proof.
  intros w. destruct o as [a|]; [by exists (Ret a w)|by exists (Raise e w)].
Qed.

Lemma shows_same_for_each {A} (l : list A) (b1 b2 : A -> Method unit) :
  (forall x, x ∈ l -> shows_same g1 g2 (b1 x) (b2 x)) ->
  shows_same g1 g2 (for_each l b1) (for_each l b2).
Proof.
  induction l as [|x l IH]; intros Hb; simpl.
  - apply shows_same_ret.
  - apply shows_same_bind; [apply Hb; left|]. intros _. apply IH.
    intros y Hy. apply Hb. by right.
Qed.

Lemma shows_same_fold_each {A B} (l : list A) (b1 b2 : B -> A -> Method B)
    (acc : B) :
  (forall acc' x, x ∈ l -> shows_same g1 g2 (b1 acc' x) (b2 acc' x)) ->
  shows_same g1 g2 (fold_each l b1 acc) (fold_each l b2 acc).
Proof.
  revert acc. induction l as [|x l IH]; intros acc Hb; simpl.
  - apply shows_same_ret.
  - apply shows_same_bind; [apply Hb; left|]. intros acc'. apply IH.
    intros acc'' y Hy. apply Hb. by right.
Qed.
End ShowsSame.

Lemma render_cell_same_view (g1 g2 : Game) (i j : Z) (row : string) :
  same_view g1 g2 -> used_map (inventory g1) <> Some true ->
  0 <= i < grid_size g1 -> 0 <= j < grid_size g1 ->
  shows_same g1 g2 (render_cell false i row j) (render_cell false i row j).
Proof.
  intros (_ & _ & _ & _ & Hinv & Hpos & Hcells) Hflag Hi Hj.
  unfold render_cell. apply shows_same_self. cbv beta iota zeta.
  rewrite <- Hinv, <- Hpos.
  case_bool_decide as Hp; [apply shows_same_ret|].
  replace (default false (used_map (inventory g1))) with false
    by (by destruct (used_map (inventory g1)) as [[]|]).
  rewrite orb_false_r.
  destruct (bool_decide (Z.abs (i - (player_pos g1).1) <= 1)
            && bool_decide (Z.abs (j - (player_pos g1).2) <= 1)) eqn:Hadj;
    [|apply shows_same_ret].
  apply andb_true_iff in Hadj as [H1 H2]. apply bool_decide_eq_true in H1, H2.
  rewrite <- (Hcells (i, j)) by (split; [split|]; done).
  apply shows_same_bind; [apply shows_same_or_raise|].
  intros c. apply shows_same_ret.
Qed.

(** X19: the rendering of the game in play shows nothing of the cells away
    from the player.  Two games with the same name, size, score, moves,
    inventory and position, whose grids agree on the squares next to the
    player, are rendered alike as long as the flag "used_map" is not
    raised: the same lines on the same console, or the same exception. *)
Theorem fog_of_war (g1 g2 : Game) (w : World) :
  same_view g1 g2 -> used_map (inventory g1) <> Some true ->
  exists o : outcome World unit,
    display_grid false (g1, w) = with_game g1 o
    /\ display_grid false (g2, w) = with_game g2 o.
Proof.
  intros Hview Hflag. revert w.
  change (shows_same g1 g2 (display_grid false) (display_grid false)).
  pose proof Hview as (Hname & Hsize & Hscore & Hmoves & Hinv & _ & _).
  unfold display_grid.
  apply shows_same_bind; [apply shows_same_emit|]. intros _.
  apply shows_same_self. cbv beta.
  rewrite <- Hname, <- Hsize, <- Hscore, <- Hmoves, <- Hinv.
  do 4 (apply shows_same_bind; [apply shows_same_emit|]; intros _).
  unfold range.
  apply shows_same_for_each. intros i Hi. apply elem_of_seqZ in Hi.
  apply shows_same_bind; [|intros row; apply shows_same_emit].
  apply shows_same_fold_each. intros row j Hj. apply elem_of_seqZ in Hj.
  apply render_cell_same_view; (done || lia).
Qed.

Lemma fog_of_war_witness :
  exists o : outcome World unit,
    display_grid false (sample_game, sample_world) = with_game sample_game o
    /\ display_grid false (other_game, sample_world) = with_game other_game o.
Proof.
  apply (fog_of_war sample_game other_game sample_world).
  - do 6 (split; [reflexivity|]).
    intros [r c] ([Hr Hc] & Hr' & Hc'). simpl in *.
    assert (r = 0 \/ r = 1) as [-> | ->] by lia;
      (assert (c = 0 \/ c = 1) as [-> | ->] by lia); reflexivity.
  - discriminate.
Defined.

(** ** A map use that fails *)

Lemma for_each_raises {S A} (l : list A) (body : A -> M S unit) (s s' : S)
    (e : exn) :
  (forall x s1 e1 s2, body x s1 = Raise e1 s2 -> e1 = IndexError) ->
  for_each l body s = Raise e s' -> e = IndexError.
Proof.
  intros Hbody. revert s. induction l as [|x l IH]; intros s; simpl; [done|].
  unfold bind. destruct (body x s) as [[] s1|e1 s1| |] eqn:Hx; try done.
  - apply IH.
  - intros [= -> ->]. by apply Hbody in Hx.
Qed.

Lemma fold_each_raises {S A B} (l : list A) (body : B -> A -> M S B) (acc : B)
    (s s' : S) (e : exn) :
  (forall b x s1 e1 s2, body b x s1 = Raise e1 s2 -> e1 = IndexError) ->
  fold_each l body acc s = Raise e s' -> e = IndexError.
Proof.
  intros Hbody. revert acc s.
  induction l as [|x l IH]; intros acc s; simpl; [done|].
  unfold bind. destruct (body acc x s) as [b s1|e1 s1| |] eqn:Hx; try done.
  - apply IH.
  - intros [= -> ->]. by apply Hbody in Hx.
Qed.

Lemma display_grid_raises (reveal_all : bool) (s s' : Game * World) (e : exn) :
  display_grid reveal_all s = Raise e s' -> e = IndexError.
Proof.
  unfold display_grid.
  unfold bind at 1, modify at 1. unfold bind at 1, self at 1.
  do 4 (unfold bind at 1, print at 1, modify at 1).
  apply for_each_raises. intros i s1 e1 s2. unfold bind at 1.
  destruct (fold_each _ _ _ s1) as [row s3|e3 s3| |] eqn:Hrow; try done.
  intros [= -> ->]. apply fold_each_raises in Hrow; [done|].
  intros row j s4 e4 s5. unfold render_cell, bind, self, or_raise, ret, raise.
  repeat match goal with
         | |- context [if ?b then _ else _] => destruct b
         | |- context [match ?o with Some _ => _ | None => _ end] => destruct o
         end; congruence.
Qed.

(** X20: [use_map] does not protect its flag: when it is left by an
    exception, which can only be the [IndexError] of a rendering on a grid
    that lacks a cell, the map is spent and logged and the flag "used_map"
    is still raised, so that later renderings reveal every cell. *)
Theorem use_map_interrupted (g : Game) (w : World) (e : exn)
    (s : Game * World) :
  use_map (g, w) = Raise e s ->
  e = IndexError
  /\ maps (inventory s.1) = maps (inventory g) - 1
  /\ used_map (inventory s.1) = Some true
  /\ score s.1 = score g /\ grid s.1 = grid g
  /\ player_pos s.1 = player_pos g
  /\ exists entry, game_log s.1 = game_log g ++ [entry].
Proof.
  unfold use_map. unfold bind at 1, self at 1. simpl.
  case_bool_decide as Hmaps; [|done].
  do 2 (unfold bind at 1, update at 1, modify at 1; simpl).
  unfold bind at 1, print at 1, modify at 1. simpl.
  unfold bind at 1, _log_event, bind at 1, now, update, modify. simpl.
  unfold bind at 1.
  match goal with
  | |- context [display_grid true (?g1, ?w1)] =>
      destruct (keeps_game_display_grid true g1 w1) as (s1 & Hfin & Hs1);
      destruct (display_grid true (g1, w1)) as [[] s2|e2 s2| |] eqn:Hshow
  end; try done.
  intros [= -> ->]. simpl in Hfin. injection Hfin as <-.
  split; [by apply display_grid_raises in Hshow|].
  rewrite Hs1. simpl. do 5 (split; [done|]). eauto.
Qed.

Lemma use_map_interrupted_witness :
  IndexError = IndexError
  /\ maps (inventory interrupted.1) = maps (inventory torn_game) - 1
  /\ used_map (inventory interrupted.1) = Some true
  /\ score interrupted.1 = score torn_game
  /\ grid interrupted.1 = grid torn_game
  /\ player_pos interrupted.1 = player_pos torn_game
  /\ exists entry, game_log interrupted.1 = game_log torn_game ++ [entry].
Proof.
  apply (use_map_interrupted torn_game sample_world IndexError interrupted).
  vm_compute. reflexivity.
Defined.
